(* ===== verification/_CoqProject ===== *)
-Q . S2P
Prelude.v
Quantity.v
QuantityRead.v
CoreV1.v
Utf8.v
Json.v
JsonRead.v
AffinityRead.v
KubeClient.v
OsqueryTable.v
Projection.v
PersistentVolumeClaims.v
PersistentVolumes.v
TableSpec.v
TableContract.v
Interleaving.v
Fairness.v
BothTables.v
