(* ===== verification/Prelude.v ===== *)
(** * kube-query persistent-volume tables: a verification development

    The program (package [tables] of kube-query) exposes two kinds of
    Kubernetes objects as osquery tables.  Each of its two source files,
    [src/tables/persistentvolumeclaims.go] and
    [src/tables/persistentvolumes.go], declares one table adapter: a struct
    that holds a column schema, a table name and a Kubernetes client, a
    constructor, the accessors [Name] and [Columns], and [Generate], which
    lists every object of its kind through the client and projects each
    one to a row, a Go [map[string]string].

    ** Files, in dependency order

    - [Prelude] (this file): the fragment of Go's semantics the adapters
      rely on.  [Go A] is a computation that may append lines to the
      process log and may panic; [deref], [make_slice], [slice_set] and
      [range] model pointer dereference, [make], index assignment with
      its bounds check, and [for i, x := range].  The generic loop lemma
      [range_fill] and the automation shared by the other files live
      here.
    - [Quantity]: [resource.Quantity] and its [String] method, in the
      canonical form value-plus-suffix (modelled from the specification;
      the library is not part of the sources).
    - [QuantityRead]: a reader of the text of a quantity and the round
      trip [read_quantity_String]; like the readers of JSON it models
      no code of the sources.
    - [CoreV1]: the Kubernetes API objects as records, restricted to the
      fields that the adapters read, with [VolumeNodeAffinity] complete
      because it is serialised as a whole.
    - [Utf8]: the runes of a Go string as [utf8.DecodeRuneInString]
      finds them ([DecodeRuneInString], [runes]), valid strings and the
      repair of an invalid one.
    - [Json]: compact JSON text as [json.Marshal] produces it for the
      node-affinity structure: string escaping rune by rune ([escape]),
      [omitempty], [null] for nil slices; the text is valid UTF-8.  The
      class [Encoder] is the call of [json.Marshal] as the adapter makes
      it, with either answer; [json_encoder] is the instance of this
      file, which reports no error.
    - [JsonRead]: a reader of JSON text, and the round trip: reading
      the text of a value gives the value back ([read_encode]).  The
      reader models no code of the sources; it is what a consumer of
      the column does, and the theorems about it say what the text
      keeps.
    - [AffinityRead]: the node affinity read back from a JSON value
      through the field tags, the normal forms [canon],
      [repair_affinity] and [clean], and the round trip
      [decode_marshal].
    - [KubeClient]: the class [Interface], what the adapters consume of
      [kubernetes.Interface] (the two [List] calls), and a snapshot
      client [FakeClient] that implements it.
    - [OsqueryTable]: [ColumnDefinition], [TextColumn], [QueryContext],
      rows, and the class [Table], the contract that an adapter offers to
      the query engine, with its laws [TableLaws].
    - [Projection]: the shape that both [Generate] methods share, as
      one reference definition [project_all] over the lister's answer,
      with its lemmas; each adapter proves once that its [Generate] is
      [project_all] of its row builder, and its theorems follow.
    - [PersistentVolumeClaims]: module [PersistentVolumeClaimsTable], a
      translation of [persistentvolumeclaims.go] statement by statement:
      the struct, [NewPersistentVolumeClaimsTable], [Name], [Columns],
      [Generate], and the body of its loop as one definition per [if]
      statement.
    - [PersistentVolumes]: module [PersistentVolumesTable], likewise for
      [persistentvolumes.go], with [getNodeAffinity].  The module is
      written over [Encoder]: its theorems hold whatever the encoder
      answers, and those about the JSON text are stated for
      [json_encoder].
    - [TableSpec]: the abstract specification (rows as partial maps over
      a closed enumeration of columns, [Generate] as a total function
      from the lister's answer) and the refinement theorems, generic in
      the table and instantiated in [ClaimsSpec] and [VolumesSpec].
    - [TableContract]: the [Table] and [TableLaws] instances of both
      adapters, and what a client of the interface gets from the laws
      alone: a series of queries ([serve]) returns the same result every
      time and only adds to the log.
    - [Interleaving]: [Generate] as a machine that executes one
      statement per step ([Thread], [thread_step]), any number of calls
      in flight over the shared log ([Config], [step]); the invariant of
      every reachable configuration, the bounds of the loop index, and
      termination.
    - [Fairness]: schedules that are fair to every call ([fair]), and
      that under such a schedule every call returns.
    - [BothTables]: the machines of the two tables composed freely
      over the one log ([Both], [both_step]), for queries on both
      tables at once; module [BothCalls] instantiates the composition
      at the two adapters.

    ** Correspondence with the code

    A Go struct is a [Record] with the source's field names; a nilable
    pointer is an [option]; a Go map read with the comma-ok idiom is a
    [gmap] looked up with [!!]; a row under construction is a
    [gmap string string], and every [currRow[k] = v] is an insertion.  A
    slot of the slice [rows] is an [option] because [make] fills the
    slice with nil maps; that the loop overwrites every slot is a
    theorem.  [Generate] returns Go's pair (rows, error), each component
    nilable, inside [Go], so that the log line written on failure and
    the absence of panics are part of the statements.

    ** What the theorems show

    - functional behaviour of [Generate] on each branch: the lister's
      error is returned with a nil slice and exactly one log line; a
      successful listing yields one row per object, in order, and writes
      nothing;
    - per-column behaviour of the row builders: which keys are always
      present, which are present exactly when the source field is, and
      the value stored;
    - the schema invariant: the keys of every row are among the declared
      columns, and the declared columns are distinct text columns;
    - safety: under the client's contract (a nil error comes with a
      non-nil list) no run of [Generate] panics; without it the nil
      dereference is reachable;
    - equivalence of the index-assignment loop with a [map] of the row
      builder, and refinement of the abstract specification: the result
      of [Generate], read over the enumeration of columns, is what the
      specification prescribes;
    - round trip: the text of a node affinity can be read back to the
      structure, up to empty slices tagged [omitempty] and bytes that
      are not valid UTF-8, and the text of a quantity in canonical
      form can be read back to the quantity; in the rows, a cell of
      these columns is absent exactly when the object has no such
      field, so that no placeholder stands for a missing one, and a
      cell that is present reads back to the field;
    - the error of the encoder: [getNodeAffinity] returns the empty
      string, and the row is built all the same; on a nil pointer
      [getNodeAffinity] panics, and only the test of its caller keeps
      [Generate] from it;
    - the scope of the listing: against a client that lists by
      namespace, the claims of all namespaces are in the table;
    - the text of a node affinity: for any bytes in the strings of
      the structure it is valid UTF-8 and the text of one JSON value;
      [{}] for the zero value and [null] for a selector without terms
      are examples;
    - bounds: a row has between three keys and the number of declared
      columns, and every index that the loop writes is within the slice;
    - repeated calls: a second call, and every call of a series, returns
      what the first returned, whatever the context and the predicates;
    - overlapping calls: run statement by statement and interleaved in
      any order, every call ends as a call run alone ends, the log
      holds one line per failed call, no call panics under the client's
      contract, every execution is finite, and under a fair schedule
      every call returns; the same holds when calls on both tables run
      together, with the log lines of the two tables in the order in
      which the calls failed, so that the log is stated up to
      permutation, and an execution of the calls of one table is an
      execution of the composition ([lift_claims], [lift_volumes]);
    - what [Generate] reads of its table: the client only, not the
      context, the query or the metrics client;
    - the places where the code and the written specification disagree
      (keys that are set unconditionally, unset fields that appear in
      the JSON text), as theorems.

    ** Bounds and fuel

    The adapters' definitions use no fuel: the only loop ranges over a
    finite list and is structurally recursive.  The statement-by-
    statement machine of [Interleaving] is run with fuel ([run]); a call
    needs three steps plus one per object listed ([remaining]), the
    theorems that a call ends are stated for any fuel of at least that
    much, and [calls_terminate] bounds every interleaved execution of
    [n] calls by [n] times that number.  A schedule is fair to a call
    when it gives the call that many turns ([fair]); the turns of the
    calls may be mixed in any way.  For [n] calls on the claims table
    and [m] on the volumes table the bound is the sum of the two
    ([both_steps_bound]), and a schedule is fair when it is fair to
    the calls of each table ([both_fair]).  The loop of the encoder over the
    runes of a string ([runes_loop]) takes the length of the string as
    fuel: every rune has at least one byte, and [runes_loop_enough]
    shows that more fuel changes nothing.  The reader of JSON text
    ([read_value]) takes the length of the text as fuel; [read_encode]
    is stated for that fuel, and [json_size_length] shows that the
    text of a value is at least as long as the fuel that reading it
    takes.  Lengths and indices are [nat]; Go's [int] cannot overflow
    here because a slice's length fits in [int] by construction.

    ** Not modelled

    The network, authentication and the API server behind the client
    (the client is a function from the call to its answer, so one table
    sees one snapshot); the osquery extension server that registers the
    tables and evaluates the predicates of a query (its overlapping
    queries are the schedules of [Interleaving] and [BothTables], and
    a step of a call is atomic: a statement of [Generate], with the
    write of a whole line to the log); the timestamp prefix
    that [log.Println] adds to a line; parsing and canonicalisation of
    quantities, which the sources never call; the kinds of Go value
    other than the node-affinity structure that [json.Marshal] accepts;
    fields of the API objects that the adapters never read; the
    [metricsClient] field, which no code sets or reads.  The receiver
    of a method is a value and the client of a table is always there:
    a nil table pointer and a nil [kubernetes.Interface], on which
    [t.client.CoreV1()] would panic, are outside the model, and so
    outside the theorems that no run panics.  A [List] call and
    [json.Marshal] are total functions of their arguments: they answer
    the same at every call, do not block and do not panic, so all
    calls in flight see one answer of the lister.  [affinity_text],
    [row] and [rows_of] are reference definitions that the code is
    compared with; they translate no line of the source.  Every
    statement of the two source files is modelled; what is left of
    them is the package clause, the imports and the comments. *)

From stdpp Require Export base tactics option list strings gmap.

(** * Go values shared by every component *)

Declare Scope go_scope.
Delimit Scope go_scope with go.

(** Go's [error] interface, as far as the adapters see it: a value that
    is nil or carries a message. *)
Inductive error : Type :=
| errors_New (msg : string).

#[export] Instance error_eq_dec : EqDecision error.
Proof. solve_decision. Defined.

(** How a call ends: normally with a value, or in a run-time panic. *)
Inductive Outcome (A : Type) : Type :=
| Done (a : A)
| Panicked (reason : string).
Arguments Done {A} a.
Arguments Panicked {A} reason.

#[export] Instance Outcome_eq_dec `{EqDecision A} : EqDecision (Outcome A).
Proof. solve_decision. Defined.

(** The lines written to the standard logger, oldest first. *)
Abbreviation Log := (list string).

(** A Go computation: it reads and extends the log and ends in an
    [Outcome]. *)
Definition Go (A : Type) : Type := Log → Outcome A * Log.

#[export] Instance go_ret : MRet Go := λ A a log, (Done a, log).

#[export] Instance go_bind : MBind Go := λ A B f m log,
  match m log with
  | (Done a, log') => f a log'
  | (Panicked r, log') => (Panicked r, log')
  end.

#[export] Instance go_fmap : FMap Go := λ A B f m log,
  match m log with
  | (Done a, log') => (Done (f a), log')
  | (Panicked r, log') => (Panicked r, log')
  end.

Definition panic {A} (reason : string) : Go A := λ log, (Panicked reason, log).

(** [log.Println(line)], without the timestamp prefix. *)
Definition log_Println (line : string) : Go unit := λ log, (Done tt, log ++ [line]).

Definition nil_dereference : string :=
  "runtime error: invalid memory address or nil pointer dereference".

Definition index_out_of_range : string := "runtime error: index out of range".

(** [*p] and [p.f] on a nilable pointer. *)
Definition deref {A} (p : option A) : Go A :=
  match p with
  | Some a => mret a
  | None => panic nil_dereference
  end.

(** [make([]T, n)]: [n] copies of the zero value of [T]. *)
Definition make_slice {A} (zero : A) (n : nat) : list A := replicate n zero.
Arguments make_slice : simpl never.

(** [s[i] = x], with the bounds check of the run time. *)
Definition slice_set {A} (s : list A) (i : nat) (x : A) : Go (list A) :=
  if decide (i < length s) then mret (<[i:=x]> s) else panic index_out_of_range.

(** [for i, x := range items { body }], where [body] updates the local
    variables [st]; [range_from] starts counting at [i]. *)
Fixpoint range_from {A St} (i : nat) (items : list A)
    (body : nat → A → St → Go St) (st : St) : Go St :=
  match items with
  | [] => mret st
  | x :: items' => st' ← body i x st; range_from (S i) items' body st'
  end.

Definition range {A St} (items : list A) (body : nat → A → St → Go St) (st : St) : Go St :=
  range_from 0 items body st.

Notation "s .[ i ] ::= x" := (slice_set s i x)
  (at level 20, i at level 99, x at level 99, format "s .[ i ]  ::=  x") : go_scope.

(** A computation that ends normally with [a] and writes nothing. *)
Definition returns {A} (m : Go A) (a : A) : Prop := ∀ log, m log = (Done a, log).

(** A computation that cannot panic, whatever the log holds. *)
Definition never_panics {A} (m : Go A) : Prop :=
  ∀ log, ∃ a log', m log = (Done a, log').

(** The log only grows. *)
Definition log_extends {A} (m : Go A) : Prop :=
  ∀ log, ∃ lines, (m log).2 = log ++ lines.

(** * Automation *)

Create HintDb go discriminated.
Create Rewrite HintDb go.

(** Unfold the monad's operations at the head of the goal. *)
Ltac go_unfold :=
  unfold mbind, mret, fmap, go_bind, go_ret, go_fmap, panic, deref, log_Println in *.

Ltac go_simpl := go_unfold; simpl in *.

(** Case analysis on every [option], [decide] and pair that blocks
    computation in the goal. *)
Ltac go_cases :=
  repeat (case_match || case_decide); simplify_eq/=; try done.

(** * Laws of the monad *)

Section monad_laws.
Context {A B C : Type}.
Implicit Types (m : Go A) (f : A → Go B) (g : B → Go C).

Lemma go_bind_ret_l (a : A) f log : (mret a ≫= f) log = f a log.
Proof. done. Qed.

Lemma go_bind_ret_r m log : (m ≫= mret) log = m log.
Proof. go_simpl. by destruct (m log) as [[]]. Qed.

Lemma go_bind_assoc m f g log : ((m ≫= f) ≫= g) log = (m ≫= λ a, f a ≫= g) log.
Proof. go_simpl. by destruct (m log) as [[]]. Qed.

Lemma go_bind_done m f log a log' :
  m log = (Done a, log') → (m ≫= f) log = f a log'.
Proof. go_simpl. by intros ->. Qed.

Lemma go_bind_panicked m f log r log' :
  m log = (Panicked r, log') → (m ≫= f) log = (Panicked r, log').
Proof. go_simpl. by intros ->. Qed.

Lemma go_bind_returns m f a log : returns m a → (m ≫= f) log = f a log.
Proof. intros Hm. by apply go_bind_done. Qed.

End monad_laws.

Lemma returns_ret {A} (a : A) : returns (mret a) a.
Proof. done. Qed.

Lemma returns_never_panics {A} (m : Go A) a : returns m a → never_panics m.
Proof. intros Hm log. by exists a, log. Qed.

Lemma returns_inj {A} (m : Go A) a b : returns m a → returns m b → a = b.
Proof. intros Ha Hb. specialize (Ha []). specialize (Hb []). congruence. Qed.

Lemma deref_Some {A} (a : A) : returns (deref (Some a)) a.
Proof. done. Qed.

Lemma deref_None {A} log : deref (@None A) log = (Panicked nil_dereference, log).
Proof. done. Qed.

#[export] Hint Resolve returns_ret deref_Some : go.
#[export] Hint Rewrite @go_bind_ret_l @go_bind_ret_r @go_bind_assoc : go.

(** * Slices *)

Section slices.
Context {A : Type}.
Implicit Types (s : list A) (x zero : A) (i n : nat).

Lemma length_make_slice zero n : length (make_slice zero n) = n.
Proof. apply length_replicate. Qed.

Lemma make_slice_S zero n : make_slice zero (S n) = zero :: make_slice zero n.
Proof. done. Qed.

Lemma slice_set_in_range s i x :
  i < length s → returns (slice_set s i x) (<[i:=x]> s).
Proof. intros ? log. unfold slice_set. by rewrite decide_True. Qed.

Lemma slice_set_out_of_range s i x log :
  length s ≤ i → slice_set s i x log = (Panicked index_out_of_range, log).
Proof. intros ?. unfold slice_set. rewrite decide_False; [done|lia]. Qed.

(** Writing slot [length done] of [done ++ y :: rest]. *)
Lemma slice_set_middle (done_ rest : list A) y x :
  returns (slice_set (done_ ++ y :: rest) (length done_) x) (done_ ++ x :: rest).
Proof.
  intros log. rewrite slice_set_in_range.
  - by rewrite insert_app_r_alt, Nat.sub_diag by lia.
  - rewrite length_app. simpl. lia.
Qed.

End slices.

(** [map] of the Standard Library is the [fmap] of lists. *)
Lemma map_fmap {A B} (f : A → B) l : map f l = f <$> l.
Proof. done. Qed.

(** * Strings *)

(** The concatenation of a list of strings. *)
Definition sconcat (l : list string) : string := foldr String.append "" l.
Arguments sconcat : simpl never.

(** [String.append] does not unfold under [simpl]; these are its two
    equations. *)
Lemma string_app_cons c s1 s2 : String c s1 +:+ s2 = String c (s1 +:+ s2).
Proof. done. Qed.

Lemma string_app_nil s : "" +:+ s = s.
Proof. done. Qed.

#[export] Instance string_app_assoc : Assoc (=) String.append.
Proof.
  intros s1 s2 s3. induction s1 as [|c s1 IH]; [done|].
  by rewrite !string_app_cons, IH.
Qed.

#[export] Instance string_app_nil_r : RightId (=) "" String.append.
Proof. intros s. induction s as [|c s IH]; [done|]. by rewrite string_app_cons, IH. Qed.

#[export] Instance string_app_nil_l : LeftId (=) "" String.append.
Proof. by intros s. Qed.

Lemma length_string_app s1 s2 :
  String.length (s1 +:+ s2) = String.length s1 + String.length s2.
Proof. induction s1 as [|c s1 IH]; [done|]. rewrite string_app_cons. simpl. by rewrite IH. Qed.

Lemma sconcat_nil : sconcat [] = "".
Proof. done. Qed.

Lemma sconcat_cons s l : sconcat (s :: l) = s +:+ sconcat l.
Proof. done. Qed.

Lemma sconcat_app l1 l2 : sconcat (l1 ++ l2) = sconcat l1 +:+ sconcat l2.
Proof.
  induction l1 as [|s l1 IH]; [done|].
  by rewrite <-app_comm_cons, !sconcat_cons, IH, (assoc _).
Qed.

(** Push the characters of literal prefixes out of concatenations. *)
Ltac str_norm := repeat (rewrite string_app_cons || rewrite string_app_nil).

Create Rewrite HintDb str.
#[export] Hint Rewrite string_app_cons string_app_nil sconcat_nil sconcat_cons : str.
#[export] Hint Rewrite <- (assoc String.append) : str.

(** * Sums over lists *)

(** Replacing one element of a list changes the sum of a measure by
    the difference of the two measures. *)
Lemma sum_list_fmap_insert {A} (f : A → nat) (l : list A) i x y :
  l !! i = Some x →
  sum_list (f <$> <[i:=y]> l) + f x = sum_list (f <$> l) + f y.
Proof.
  revert i. induction l as [|z l IH]; intros [|i] Hi; simplify_eq/=; [lia|].
  specialize (IH i Hi). lia.
Qed.

(** Filtering the copies of one element keeps all of them or none. *)
Lemma filter_replicate {A} (P : A → Prop) `{!∀ x, Decision (P x)} n x :
  filter P (replicate n x) = if decide (P x) then replicate n x else [].
Proof.
  induction n as [|n IH]; simpl; [by case_decide|].
  rewrite filter_cons, IH. by case_decide.
Qed.

(** * The range loop *)

Section range.
Context {A B : Type}.
Implicit Types (items : list A) (f : A → B) (zero : B).

(** The loop that the adapters run: slot [i] receives [f] of the [i]-th
    item.  Started on a slice whose first [length done_] slots are
    filled, it fills the remaining ones and touches nothing else. *)
Lemma range_from_fill f zero items (done_ : list B) :
  returns (range_from (length done_) items
             (λ i x rows, slice_set rows i (f x))
             (done_ ++ make_slice zero (length items)))
          (done_ ++ (f <$> items)).
Proof.
  revert done_. induction items as [|x items IH]; intros done_ log.
  - done.
  - cbn [range_from length fmap list_fmap]. rewrite make_slice_S.
    rewrite (go_bind_returns _ _ _ _ (slice_set_middle done_ _ zero (f x))).
    specialize (IH (done_ ++ [f x]) log).
    rewrite length_app, Nat.add_1_r, <-!(assoc (++)) in IH. exact IH.
Qed.

(** [rows := make(..., len(items)); for i, x := range items { rows[i] =
    f(x) }] computes [map f items]. *)
Lemma range_fill f zero items :
  returns (range items (λ i x rows, slice_set rows i (f x))
             (make_slice zero (length items)))
          (f <$> items).
Proof. exact (range_from_fill f zero items []). Qed.

(** Two bodies that agree on every input run the same loop. *)
Lemma range_from_ext {St} (body body' : nat → A → St → Go St) i items st log :
  (∀ i x st log, body i x st log = body' i x st log) →
  range_from i items body st log = range_from i items body' st log.
Proof.
  intros Hbody. revert i st log.
  induction items as [|x items IH]; intros i st log; [done|].
  cbn [range_from]. unfold mbind, go_bind. rewrite Hbody.
  destruct (body' i x st log) as [[st'|r] log']; [apply IH|done].
Qed.

(** The same loop when the value stored is computed by a call that
    returns [f x]. *)
Lemma range_fill_go (g : A → Go B) f zero items :
  (∀ x, returns (g x) (f x)) →
  returns (range items (λ i x rows, y ← g x; slice_set rows i y)
             (make_slice zero (length items)))
          (f <$> items).
Proof.
  intros Hg log. unfold range.
  rewrite (range_from_ext _ (λ i x rows, slice_set rows i (f x))).
  - apply range_fill.
  - intros i x st log'. by apply go_bind_returns.
Qed.

(** A slice that is too short makes the first write past its end panic. *)
Lemma range_from_short f items (rows : list B) i log :
  items ≠ [] → length rows ≤ i →
  range_from i items (λ i x rows, slice_set rows i (f x)) rows log
  = (Panicked index_out_of_range, log).
Proof.
  destruct items as [|x items]; [done|]. intros _ ?. simpl.
  by rewrite (go_bind_panicked _ _ _ _ _ (slice_set_out_of_range rows i (f x) log ltac:(done))).
Qed.

End range.

#[export] Hint Resolve range_fill slice_set_in_range : go.
