(* ===== verification/Quantity.v ===== *)
(** * Quantity: [resource.Quantity] and its canonical text

    The adapters call one method of the Kubernetes quantity type,
    [String], on values that they read from an object's resource list.
    The library is not part of the sources; this file models a quantity
    in canonical form, a number and a unit suffix, and renders it as the
    number in decimal followed by the suffix ("10Gi", "500m", "0").  The
    table adapters treat [Quantity.String] as a black box: none of their
    theorems unfolds it. *)

From stdpp Require Import pretty.
From S2P Require Import Prelude.

Module Quantity.

(** The unit suffixes of the three formats of the library: powers of
    1024, powers of 1000, and a decimal exponent. *)
Inductive Suffix : Type :=
| Ki | Mi | Gi | Ti | Pi | Ei
| nano | micro | milli | one | kilo | mega | giga | tera | peta | exa
| DecimalExponent (e : Z).

#[global] Instance Suffix_eq_dec : EqDecision Suffix.
Proof. solve_decision. Defined.

Record t : Type := mk {
  number : Z;
  suffix : Suffix;
}.

#[global] Instance t_eq_dec : EqDecision t.
Proof. solve_decision. Defined.

(** The zero value [Quantity{}], which Go's map index yields for a key
    that is absent. *)
Definition zero : t := {| number := 0%Z; suffix := one |}.

#[global] Instance t_inhabited : Inhabited t := populate zero.

Definition suffix_text (s : Suffix) : string :=
  match s with
  | Ki => "Ki" | Mi => "Mi" | Gi => "Gi" | Ti => "Ti" | Pi => "Pi" | Ei => "Ei"
  | nano => "n" | micro => "u" | milli => "m" | one => ""
  | kilo => "k" | mega => "M" | giga => "G" | tera => "T" | peta => "P" | exa => "E"
  | DecimalExponent e => if decide (e = 0%Z) then "" else "e" +:+ pretty e
  end.

(** The method [String] of a quantity: the number, then the suffix. *)
Definition String (q : t) : string := pretty (number q) +:+ suffix_text (suffix q).

(** Quantities the examples use. *)
Definition gibi (n : Z) : t := {| number := n; suffix := Gi |}.

Lemma String_zero : String zero = "0".
Proof. reflexivity. Qed.

Lemma String_10Gi : String (gibi 10%Z) = "10Gi".
Proof. reflexivity. Qed.

Lemma String_number_prefix q : ∃ rest, String q = pretty (number q) +:+ rest.
Proof. by exists (suffix_text (suffix q)). Qed.

End Quantity.
