(* ===== verification/QuantityRead.v ===== *)
(** * QuantityRead: reading back the text of a quantity

    The columns [capacity] and [requested] hold the text that
    [Quantity.String] gives.  This file reads such a text back: a
    decimal number with an optional sign ([read_Z]), then a suffix
    ([read_suffix]).  Reading the text of a quantity in canonical form
    gives the quantity ([read_quantity_String]), so different
    quantities are shown differently ([String_inj]).  The reader
    models no code of the sources; it says what the text keeps. *)

From Stdlib Require Import Ascii.
From stdpp Require Import pretty.
From S2P Require Import Prelude Quantity.

(** ** Numbers *)

Definition digit_value (c : ascii) : option N :=
  let n := N_of_ascii c in
  if ((48 <=? n) && (n <=? 57))%N then Some (n - 48)%N else None.

Definition starts_digit (s : string) : bool :=
  if s is String c _ then bool_decide (is_Some (digit_value c)) else false.

(** The digits at the start of [s], read after the digits that gave
    [acc], and the rest of [s]. *)
Fixpoint read_digits (acc : N) (s : string) : N * string :=
  match s with
  | String c rest =>
      match digit_value c with
      | Some d => read_digits (10 * acc + d) rest
      | None => (acc, s)
      end
  | EmptyString => (acc, s)
  end.

Definition read_N (s : string) : option (N * string) :=
  if starts_digit s then Some (read_digits 0 s) else None.

Definition read_Z (s : string) : option (Z * string) :=
  match s with
  | String "-" rest => '(n, rest) ← read_N rest; Some (- Z.of_N n, rest)%Z
  | _ => '(n, rest) ← read_N s; Some (Z.of_N n, rest)
  end.

(** ** Suffixes *)

(** The suffixes that are written with letters only. *)
Definition plain_suffixes : list Quantity.Suffix :=
  [Quantity.one; Quantity.Ki; Quantity.Mi; Quantity.Gi;
   Quantity.Ti; Quantity.Pi; Quantity.Ei; Quantity.nano;
   Quantity.micro; Quantity.milli; Quantity.kilo; Quantity.mega;
   Quantity.giga; Quantity.tera; Quantity.peta; Quantity.exa].

Definition read_suffix (s : string) : option Quantity.Suffix :=
  match s with
  | String "e" rest =>
      '(e, rest) ← read_Z rest;
      if decide (rest = "" ∧ e ≠ 0%Z) then Some (Quantity.DecimalExponent e) else None
  | _ => snd <$> list_find (λ x, Quantity.suffix_text x = s) plain_suffixes
  end.

(** ** Quantities *)

Definition read_quantity (s : string) : option Quantity.t :=
  '(z, rest) ← read_Z s;
  sfx ← read_suffix rest;
  Some {| Quantity.number := z; Quantity.suffix := sfx |}.

(** A quantity in canonical form has no decimal exponent of zero: the
    library writes such a quantity without a suffix. *)
Definition canonical (q : Quantity.t) : Prop :=
  Quantity.suffix q ≠ Quantity.DecimalExponent 0.

#[global] Instance canonical_dec q : Decision (canonical q).
Proof. unfold canonical. apply _. Defined.

(** ** The digits that [pretty] writes *)

Lemma digit_value_char x : (x < 10)%N → digit_value (pretty_N_char x) = Some x.
Proof.
  intros Hx.
  assert (x = 0 ∨ x = 1 ∨ x = 2 ∨ x = 3 ∨ x = 4 ∨ x = 5 ∨ x = 6 ∨ x = 7 ∨ x = 8 ∨ x = 9)%N
    as Hcases by lia.
  by destruct_or!; subst.
Qed.

Lemma read_digits_stop acc s : starts_digit s = false → read_digits acc s = (acc, s).
Proof.
  destruct s as [|c s]; [done|]. simpl. intros Hc%bool_decide_eq_false.
  destruct (digit_value c); [|done]. by destruct Hc.
Qed.

(** Reading the digits of [x] appends them to the digits read so
    far. *)
Lemma read_digits_go x s acc :
  ∃ k, read_digits acc (pretty_N_go x s) = read_digits (acc * 10 ^ k + x) s.
Proof.
  revert s. induction (N.lt_wf_0 x) as [x _ IH]; intros s.
  destruct (decide (0 < x)%N) as [Hx|Hx].
  - rewrite pretty_N_go_step by done.
    destruct (IH (x / 10)%N (N.div_lt x 10 Hx eq_refl)
                (String (pretty_N_char (x mod 10)) s)) as [k ->].
    exists (k + 1)%N. cbn [read_digits]. rewrite digit_value_char by (apply N.mod_lt; lia).
    f_equal. rewrite N.pow_add_r. pose proof (N.div_mod x 10). lia.
  - assert (x = 0%N) as -> by lia. exists 0%N. rewrite pretty_N_go_0. f_equal. lia.
Qed.

Lemma pretty_N_go_app x s rest : pretty_N_go x s +:+ rest = pretty_N_go x (s +:+ rest).
Proof.
  revert s. induction (N.lt_wf_0 x) as [x _ IH]; intros s.
  destruct (decide (0 < x)%N) as [Hx|Hx].
  - rewrite (pretty_N_go_step x s), (pretty_N_go_step x (s +:+ rest)) by done.
    by rewrite IH by (apply N.div_lt; lia).
  - assert (x = 0%N) as -> by lia. by rewrite !pretty_N_go_0.
Qed.

Lemma pretty_N_go_starts_digit x s :
  starts_digit s = true → starts_digit (pretty_N_go x s) = true.
Proof.
  revert s. induction (N.lt_wf_0 x) as [x _ IH]; intros s Hs.
  destruct (decide (0 < x)%N) as [Hx|Hx].
  - rewrite pretty_N_go_step by done. apply IH; [apply N.div_lt; lia|].
    cbn [starts_digit]. rewrite digit_value_char by (apply N.mod_lt; lia).
    by apply bool_decide_eq_true.
  - assert (x = 0%N) as -> by lia. by rewrite pretty_N_go_0.
Qed.

(** ** Reading what [pretty] writes *)

Section numbers.
Context (rest : string) (Hrest : starts_digit rest = false).

Lemma pretty_N_starts_digit (x : N) : starts_digit (pretty x +:+ rest) = true.
Proof.
  unfold pretty, pretty_N. case_decide as Hx; [done|].
  rewrite pretty_N_go_app, pretty_N_go_step by lia.
  apply pretty_N_go_starts_digit. cbn [starts_digit].
  rewrite digit_value_char by (apply N.mod_lt; lia). by apply bool_decide_eq_true.
Qed.

Lemma read_N_pretty (x : N) : read_N (pretty x +:+ rest) = Some (x, rest).
Proof.
  unfold read_N. rewrite pretty_N_starts_digit. f_equal.
  unfold pretty, pretty_N. case_decide as Hx.
  - subst. rewrite string_app_cons, string_app_nil. simpl. by apply read_digits_stop.
  - rewrite pretty_N_go_app, string_app_nil.
    destruct (read_digits_go x rest 0) as [k ->]. by apply read_digits_stop.
Qed.

(** A text that starts with a digit does not start with the sign. *)
Lemma read_Z_unsigned s :
  starts_digit s = true → read_Z s = '(n, rest) ← read_N s; Some (Z.of_N n, rest).
Proof.
  destruct s as [|c s]; [done|]. intros Hc. unfold read_Z.
  destruct (decide (c = "-"%char)) as [->|Hne]; [done|].
  by destruct c as [[] [] [] [] [] [] [] []].
Qed.

Lemma read_Z_pretty_N (x : N) : read_Z (pretty x +:+ rest) = Some (Z.of_N x, rest).
Proof. by rewrite read_Z_unsigned, read_N_pretty by apply pretty_N_starts_digit. Qed.

Lemma read_Z_pretty (z : Z) : read_Z (pretty z +:+ rest) = Some (z, rest).
Proof.
  destruct z as [|p|p]; unfold pretty, pretty_Z.
  - apply (read_Z_pretty_N 0).
  - apply (read_Z_pretty_N (N.pos p)).
  - rewrite <-(assoc _), string_app_cons, string_app_nil. cbn [read_Z].
    change (pretty p) with (pretty (N.pos p)). by rewrite read_N_pretty.
Qed.

End numbers.

(** ** Reading what [Quantity.String] writes *)

Lemma suffix_text_no_digit sfx : starts_digit (Quantity.suffix_text sfx) = false.
Proof. destruct sfx; try done. simpl. by case_decide. Qed.

Lemma read_suffix_text sfx :
  sfx ≠ Quantity.DecimalExponent 0 → read_suffix (Quantity.suffix_text sfx) = Some sfx.
Proof.
  destruct sfx as [| | | | | | | | | | | | | | | |e]; try done.
  intros He. assert (e ≠ 0%Z) by congruence. simpl. rewrite decide_False by done.
  rewrite string_app_cons, string_app_nil. cbn [read_suffix].
  rewrite <-(right_id "" _ (pretty e)), read_Z_pretty by done.
  simpl. by rewrite decide_True.
Qed.

(** Reading the text of a quantity in canonical form gives the
    quantity. *)
Lemma read_quantity_String q : canonical q → read_quantity (Quantity.String q) = Some q.
Proof.
  destruct q as [z sfx]. unfold canonical, read_quantity, Quantity.String. simpl. intros Hq.
  rewrite read_Z_pretty by apply suffix_text_no_digit. simpl.
  by rewrite read_suffix_text.
Qed.

(** A cell that holds the text of a quantity when there is one, and
    is absent when there is none, determines the quantity: the cell
    is absent exactly when the quantity is, and reading a cell that is
    present gives the quantity back. *)
Lemma read_quantity_cell (cell : option string) (o : option Quantity.t) :
  cell = Quantity.String <$> o → (∀ q, o = Some q → canonical q) →
  (cell = None ↔ o = None) ∧ cell ≫= read_quantity = o.
Proof.
  intros -> Hq. rewrite fmap_None. split; [done|].
  destruct o as [q|]; [|done]. apply read_quantity_String. by apply Hq.
Qed.

(** Different quantities in canonical form are shown differently. *)
Lemma String_inj q1 q2 :
  canonical q1 → canonical q2 → Quantity.String q1 = Quantity.String q2 → q1 = q2.
Proof.
  intros H1 H2 Heq. apply (inj Some).
  by rewrite <-(read_quantity_String q1), <-(read_quantity_String q2), Heq.
Qed.

(** Without canonical form the text does not determine the quantity:
    a decimal exponent of zero is written as no suffix at all. *)
Example String_exponent_zero :
  let q1 := {| Quantity.number := 5; Quantity.suffix := Quantity.DecimalExponent 0 |} in
  let q2 := {| Quantity.number := 5; Quantity.suffix := Quantity.one |} in
  q1 ≠ q2 ∧ Quantity.String q1 = Quantity.String q2.
Proof. done. Qed.

Example read_quantity_10Gi : read_quantity "10Gi" = Some (Quantity.gibi 10).
Proof. reflexivity. Qed.

Example read_quantity_milli :
  read_quantity "-1500m" = Some {| Quantity.number := -1500; Quantity.suffix := Quantity.milli |}.
Proof. reflexivity. Qed.

Example read_quantity_exponent :
  read_quantity "12e-3"
  = Some {| Quantity.number := 12; Quantity.suffix := Quantity.DecimalExponent (-3) |}.
Proof. reflexivity. Qed.

Example read_quantity_junk : read_quantity "10Gx" = None ∧ read_quantity "Gi" = None.
Proof. done. Qed.
