(* ===== verification/CoreV1.v ===== *)
(** * CoreV1: the Kubernetes API objects that the adapters read

    One module per Go struct of [k8s.io/api/core/v1] and
    [k8s.io/apimachinery/pkg/apis/meta/v1], each with a record [t] whose
    fields carry the Go names.  Only the fields that the adapters read
    are kept, except for [VolumeNodeAffinity], which is serialised as a
    whole and is therefore complete.  A pointer field is an [option]; a
    slice whose nil and empty values are told apart by the JSON encoder
    is an [option (list _)]; a Go map that is only read is a [gmap]. *)

From S2P Require Import Prelude Quantity.

(** [ResourceList], a [map[ResourceName]Quantity]. *)
Abbreviation ResourceList := (gmap string Quantity.t).

(** [m[k]] without comma-ok: the zero value when the key is absent. *)
Definition map_index `{Inhabited V} (m : gmap string V) (k : string) : V :=
  default inhabitant (m !! k).

Module ObjectMeta.
Record t : Type := mk {
  Name : string;
  Namespace : string;
}.
End ObjectMeta.

Module ResourceRequirements.
Record t : Type := mk {
  Requests : ResourceList;
}.
End ResourceRequirements.

Module PersistentVolumeClaimSpec.
Record t : Type := mk {
  Resources : ResourceRequirements.t;
  VolumeName : string;
  StorageClassName : option string;
  VolumeMode : option string;
}.
End PersistentVolumeClaimSpec.

Module PersistentVolumeClaimStatus.
Record t : Type := mk {
  Phase : string;
  Capacity : ResourceList;
}.
End PersistentVolumeClaimStatus.

Module PersistentVolumeClaim.
Record t : Type := mk {
  ObjectMeta : ObjectMeta.t;
  Spec : PersistentVolumeClaimSpec.t;
  Status : PersistentVolumeClaimStatus.t;
}.
End PersistentVolumeClaim.

Module PersistentVolumeClaimList.
Record t : Type := mk {
  Items : list PersistentVolumeClaim.t;
}.
End PersistentVolumeClaimList.

(** ** Node affinity of a volume *)

Module NodeSelectorRequirement.
Record t : Type := mk {
  Key : string;
  Operator : string;
  Values : option (list string);
}.
End NodeSelectorRequirement.

Module NodeSelectorTerm.
Record t : Type := mk {
  MatchExpressions : option (list NodeSelectorRequirement.t);
  MatchFields : option (list NodeSelectorRequirement.t);
}.
End NodeSelectorTerm.

Module NodeSelector.
Record t : Type := mk {
  NodeSelectorTerms : option (list NodeSelectorTerm.t);
}.
End NodeSelector.

Module VolumeNodeAffinity.
Record t : Type := mk {
  Required : option NodeSelector.t;
}.
(** The zero value [VolumeNodeAffinity{}]. *)
Definition zero : t := {| Required := None |}.
End VolumeNodeAffinity.

(** ** Persistent volumes *)

Module LocalVolumeSource.
Record t : Type := mk {
  Path : string;
}.
End LocalVolumeSource.

Module PersistentVolumeSpec.
Record t : Type := mk {
  Capacity : ResourceList;
  Local : option LocalVolumeSource.t;
  StorageClassName : string;
  NodeAffinity : option VolumeNodeAffinity.t;
}.
End PersistentVolumeSpec.

Module PersistentVolumeStatus.
Record t : Type := mk {
  Phase : string;
}.
End PersistentVolumeStatus.

Module PersistentVolume.
Record t : Type := mk {
  ObjectMeta : ObjectMeta.t;
  Spec : PersistentVolumeSpec.t;
  Status : PersistentVolumeStatus.t;
}.
End PersistentVolume.

Module PersistentVolumeList.
Record t : Type := mk {
  Items : list PersistentVolume.t;
}.
End PersistentVolumeList.

(** ** Reading a resource list *)

Section map_index.
Context `{Inhabited V}.
Implicit Types (m : gmap string V) (k : string).

Lemma map_index_Some m k v : m !! k = Some v → map_index m k = v.
Proof. unfold map_index. by intros ->. Qed.

Lemma map_index_None m k : m !! k = None → map_index m k = inhabitant.
Proof. unfold map_index. by intros ->. Qed.

(** The comma-ok test followed by a plain index reads the stored value. *)
Lemma map_index_ok {B} m k (f : V → B) :
  (if m !! k is Some _ then Some (f (map_index m k)) else None) = f <$> m !! k.
Proof. unfold map_index. by destruct (m !! k). Qed.

End map_index.
