(* ===== verification/Utf8.v ===== *)
(** * Utf8: the runes of a Go string

    A Go string is a sequence of bytes that need not be valid UTF-8.
    The JSON encoder walks a string rune by rune with
    [utf8.DecodeRuneInString], which yields either the bytes of a
    well-formed encoding (one to four of them) or, for a byte that
    starts none, the error rune of width one.  This file models that
    function ([DecodeRuneInString]), the sequence of runes of a string
    ([runes]), validity ([ValidString]) and the text in which every
    invalid byte is replaced by U+FFFD ([repaired]).  The case analysis
    on the leading byte is done once, in [decode_inv], which gives the
    well-formed encodings as the inductive predicate [encoding];
    everything else goes through [encoding_decode] and the induction
    principle [runes_ind]. *)

From Stdlib Require Import Ascii.
From S2P Require Import Prelude.

(** ** Bytes *)

Definition byte_val (c : ascii) : N := N_of_ascii c.

(** Bytes below [RuneSelf] are runes of their own. *)
Definition RuneSelf : N := 128.

Definition between (lo hi : N) (c : ascii) : bool :=
  ((lo <=? byte_val c) && (byte_val c <=? hi))%N.

(** A continuation byte. *)
Definition cont (c : ascii) : bool := between 128%N 191%N c.

(** The first byte of a sequence of more than one byte: the length of
    the sequence and the range accepted for the second byte; [None] for
    a byte that starts no sequence. *)
Definition lead (c : ascii) : option (nat * (N * N)) :=
  let n := byte_val c in
  if ((194 <=? n) && (n <=? 223))%N then Some (2, (128, 191)%N)
  else if (n =? 224)%N then Some (3, (160, 191)%N)
  else if (n =? 237)%N then Some (3, (128, 159)%N)
  else if ((225 <=? n) && (n <=? 239))%N then Some (3, (128, 191)%N)
  else if (n =? 240)%N then Some (4, (144, 191)%N)
  else if (n =? 244)%N then Some (4, (128, 143)%N)
  else if ((241 <=? n) && (n <=? 243))%N then Some (4, (128, 191)%N)
  else None.

(** ** Runes *)

(** What [DecodeRuneInString] finds at the start of a string: the bytes
    of a well-formed encoding, or a byte that starts none. *)
Inductive Rune : Type :=
| Encoded (bytes : string)
| Invalid (b : ascii).

#[global] Instance Rune_eq_dec : EqDecision Rune.
Proof. solve_decision. Defined.

(** The first rune of [s] and the rest of [s]; [None] for the empty
    string. *)
Definition DecodeRuneInString (s : string) : option (Rune * string) :=
  match s with
  | EmptyString => None
  | String b0 s1 =>
    if (byte_val b0 <? RuneSelf)%N then Some (Encoded (String b0 ""), s1)
    else
      match lead b0, s1 with
      | Some (2, (lo, hi)), String b1 s2 =>
          if between lo hi b1 then Some (Encoded (String b0 (String b1 "")), s2)
          else Some (Invalid b0, s1)
      | Some (3, (lo, hi)), String b1 (String b2 s3) =>
          if between lo hi b1 && cont b2
          then Some (Encoded (String b0 (String b1 (String b2 ""))), s3)
          else Some (Invalid b0, s1)
      | Some (4, (lo, hi)), String b1 (String b2 (String b3 s4)) =>
          if between lo hi b1 && cont b2 && cont b3
          then Some (Encoded (String b0 (String b1 (String b2 (String b3 "")))), s4)
          else Some (Invalid b0, s1)
      | _, _ => Some (Invalid b0, s1)
      end
  end.

(** The loop [for i < len(s) { r, size := DecodeRuneInString(s[i:]);
    ...; i += size }]: at most [fuel] runes of [s]. *)
Fixpoint runes_loop (fuel : nat) (s : string) : list Rune :=
  match fuel with
  | 0 => []
  | S fuel =>
      match DecodeRuneInString s with
      | Some (r, rest) => r :: runes_loop fuel rest
      | None => []
      end
  end.

(** The runes of [s]: a string has no more runes than bytes. *)
Definition runes (s : string) : list Rune := runes_loop (String.length s) s.

(** The bytes that a rune was decoded from. *)
Definition rune_bytes (r : Rune) : string :=
  match r with
  | Encoded bytes => bytes
  | Invalid b => String b ""
  end.

(** U+FFFD, the replacement character, in UTF-8. *)
Definition replacement : string :=
  String (ascii_of_N 239) (String (ascii_of_N 191) (String (ascii_of_N 189) "")).

(** The text of a rune: its bytes, or the replacement character. *)
Definition rune_text (r : Rune) : string :=
  match r with
  | Encoded bytes => bytes
  | Invalid _ => replacement
  end.

Definition is_encoded (r : Rune) : bool := if r is Encoded _ then true else false.

(** [utf8.ValidString]. *)
Definition ValidString (s : string) : bool := forallb is_encoded (runes s).

(** [s] with every invalid byte replaced by U+FFFD. *)
Definition repaired (s : string) : string := sconcat (rune_text <$> runes s).

Definition high (c : ascii) : Prop := (RuneSelf ≤ byte_val c)%N.

(** The well-formed encodings: one byte below [RuneSelf], or a leading
    byte followed by the one to three bytes that it calls for, the
    first of them within the range that the leading byte accepts. *)
Inductive encoding : string → Prop :=
| encoding_1 b0 :
    (byte_val b0 <? RuneSelf)%N = true → encoding (String b0 "")
| encoding_2 b0 b1 lo hi :
    (byte_val b0 <? RuneSelf)%N = false → lead b0 = Some (2, (lo, hi)) →
    between lo hi b1 = true →
    encoding (String b0 (String b1 ""))
| encoding_3 b0 b1 b2 lo hi :
    (byte_val b0 <? RuneSelf)%N = false → lead b0 = Some (3, (lo, hi)) →
    between lo hi b1 = true → cont b2 = true →
    encoding (String b0 (String b1 (String b2 "")))
| encoding_4 b0 b1 b2 b3 lo hi :
    (byte_val b0 <? RuneSelf)%N = false → lead b0 = Some (4, (lo, hi)) →
    between lo hi b1 = true → cont b2 = true → cont b3 = true →
    encoding (String b0 (String b1 (String b2 (String b3 "")))).

(** What decoding guarantees of a rune. *)
Definition rune_ok (r : Rune) : Prop :=
  match r with
  | Encoded bytes => encoding bytes
  | Invalid b => high b
  end.

(** ** One rune *)

Lemma lead_range b n lo hi : lead b = Some (n, (lo, hi)) → (128 ≤ lo)%N ∧ (hi ≤ 191)%N.
Proof. unfold lead. repeat case_match; intros; simplify_eq; lia. Qed.

Lemma between_high lo hi c : (128 ≤ lo)%N → between lo hi c = true → high c.
Proof. unfold between, high, RuneSelf. intros ? [?%N.leb_le _]%andb_prop. lia. Qed.

Lemma cont_high c : cont c = true → high c.
Proof. by apply between_high. Qed.

Lemma not_self_high c : (byte_val c <? RuneSelf)%N = false → high c.
Proof. apply N.ltb_ge. Qed.

(** The rune that is decoded is made of the first bytes of the string,
    and it is a well-formed encoding or a byte that starts none. *)
Lemma decode_inv s r rest :
  DecodeRuneInString s = Some (r, rest) → s = rune_bytes r +:+ rest ∧ rune_ok r.
Proof.
  destruct s as [|b0 s1]; [done|]. unfold DecodeRuneInString.
  destruct (byte_val b0 <? RuneSelf)%N eqn:Hb0.
  { intros [= <- <-]. split; [done|by constructor]. }
  apply not_self_high in Hb0 as Hhigh.
  destruct (lead b0) as [[[|[|[|[|[|?]]]]] [lo hi]]|] eqn:Hlead;
    try destruct s1 as [|b1 [|b2 [|b3 s4]]];
    repeat case_match;
    intros [= <- <-]; (split; [done|]); simpl; try done;
    repeat match goal with
           | H : _ && _ = true |- _ => apply andb_prop in H as [? ?]
           end; by econstructor.
Qed.

(** A well-formed encoding decodes to itself in front of any text. *)
Lemma encoding_decode bytes rest :
  encoding bytes → DecodeRuneInString (bytes +:+ rest) = Some (Encoded bytes, rest).
Proof.
  destruct 1; rewrite !string_app_cons, string_app_nil; unfold DecodeRuneInString;
    by repeat match goal with H : _ = _ |- _ => rewrite H end.
Qed.

Lemma encoding_length bytes : encoding bytes → 1 ≤ String.length bytes ≤ 4.
Proof. destruct 1; simpl; lia. Qed.

(** Every byte of an encoding of more than one byte is at least
    [RuneSelf]. *)
Lemma encoding_high bytes :
  encoding bytes →
  (∃ b, bytes = String b "" ∧ (byte_val b < RuneSelf)%N) ∨
  Forall high (String.list_ascii_of_string bytes).
Proof.
  destruct 1 as [b0 Hb0|b0 b1 lo hi Hb0 [? ?]%lead_range|b0 b1 b2 lo hi Hb0 [? ?]%lead_range
                |b0 b1 b2 b3 lo hi Hb0 [? ?]%lead_range].
  { left. exists b0. split; [done|by apply N.ltb_lt]. }
  all: right; simpl; repeat constructor; eauto using between_high, cont_high, not_self_high.
Qed.

Lemma rune_ok_length r : rune_ok r → 1 ≤ String.length (rune_bytes r) ≤ 4.
Proof. destruct r as [bytes|b]; simpl; [apply encoding_length|lia]. Qed.

(** Decoding consumes between one and four bytes. *)
Lemma decode_length s r rest :
  DecodeRuneInString s = Some (r, rest) →
  String.length s = String.length (rune_bytes r) + String.length rest ∧
  1 ≤ String.length (rune_bytes r) ≤ 4.
Proof.
  intros [-> Hok]%decode_inv. split; [apply length_string_app|by apply rune_ok_length].
Qed.

Lemma decode_None s : DecodeRuneInString s = None ↔ s = "".
Proof.
  split; [|by intros ->]. destruct s as [|b0 s1]; [done|].
  unfold DecodeRuneInString. by repeat case_match.
Qed.

(** ** The runes of a string *)

(** Any fuel of at least the length of the string gives the same
    runes. *)
Lemma runes_loop_enough n m s :
  String.length s ≤ n → String.length s ≤ m → runes_loop n s = runes_loop m s.
Proof.
  revert m s. induction n as [|n IH]; intros [|m] s Hn Hm;
    try (destruct s; simpl in *; [done|lia]).
  simpl. destruct (DecodeRuneInString s) as [[r rest]|] eqn:Hs; [|done].
  apply decode_length in Hs as [Hlen ?]. f_equal. apply IH; lia.
Qed.

Lemma runes_nil : runes "" = [].
Proof. done. Qed.

Lemma runes_cons s r rest :
  DecodeRuneInString s = Some (r, rest) → runes s = r :: runes rest.
Proof.
  intros Hs. unfold runes. destruct s as [|b0 s1]; [done|].
  cbn [String.length runes_loop]. rewrite Hs. f_equal.
  apply decode_length in Hs as [Hlen ?]. simpl in Hlen. apply runes_loop_enough; lia.
Qed.

(** Induction on a string, rune by rune. *)
Lemma runes_ind (P : string → Prop) :
  P "" →
  (∀ s r rest, DecodeRuneInString s = Some (r, rest) → P rest → P s) →
  ∀ s, P s.
Proof.
  intros Hnil Hcons s. remember (String.length s) as n eqn:Hn. revert s Hn.
  induction n as [n IH] using lt_wf_ind. intros s ->.
  destruct (DecodeRuneInString s) as [[r rest]|] eqn:Hs.
  - apply (Hcons _ _ _ Hs). apply decode_length in Hs as [Hlen ?].
    apply (IH (String.length rest)); [lia|done].
  - by apply decode_None in Hs as ->.
Qed.

(** The runes of a string are made of its bytes, in order. *)
Lemma runes_bytes s : sconcat (rune_bytes <$> runes s) = s.
Proof.
  induction s as [|s r rest Hs IH] using runes_ind; [done|].
  rewrite (runes_cons _ _ _ Hs). apply decode_inv in Hs as [-> _].
  csimpl. by rewrite sconcat_cons, IH.
Qed.

Lemma runes_ok s : Forall rune_ok (runes s).
Proof.
  induction s as [|s r rest Hs IH] using runes_ind; [constructor|].
  rewrite (runes_cons _ _ _ Hs). apply decode_inv in Hs as [_ ?]. by constructor.
Qed.

(** A well-formed encoding is the first rune of any text that it
    starts. *)
Lemma runes_encoding bytes rest :
  encoding bytes → runes (bytes +:+ rest) = Encoded bytes :: runes rest.
Proof. intros Hb. by apply runes_cons, encoding_decode. Qed.

Lemma replacement_encoding : encoding replacement.
Proof. by eapply encoding_3. Qed.

Lemma rune_text_encoding r : rune_ok r → encoding (rune_text r).
Proof. destruct r; [done|]. intros _. apply replacement_encoding. Qed.

(** The runes of a text that is put together from the texts of
    decoded runes. *)
Lemma runes_texts (rs : list Rune) :
  Forall rune_ok rs → runes (sconcat (rune_text <$> rs)) = Encoded ∘ rune_text <$> rs.
Proof.
  induction 1 as [|r rs Hr _ IH]; [done|]. csimpl.
  by rewrite sconcat_cons, runes_encoding, IH by by apply rune_text_encoding.
Qed.

(** ** Validity *)

Lemma ValidString_cons s r rest :
  DecodeRuneInString s = Some (r, rest) →
  ValidString s = is_encoded r && ValidString rest.
Proof. intros Hs. unfold ValidString. by rewrite (runes_cons _ _ _ Hs). Qed.

(** In front of a valid string, decoding goes through the string. *)
Lemma runes_app s1 s2 :
  ValidString s1 = true → runes (s1 +:+ s2) = runes s1 ++ runes s2.
Proof.
  induction s1 as [|s1 r rest Hs IH] using runes_ind; [done|].
  rewrite (ValidString_cons _ _ _ Hs), (runes_cons _ _ _ Hs).
  intros [Hr Hrest]%andb_prop. apply decode_inv in Hs as [-> Hok].
  destruct r as [bytes|]; [|done]. simpl in *.
  by rewrite <-(assoc _), runes_encoding, IH.
Qed.

Lemma ValidString_app s1 s2 :
  ValidString s1 = true → ValidString s2 = true → ValidString (s1 +:+ s2) = true.
Proof.
  intros H1 H2. unfold ValidString in *.
  rewrite (runes_app _ _ H1), forallb_app. by rewrite H1, H2.
Qed.

(** The repaired text is valid, whatever the bytes of the string. *)
Lemma ValidString_repaired s : ValidString (repaired s) = true.
Proof.
  unfold ValidString, repaired. rewrite runes_texts by apply runes_ok.
  by induction (runes s).
Qed.

(** Repairing a valid string changes nothing. *)
Lemma repaired_valid s : ValidString s = true → repaired s = s.
Proof.
  intros Hs. rewrite <-(runes_bytes s) at 2. unfold repaired, ValidString in *.
  induction (runes s) as [|[bytes|b] rs IH]; simplify_eq/=; [done|].
  by rewrite !sconcat_cons, IH.
Qed.

Lemma repaired_idemp s : repaired (repaired s) = repaired s.
Proof. apply repaired_valid, ValidString_repaired. Qed.

(** A byte below [RuneSelf] is a rune. *)
Lemma ValidString_self c s :
  (byte_val c <? RuneSelf)%N = true → ValidString (String c s) = ValidString s.
Proof.
  intros Hc. rewrite (ValidString_cons _ (Encoded (String c "")) s); [done|].
  unfold DecodeRuneInString. by rewrite Hc.
Qed.

(** A string of bytes below [RuneSelf] is valid. *)
Lemma ValidString_ascii s :
  Forall (λ c, (byte_val c <? RuneSelf)%N = true) (String.list_ascii_of_string s) →
  ValidString s = true.
Proof.
  induction s as [|c s IH]; [done|]. intros [Hc Hs]%Forall_cons.
  rewrite ValidString_self by done. by apply IH.
Qed.
