(* ===== verification/Json.v ===== *)
(** * Json: the text that [json.Marshal] writes

    The volumes adapter stores a node-affinity structure as the compact
    JSON text that [encoding/json] produces for it.  This file models
    that text: JSON values ([json]), their compact rendering ([encode])
    with Go's string escaping ([escape], rune by rune as the encoder's
    loop goes: control characters, the double quote and the backslash,
    the HTML-sensitive characters [<], [>] and [&], invalid UTF-8 and
    the two Unicode line separators), and
    the two ways a struct field that is a slice or a pointer is written
    ([field] always, [omitempty] only when non-empty), and the JSON
    value of each struct of the node-affinity structure according to
    its field tags ([marshal_VolumeNodeAffinity] and the three
    definitions before it).  The encoder and the struct tags belong to
    libraries outside the sources; they are modelled from their
    documented behaviour.  The text is valid UTF-8 whatever the
    strings hold ([encode_valid]). *)

From Stdlib Require Import Ascii.
From S2P Require Import Prelude Quantity CoreV1 Utf8.

(** ** Values *)

Inductive json : Type :=
| JNull
| JString (s : string)
| JArray (elems : list json)
| JObject (fields : list (string * json)).

(** ** Bytes *)

Definition dquote : ascii := ascii_of_N 34%N.
Definition backslash : ascii := ascii_of_N 92%N.

(** One lower-case hexadecimal digit. *)
Definition hex_digit (n : N) : ascii :=
  ascii_of_N (if n <? 10 then 48 + n else 87 + n)%N.

(** [\u00XX] for a byte. *)
Definition u00 (c : ascii) : string :=
  String backslash
    ("u00" +:+ String (hex_digit (byte_val c / 16)) (String (hex_digit (byte_val c mod 16)) "")).

(** The replacement written for a byte that starts no valid UTF-8
    sequence. *)
Definition ufffd : string := String backslash "ufffd".

(** A byte below 128 that is written as it is: printable, and none of
    the double quote, the backslash, [<], [>], [&]. *)
Definition html_safe (c : ascii) : bool :=
  let n := byte_val c in
  ((32 <=? n) && (n <? 128) &&
   negb ((n =? 34) || (n =? 92) || (n =? 60) || (n =? 62) || (n =? 38)))%N.

(** The escape of one byte below 128.  Backspace and form feed are
    written as [\u0008] and [\u000c], as the encoder did until Go
    1.21; from Go 1.22 on it writes them with two characters. *)
Definition escape_ascii (c : ascii) : string :=
  let n := byte_val c in
  if html_safe c then String c ""
  else if ((n =? 34) || (n =? 92))%N then String backslash (String c "")
  else if (n =? 10)%N then String backslash "n"
  else if (n =? 13)%N then String backslash "r"
  else if (n =? 9)%N then String backslash "t"
  else u00 c.

(** U+2028 and U+2029, the bytes E2 80 A8 and E2 80 A9, are written as
    a backslash followed by [u2028] and [u2029]. *)
Definition line_separator (b0 b1 b2 : ascii) : option string :=
  if ((byte_val b0 =? 226) && (byte_val b1 =? 128))%N then
    if (byte_val b2 =? 168)%N then Some (String backslash "u2028")
    else if (byte_val b2 =? 169)%N then Some (String backslash "u2029")
    else None
  else None.

(** What the encoder writes for one rune: the escape of a byte below
    [RuneSelf], [\ufffd] for a byte that starts no encoding, the escape
    of a line separator, and the bytes of any other rune as they
    are. *)
Definition escape_rune (r : Rune) : string :=
  match r with
  | Invalid _ => ufffd
  | Encoded (String b "") => escape_ascii b
  | Encoded (String b0 (String b1 (String b2 ""))) =>
      default (rune_bytes r) (line_separator b0 b1 b2)
  | Encoded bytes => bytes
  end.

(** The body of a JSON string, without the surrounding quotes: the
    escapes of the runes of the string. *)
Definition escape (s : string) : string := sconcat (escape_rune <$> runes s).

(** A JSON string: quote, escaped body, quote. *)
Definition quoted (s : string) : string :=
  String dquote (escape s +:+ String dquote "").

(** ** Compact rendering *)

(** The items of an array or object, separated by commas. *)
Fixpoint commas (items : list string) : string :=
  match items with
  | [] => ""
  | [x] => x
  | x :: rest => x +:+ "," +:+ commas rest
  end.

Fixpoint encode (j : json) : string :=
  match j with
  | JNull => "null"
  | JString s => quoted s
  | JArray elems => "[" +:+ commas (map encode elems) +:+ "]"
  | JObject fields =>
      "{" +:+ commas (map (λ kv, quoted kv.1 +:+ ":" +:+ encode kv.2) fields) +:+ "}"
  end.

(** ** Struct fields *)

(** A slice-valued field without [omitempty]: [null] for the nil slice,
    an array otherwise. *)
Definition slice_value {A} (enc : A → json) (s : option (list A)) : json :=
  match s with
  | None => JNull
  | Some l => JArray (enc <$> l)
  end.

(** A field that is always written. *)
Definition field (key : string) (v : json) : list (string * json) := [(key, v)].

(** A slice-valued field with [omitempty]: left out when the slice is
    nil or empty. *)
Definition omitempty_slice {A} (key : string) (enc : A → json) (s : option (list A))
    : list (string * json) :=
  match s with
  | None | Some [] => []
  | Some l => [(key, JArray (enc <$> l))]
  end.

(** A pointer-valued field with [omitempty]: left out when nil. *)
Definition omitempty_ptr {A} (key : string) (enc : A → json) (p : option A)
    : list (string * json) :=
  match p with
  | None => []
  | Some a => [(key, enc a)]
  end.

(** ** The node-affinity structure *)

(** [NodeSelectorRequirement]: [key] and [operator] always, [values]
    with [omitempty]. *)
Definition marshal_NodeSelectorRequirement (r : NodeSelectorRequirement.t) : json :=
  JObject (field "key" (JString (NodeSelectorRequirement.Key r)) ++
           field "operator" (JString (NodeSelectorRequirement.Operator r)) ++
           omitempty_slice "values" JString (NodeSelectorRequirement.Values r)).

(** [NodeSelectorTerm]: both fields with [omitempty]. *)
Definition marshal_NodeSelectorTerm (t : NodeSelectorTerm.t) : json :=
  JObject (omitempty_slice "matchExpressions" marshal_NodeSelectorRequirement
             (NodeSelectorTerm.MatchExpressions t) ++
           omitempty_slice "matchFields" marshal_NodeSelectorRequirement
             (NodeSelectorTerm.MatchFields t)).

(** [NodeSelector]: [nodeSelectorTerms] is always written. *)
Definition marshal_NodeSelector (s : NodeSelector.t) : json :=
  JObject (field "nodeSelectorTerms"
             (slice_value marshal_NodeSelectorTerm (NodeSelector.NodeSelectorTerms s))).

(** [VolumeNodeAffinity]: [required] with [omitempty]. *)
Definition marshal_VolumeNodeAffinity (a : VolumeNodeAffinity.t) : json :=
  JObject (omitempty_ptr "required" marshal_NodeSelector (VolumeNodeAffinity.Required a)).

(** [json.Marshal] on a [VolumeNodeAffinity]: the text and a nil error.
    None of the types involved has a method or a field kind that can
    make the encoder fail. *)
Definition json_Marshal (a : VolumeNodeAffinity.t) : string * option error :=
  (encode (marshal_VolumeNodeAffinity a), None).

(** ** The encoder as the adapter calls it

    [getNodeAffinity] hands a structure to [json.Marshal] and tests
    the error that comes back.  [Encoder] is that call, whatever the
    encoder does, so that the adapter's theorems say what the code
    does with either answer; [json_encoder] is the encoder of this
    file, which reports no error ([NeverFails]), and [broken] is an
    encoder that reports one on every structure. *)
Class Encoder : Type := Marshal : VolumeNodeAffinity.t → string * option error.

Class NeverFails (enc : Encoder) : Prop :=
  Marshal_no_error a : (Marshal a).2 = None.

#[export] Instance json_encoder : Encoder := json_Marshal.

#[export] Instance json_encoder_never_fails : NeverFails json_encoder.
Proof. by intros a. Qed.

(** On an error [json.Marshal] returns no bytes. *)
Definition broken (e : error) : Encoder := λ _, ("", Some e).

(** ** Facts about the text *)

Lemma escape_ascii_safe c : html_safe c = true → escape_ascii c = String c "".
Proof. unfold escape_ascii. by intros ->. Qed.

Lemma html_safe_self c : html_safe c = true → (byte_val c <? RuneSelf)%N = true.
Proof. unfold html_safe. by destruct (_ <=? _)%N, (_ <? _)%N. Qed.

Lemma escape_cons_self c s :
  (byte_val c <? RuneSelf)%N = true → escape (String c s) = escape_ascii c +:+ escape s.
Proof.
  intros Hc. unfold escape.
  rewrite (runes_cons _ (Encoded (String c "")) s); [done|].
  unfold DecodeRuneInString. by rewrite Hc.
Qed.

(** A string of safe bytes is written as it is. *)
Lemma escape_safe s :
  (∀ c, c ∈ String.list_ascii_of_string s → html_safe c = true) → escape s = s.
Proof.
  induction s as [|c s IH]; [done|]. intros Hs.
  assert (Hc : html_safe c = true) by (apply Hs; simpl; left).
  rewrite escape_cons_self, (escape_ascii_safe _ Hc) by by apply html_safe_self.
  rewrite string_app_cons, string_app_nil. f_equal. apply IH.
  intros c' Hc'. apply Hs. simpl. by right.
Qed.

Lemma encode_object_brace fields : ∃ rest, encode (JObject fields) = "{" +:+ rest.
Proof. simpl. eauto. Qed.

Lemma encode_empty_object : encode (JObject []) = "{}".
Proof. done. Qed.

Lemma json_Marshal_zero : json_Marshal VolumeNodeAffinity.zero = ("{}", None).
Proof. done. Qed.

Lemma json_Marshal_no_error a : (json_Marshal a).2 = None.
Proof. done. Qed.

Lemma json_Marshal_brace a : ∃ rest, (json_Marshal a).1 = "{" +:+ rest.
Proof. apply encode_object_brace. Qed.

Lemma omitempty_slice_nil {A} key (enc : A → json) :
  omitempty_slice key enc None = [] ∧ omitempty_slice key enc (Some []) = [].
Proof. done. Qed.

(** Induction on a value, with the hypothesis for every element of an
    array and every member of an object. *)
Lemma json_ind' (P : json → Prop) :
  P JNull →
  (∀ s, P (JString s)) →
  (∀ elems, Forall P elems → P (JArray elems)) →
  (∀ fields, Forall (λ kv, P kv.2) fields → P (JObject fields)) →
  ∀ j, P j.
Proof.
  intros Hnull Hstring Harray Hobject.
  fix IH 1. intros [|s|elems|fields]; [done..| |].
  - apply Harray. induction elems as [|j elems IHelems]; constructor; [apply IH|done].
  - apply Hobject. induction fields as [|[k v] fields IHfields]; constructor; [apply IH|done].
Qed.

(** ** The text is valid UTF-8

    Whatever bytes the strings of a value hold, the text of the value
    is valid UTF-8: a byte that starts no encoding is replaced, and
    every escape is written in bytes below [RuneSelf]. *)

Lemma ValidString_encoding bytes : encoding bytes → ValidString bytes = true.
Proof.
  intros Hb. unfold ValidString.
  by rewrite <-(right_id "" String.append bytes), (runes_encoding _ _ Hb).
Qed.

Lemma ValidString_sconcat (l : list string) :
  Forall (λ s, ValidString s = true) l → ValidString (sconcat l) = true.
Proof.
  induction 1 as [|s l Hs _ IH]; [done|]. rewrite sconcat_cons. by apply ValidString_app.
Qed.

Lemma escape_ascii_valid c : ValidString (escape_ascii c) = true.
Proof. by destruct c as [[] [] [] [] [] [] [] []]; vm_compute. Qed.

Lemma escape_rune_valid r : rune_ok r → ValidString (escape_rune r) = true.
Proof.
  destruct r as [bytes|b]; [|done]. intros Hb%ValidString_encoding.
  destruct bytes as [|b0 [|b1 [|b2 [|b3 bytes]]]]; simpl; try done.
  - apply escape_ascii_valid.
  - unfold line_separator. by repeat case_match.
Qed.

Lemma escape_valid s : ValidString (escape s) = true.
Proof.
  apply ValidString_sconcat, Forall_fmap.
  eapply Forall_impl; [apply runes_ok|]. apply escape_rune_valid.
Qed.

Lemma quoted_valid s : ValidString (quoted s) = true.
Proof.
  unfold quoted. rewrite ValidString_self by done.
  by apply ValidString_app; [apply escape_valid|].
Qed.

Lemma commas_valid (items : list string) :
  Forall (λ s, ValidString s = true) items → ValidString (commas items) = true.
Proof.
  induction 1 as [|x [|y items] Hx Hitems IH]; [done..|].
  change (commas (x :: y :: items)) with (x +:+ "," +:+ commas (y :: items)).
  by repeat apply ValidString_app.
Qed.

Lemma encode_valid j : ValidString (encode j) = true.
Proof.
  induction j as [|s|elems IH|fields IH] using json_ind'; [done|apply quoted_valid|..];
    cbn [encode]; repeat apply ValidString_app; try done;
    apply commas_valid; rewrite map_fmap, Forall_fmap;
    (eapply Forall_impl; [exact IH|]); intros kv Hkv; cbv beta; [done|].
  apply ValidString_app; [apply quoted_valid|]. by apply ValidString_app.
Qed.
