(* ===== verification/JsonRead.v ===== *)
(** * JsonRead: reading back what the encoder writes

    The column [nodeaffinity] is only useful if the text in it can be
    interpreted.  This file defines a reader of compact JSON texts
    (strings with their escapes, [null], arrays, objects; no white
    space, numbers or booleans, which the encoder never writes for a
    node affinity), and proves that reading what the encoder writes
    gives back what was encoded: a string with its invalid bytes
    replaced by U+FFFD ([read_chars_escape]), and a value with its
    strings repaired ([read_value_encode], [read_encode]).  The reader
    of strings is structurally recursive; the reader of values takes
    fuel, and the length of the text is enough ([json_size_length]).
    The reader is the specification against which the encoder is
    judged; the program itself never decodes. *)

From Stdlib Require Import Ascii.
From S2P Require Import Prelude Quantity CoreV1 Utf8 Json.

(** ** Strings *)

(** The value of a hexadecimal digit. *)
Definition unhex (c : ascii) : option N :=
  let n := byte_val c in
  if between 48 57 c then Some (n - 48)%N
  else if between 97 102 c then Some (n - 87)%N
  else if between 65 70 c then Some (n - 55)%N
  else None.

Definition hex4 (h1 h2 h3 h4 : ascii) : option N :=
  d1 ← unhex h1; d2 ← unhex h2; d3 ← unhex h3; d4 ← unhex h4;
  Some (((d1 * 16 + d2) * 16 + d3) * 16 + d4)%N.

(** The UTF-8 encoding of a code point below 0x10000; a surrogate is
    written as the replacement character.  (Pairs of surrogate escapes
    are not combined: the encoder never writes them.) *)
Definition utf8_encode (cp : N) : string :=
  if (cp <? 128)%N then String (ascii_of_N cp) ""
  else if (cp <? 2048)%N then
    String (ascii_of_N (192 + cp / 64)) (String (ascii_of_N (128 + cp mod 64)) "")
  else if ((55296 <=? cp) && (cp <=? 57343))%N then replacement
  else
    String (ascii_of_N (224 + cp / 4096))
      (String (ascii_of_N (128 + (cp / 64) mod 64))
         (String (ascii_of_N (128 + cp mod 64)) "")).

(** The byte that a two-character escape stands for. *)
Definition simple_escape (e : ascii) : option ascii :=
  match e with
  | "034"%char => Some "034"%char
  | "\"%char => Some "\"%char
  | "/"%char => Some "/"%char
  | "b"%char => Some "008"%char
  | "f"%char => Some "012"%char
  | "n"%char => Some "010"%char
  | "r"%char => Some "013"%char
  | "t"%char => Some "009"%char
  | _ => None
  end.

(** Put [p] in front of the string that was read. *)
Definition push {B} (p : string) (o : option (string * B)) : option (string * B) :=
  prod_map (String.append p) id <$> o.

(** The characters of a JSON string after its opening quote, up to and
    including the closing quote: the string they stand for, and what
    follows the closing quote.  [None] when the string is not closed,
    holds a raw control character, or holds an escape that JSON does
    not have. *)
Fixpoint read_chars (s : string) : option (string * string) :=
  match s with
  | EmptyString => None
  | String c s1 =>
    if (byte_val c =? 34)%N then Some ("", s1)
    else if (byte_val c =? 92)%N then
      match s1 with
      | EmptyString => None
      | String e s2 =>
        if (byte_val e =? 117)%N then
          match s2 with
          | String h1 (String h2 (String h3 (String h4 s6))) =>
              match hex4 h1 h2 h3 h4 with
              | Some cp => push (utf8_encode cp) (read_chars s6)
              | None => None
              end
          | _ => None
          end
        else
          match simple_escape e with
          | Some c' => push (String c' "") (read_chars s2)
          | None => None
          end
      end
    else if (byte_val c <? 32)%N then None
    else push (String c "") (read_chars s1)
  end.

(** *** Reading one escaped rune *)

Lemma push_push {B} p q (o : option (string * B)) : push p (push q o) = push (p +:+ q) o.
Proof. destruct o as [[str rest]|]; [|done]. unfold push. simpl. by rewrite (assoc _). Qed.

Lemma push_Some {B} p str (rest : B) : push p (Some (str, rest)) = Some (p +:+ str, rest).
Proof. done. Qed.

Lemma byte_val_inv c n : byte_val c = n → c = ascii_of_N n.
Proof. intros <-. symmetry. apply ascii_N_embedding. Qed.

Lemma byte_val_bound c : (byte_val c < 256)%N.
Proof. apply N_ascii_bounded. Qed.

(** A byte that is no quote, no backslash and no control character
    stands for itself. *)
Lemma read_chars_plain c x :
  (byte_val c =? 34)%N = false → (byte_val c =? 92)%N = false →
  (byte_val c <? 32)%N = false →
  read_chars (String c x) = push (String c "") (read_chars x).
Proof. intros H1 H2 H3. simpl. by rewrite H1, H2, H3. Qed.

Lemma read_chars_high c x :
  high c → read_chars (String c x) = push (String c "") (read_chars x).
Proof.
  unfold high, RuneSelf. intros Hc.
  apply read_chars_plain; [apply N.eqb_neq|apply N.eqb_neq|apply N.ltb_ge]; lia.
Qed.

Lemma unhex_hex_digit n : (n < 16)%N → unhex (hex_digit n) = Some n.
Proof.
  intros Hn. assert (n ∈ (N.of_nat <$> seq 0 16)) as Hin.
  { apply list_elem_of_fmap. exists (N.to_nat n). split; [lia|]. apply elem_of_seq. lia. }
  simpl in Hin. set_unfold. by destruct_or!; subst.
Qed.

(** The escape of a control character or of an HTML-sensitive
    character is read back as the character. *)
Lemma read_chars_u00 c x :
  (byte_val c < 128)%N →
  read_chars (u00 c +:+ x) = push (String c "") (read_chars x).
Proof.
  intros Hc. unfold u00. str_norm.
  simpl.
  assert (byte_val c / 16 < 16)%N by (apply N.Div0.div_lt_upper_bound; lia).
  assert (byte_val c mod 16 < 16)%N by (by apply N.mod_lt).
  unfold hex4. rewrite !unhex_hex_digit by done.
  change (unhex "0") with (Some 0%N). simpl.
  replace ((0 * 16 + 0) * 16 + byte_val c / 16)%N with (byte_val c / 16)%N by lia.
  rewrite N.mul_comm, <-N.div_mod by lia.
  unfold utf8_encode. rewrite (proj2 (N.ltb_lt _ _) Hc).
  unfold byte_val. by rewrite ascii_N_embedding.
Qed.

(** The escape of a byte below [RuneSelf] is read back as the byte. *)
Lemma read_chars_escape_ascii c x :
  (byte_val c < 128)%N →
  read_chars (escape_ascii c +:+ x) = push (String c "") (read_chars x).
Proof.
  intros Hc. unfold escape_ascii.
  destruct (html_safe c) eqn:Hsafe.
  { unfold html_safe in Hsafe. str_norm.
    apply andb_prop in Hsafe as [[H32%N.leb_le _]%andb_prop Hnot].
    apply negb_true_iff in Hnot. repeat apply orb_false_elim in Hnot as [Hnot ?].
    apply read_chars_plain; [done..|]. apply N.ltb_ge. lia. }
  repeat case_match; try by apply read_chars_u00.
  all: repeat match goal with
         | H : (_ || _) = true |- _ => apply orb_prop in H as [H|H]
         | H : (byte_val _ =? _)%N = true |- _ =>
             apply N.eqb_eq, byte_val_inv in H; subst c
         end; done.
Qed.

(** The two line separators, by their bytes. *)
Lemma line_separator_Some b0 b1 b2 esc :
  line_separator b0 b1 b2 = Some esc →
  ∀ x, read_chars (esc +:+ x)
       = push (String b0 (String b1 (String b2 ""))) (read_chars x).
Proof.
  unfold line_separator. intros Hesc x.
  repeat case_match; simplify_eq;
    repeat match goal with
           | H : (_ && _) = true |- _ => apply andb_prop in H as [? ?]
           | H : (byte_val _ =? _)%N = true |- _ =>
               apply N.eqb_eq, byte_val_inv in H; subst
           end; done.
Qed.

(** What the encoder writes for a rune is read back as the text of
    the rune. *)
Lemma read_chars_escape_rune r x :
  rune_ok r → read_chars (escape_rune r +:+ x) = push (rune_text r) (read_chars x).
Proof.
  destruct r as [bytes|b]; [|done]. intros Henc.
  destruct (encoding_high _ Henc) as [(b & -> & Hb)|Hhigh].
  { by apply read_chars_escape_ascii. }
  cbn [rune_ok rune_text] in *.
  destruct Henc as [b0 Hb0|b0 b1 lo hi|b0 b1 b2 lo hi|b0 b1 b2 b3 lo hi];
    cbn [escape_rune rune_bytes String.list_ascii_of_string] in *.
  { by apply read_chars_escape_ascii, N.ltb_lt. }
  2: destruct (line_separator b0 b1 b2) as [esc|] eqn:Hsep;
       [by apply line_separator_Some|cbn [default]].
  all: str_norm;
    repeat match goal with
           | H : Forall _ (_ :: _) |- _ => apply Forall_cons in H as [? H]
           end;
    rewrite !read_chars_high, ?push_push by done; done.
Qed.

(** *** Reading an escaped string *)

Lemma read_chars_escape_runes (rs : list Rune) rest :
  Forall rune_ok rs →
  read_chars (sconcat (escape_rune <$> rs) +:+ String dquote rest)
  = Some (sconcat (rune_text <$> rs), rest).
Proof.
  induction 1 as [|r rs Hr _ IH]; [done|]. csimpl.
  rewrite !sconcat_cons, <-(assoc _), read_chars_escape_rune, IH by done. done.
Qed.

(** The escaped body of a string and its closing quote are read back
    as the string, with every invalid byte replaced by U+FFFD. *)
Lemma read_chars_escape s rest :
  read_chars (escape s +:+ String dquote rest) = Some (repaired s, rest).
Proof. apply read_chars_escape_runes, runes_ok. Qed.

(** A valid string is read back as it is. *)
Lemma read_chars_escape_valid s rest :
  ValidString s = true → read_chars (escape s +:+ String dquote rest) = Some (s, rest).
Proof. intros Hs. by rewrite read_chars_escape, repaired_valid. Qed.

(** ** Values *)

(** A value at the start of [s], and what follows it; the elements of
    an array after its opening bracket; the members of an object after
    its opening brace.  Every call reads at least one character, so
    the length of the text is fuel enough. *)
Fixpoint read_value (fuel : nat) (s : string) : option (json * string) :=
  match fuel with
  | 0 => None
  | S fuel =>
    match s with
    | String "n" (String "u" (String "l" (String "l" rest))) => Some (JNull, rest)
    | String c rest =>
        if (byte_val c =? 34)%N then prod_map JString id <$> read_chars rest
        else if (byte_val c =? 91)%N then
          match rest with
          | String "]" rest' => Some (JArray [], rest')
          | _ => prod_map JArray id <$> read_elems fuel rest
          end
        else if (byte_val c =? 123)%N then
          match rest with
          | String "}" rest' => Some (JObject [], rest')
          | _ => prod_map JObject id <$> read_members fuel rest
          end
        else None
    | EmptyString => None
    end
  end
with read_elems (fuel : nat) (s : string) : option (list json * string) :=
  match fuel with
  | 0 => None
  | S fuel =>
    match read_value fuel s with
    | Some (j, String "," rest) => prod_map (cons j) id <$> read_elems fuel rest
    | Some (j, String "]" rest) => Some ([j], rest)
    | _ => None
    end
  end
with read_members (fuel : nat) (s : string) : option (list (string * json) * string) :=
  match fuel with
  | 0 => None
  | S fuel =>
    match s with
    | String q s1 =>
      if (byte_val q =? 34)%N then
        match read_chars s1 with
        | Some (k, String ":" s2) =>
            match read_value fuel s2 with
            | Some (v, String "," rest) =>
                prod_map (cons (k, v)) id <$> read_members fuel rest
            | Some (v, String "}" rest) => Some ([(k, v)], rest)
            | _ => None
            end
        | _ => None
        end
      else None
    | EmptyString => None
    end
  end.

(** The value that a whole text stands for. *)
Definition read (s : string) : option json :=
  match read_value (String.length s) s with
  | Some (j, EmptyString) => Some j
  | _ => None
  end.

(** A value with the strings in it repaired. *)
Fixpoint repair (j : json) : json :=
  match j with
  | JNull => JNull
  | JString s => JString (repaired s)
  | JArray elems => JArray (map repair elems)
  | JObject fields => JObject (map (λ kv, (repaired kv.1, repair kv.2)) fields)
  end.

(** The fuel that reading a value takes. *)
Fixpoint json_size (j : json) : nat :=
  match j with
  | JNull | JString _ => 1
  | JArray elems => 1 + length elems + sum_list (map json_size elems)
  | JObject fields => 1 + length fields + sum_list (map (λ kv, json_size kv.2) fields)
  end.

(** A text that starts like a value. *)
Definition starts_value (s : string) : Prop :=
  match s with
  | String c _ => c ∈ ["n"%char; dquote; "["%char; "{"%char]
  | EmptyString => False
  end.

(** *** The equations of the reader *)

Lemma read_value_null fuel rest : read_value (S fuel) ("null" +:+ rest) = Some (JNull, rest).
Proof. done. Qed.

Lemma read_value_string fuel x :
  read_value (S fuel) (String dquote x) = prod_map JString id <$> read_chars x.
Proof. done. Qed.

Lemma read_value_array_nil fuel rest :
  read_value (S fuel) ("[]" +:+ rest) = Some (JArray [], rest).
Proof. done. Qed.

Lemma read_value_object_nil fuel rest :
  read_value (S fuel) ("{}" +:+ rest) = Some (JObject [], rest).
Proof. done. Qed.

Lemma read_value_array fuel x :
  starts_value x →
  read_value (S fuel) (String "[" x) = prod_map JArray id <$> read_elems fuel x.
Proof.
  destruct x as [|c x]; [done|]. simpl. intros Hc.
  set_unfold. by destruct_or!; subst.
Qed.

Lemma read_value_object fuel x :
  read_value (S fuel) (String "{" (String dquote x))
  = prod_map JObject id <$> read_members fuel (String dquote x).
Proof. done. Qed.

Lemma read_elems_S fuel s :
  read_elems (S fuel) s =
  match read_value fuel s with
  | Some (j, String "," rest) => prod_map (cons j) id <$> read_elems fuel rest
  | Some (j, String "]" rest) => Some ([j], rest)
  | _ => None
  end.
Proof. done. Qed.

Lemma read_members_S fuel x :
  read_members (S fuel) (String dquote x) =
  match read_chars x with
  | Some (k, String ":" s2) =>
      match read_value fuel s2 with
      | Some (v, String "," rest) => prod_map (cons (k, v)) id <$> read_members fuel rest
      | Some (v, String "}" rest) => Some ([(k, v)], rest)
      | _ => None
      end
  | _ => None
  end.
Proof. done. Qed.

(** *** The shape of what the encoder writes *)

Lemma commas_cons x y (l : list string) :
  commas (x :: y :: l) = x +:+ String "," (commas (y :: l)).
Proof. done. Qed.

Lemma quoted_app s rest : quoted s +:+ rest = String dquote (escape s +:+ String dquote rest).
Proof. unfold quoted. str_norm. by rewrite <-(assoc _). Qed.

Lemma encode_array elems rest :
  encode (JArray elems) +:+ rest
  = String "[" (commas (map encode elems) +:+ String "]" rest).
Proof. simpl. str_norm. by rewrite <-(assoc _). Qed.

Lemma encode_object fields rest :
  encode (JObject fields) +:+ rest
  = String "{" (commas (map (λ kv, quoted kv.1 +:+ ":" +:+ encode kv.2) fields)
                +:+ String "}" rest).
Proof. simpl. str_norm. by rewrite <-(assoc _). Qed.

Lemma encode_starts j rest : starts_value (encode j +:+ rest).
Proof.
  destruct j; rewrite ?encode_array, ?encode_object; simpl; rewrite ?quoted_app;
    str_norm; simpl; set_solver.
Qed.

Lemma commas_starts j elems rest :
  starts_value (commas (map encode (j :: elems)) +:+ rest).
Proof.
  destruct elems; simpl map; [apply encode_starts|].
  rewrite commas_cons, <-(assoc _). apply encode_starts.
Qed.

(** *** Reading what the encoder writes *)

(** What the round trip says of one value: with fuel for the value,
    the encoded value in front of any text is read back as the
    repaired value, and the text is left. *)
Definition reads_back (j : json) : Prop :=
  ∀ fuel rest, json_size j ≤ fuel →
    read_value fuel (encode j +:+ rest) = Some (repair j, rest).

Lemma read_elems_encode elems fuel rest :
  elems ≠ [] → Forall reads_back elems →
  length elems + sum_list (map json_size elems) ≤ fuel →
  read_elems fuel (commas (map encode elems) +:+ String "]" rest)
  = Some (map repair elems, rest).
Proof.
  intros Hne Hall. revert fuel. induction Hall as [|j elems Hj _ IH]; [done|].
  intros [|fuel] Hfuel; [simpl in Hfuel; lia|]. simpl in Hfuel.
  rewrite read_elems_S. destruct elems as [|j' elems].
  - simpl map. simpl commas. by rewrite Hj by lia.
  - cbn [map]. rewrite commas_cons, <-(assoc _), string_app_cons, Hj by lia.
    rewrite IH by (done || simpl in *; lia). done.
Qed.

Lemma read_members_encode fields fuel rest :
  fields ≠ [] → Forall (λ kv, reads_back kv.2) fields →
  length fields + sum_list (map (λ kv, json_size kv.2) fields) ≤ fuel →
  read_members fuel
    (commas (map (λ kv, quoted kv.1 +:+ ":" +:+ encode kv.2) fields) +:+ String "}" rest)
  = Some (map (λ kv, (repaired kv.1, repair kv.2)) fields, rest).
Proof.
  intros Hne Hall. revert fuel. induction Hall as [|[k v] fields Hv _ IH]; [done|].
  intros [|fuel] Hfuel; [simpl in Hfuel; lia|]. simpl in Hfuel, Hv.
  destruct fields as [|kv fields]; cbn [map fst snd].
  - simpl commas. rewrite <-!(assoc _), quoted_app, read_members_S, read_chars_escape.
    str_norm. by rewrite Hv by lia.
  - rewrite commas_cons, <-!(assoc _), quoted_app, read_members_S, read_chars_escape.
    str_norm. rewrite Hv by lia.
    rewrite IH by (done || simpl in *; lia). done.
Qed.

(** Every value is read back. *)
Lemma read_value_encode j : reads_back j.
Proof.
  induction j as [|s|elems IH|fields IH] using json_ind';
    intros [|fuel] rest Hfuel; try (simpl in Hfuel; lia).
  - apply read_value_null.
  - simpl encode. by rewrite quoted_app, read_value_string, read_chars_escape.
  - rewrite encode_array. destruct elems as [|j elems]; [done|].
    rewrite read_value_array by apply commas_starts.
    rewrite read_elems_encode; [done..|]. simpl in *. lia.
  - rewrite encode_object. destruct fields as [|[k v] fields]; [done|].
    assert (∃ x, commas (map (λ kv, quoted kv.1 +:+ ":" +:+ encode kv.2) ((k, v) :: fields))
                 +:+ String "}" rest = String dquote x) as [x Hx].
    { destruct fields; cbn [map fst snd]; [simpl commas|rewrite commas_cons];
        eexists; by rewrite <-!(assoc _), quoted_app. }
    rewrite Hx, read_value_object, <-Hx.
    rewrite read_members_encode; [done..|]. simpl in *. lia.
Qed.

(** *** Fuel *)

Lemma commas_length (xs : list string) (ns : list nat) :
  Forall2 (λ x n, n ≤ String.length x) xs ns →
  length xs + sum_list ns ≤ String.length (commas xs) + 1.
Proof.
  induction 1 as [|x n xs ns Hx Hxs IH]; [simpl; lia|].
  destruct Hxs as [|x' n' xs ns]; [simpl in *; lia|].
  rewrite commas_cons, length_string_app. simpl in *. lia.
Qed.

(** A text is at least as long as the fuel that reading it takes. *)
Lemma json_size_length j : json_size j ≤ String.length (encode j).
Proof.
  induction j as [|s|elems IH|fields IH] using json_ind'; simpl.
  - lia.
  - unfold quoted. simpl. lia.
  - rewrite !length_string_app. simpl.
    pose proof (commas_length (map encode elems) (map json_size elems)) as Hlen.
    rewrite !length_map in Hlen. destruct elems as [|j elems]; [simpl; lia|].
    cut (length (j :: elems) + sum_list (map json_size (j :: elems))
         ≤ String.length (commas (map encode (j :: elems))) + 1); [lia|].
    apply Hlen. clear Hlen. induction IH; constructor; auto.
  - rewrite !length_string_app. simpl.
    pose proof (commas_length (map (λ kv, quoted kv.1 +:+ ":" +:+ encode kv.2) fields)
                  (map (λ kv, json_size kv.2) fields)) as Hlen.
    rewrite !length_map in Hlen. destruct fields as [|kv fields]; [simpl; lia|].
    cut (length (kv :: fields) + sum_list (map (λ kv, json_size kv.2) (kv :: fields))
         ≤ String.length
             (commas (map (λ kv, quoted kv.1 +:+ ":" +:+ encode kv.2) (kv :: fields))) + 1);
      [lia|].
    apply Hlen. clear Hlen. induction IH; constructor; auto.
    rewrite !length_string_app. lia.
Qed.

(** The text of a value is read back as the value, with its strings
    repaired. *)
Lemma read_encode j : read (encode j) = Some (repair j).
Proof.
  unfold read. rewrite <-(right_id "" String.append (encode j)) at 2.
  by rewrite read_value_encode by apply json_size_length.
Qed.
