(* ===== verification/AffinityRead.v ===== *)
(** * AffinityRead: the node affinity that a text stands for

    [json.Marshal] writes a node affinity through the field tags of
    four structs.  This file reads the structure back from the JSON
    value ([read_VolumeNodeAffinity]) and from the text ([decode]), and
    proves what the text keeps of the structure: everything except the
    difference between a nil and an empty slice in the fields tagged
    [omitempty], and except bytes that are not valid UTF-8
    ([decode_marshal]).  [canon] and [repair_affinity] are the two
    normal forms and [clean] is their composition; structures with the
    same cleaned form are equivalent ([affinity_equiv]), the text
    depends on a structure only up to that equivalence, and on a
    structure in normal form the round trip is exact
    ([decode_marshal_clean]). *)

From S2P Require Import Prelude Quantity CoreV1 Utf8 Json JsonRead.

(** ** Reading a structure from a value *)

(** The value of the first member with key [k]. *)
Fixpoint member (k : string) (fields : list (string * json)) : option json :=
  match fields with
  | [] => None
  | (k', v) :: fields => if decide (k' = k) then Some v else member k fields
  end.

Definition as_string (j : json) : option string :=
  if j is JString s then Some s else None.

Definition read_list {A} (rd : json → option A) (j : json) : option (list A) :=
  if j is JArray elems then mapM rd elems else None.

(** A slice-valued field with [omitempty]: a missing member is the nil
    slice. *)
Definition read_omitempty {A} (rd : json → option A) (k : string)
    (fields : list (string * json)) : option (option (list A)) :=
  match member k fields with
  | None => Some None
  | Some j => Some <$> read_list rd j
  end.

(** A slice-valued field that is always written: [null] is the nil
    slice. *)
Definition read_slice {A} (rd : json → option A) (k : string)
    (fields : list (string * json)) : option (option (list A)) :=
  match member k fields with
  | None => None
  | Some JNull => Some None
  | Some j => Some <$> read_list rd j
  end.

Definition read_NodeSelectorRequirement (j : json) : option NodeSelectorRequirement.t :=
  match j with
  | JObject fields =>
      key ← member "key" fields ≫= as_string;
      operator ← member "operator" fields ≫= as_string;
      values ← read_omitempty as_string "values" fields;
      Some {| NodeSelectorRequirement.Key := key;
              NodeSelectorRequirement.Operator := operator;
              NodeSelectorRequirement.Values := values |}
  | _ => None
  end.

Definition read_NodeSelectorTerm (j : json) : option NodeSelectorTerm.t :=
  match j with
  | JObject fields =>
      expressions ← read_omitempty read_NodeSelectorRequirement "matchExpressions" fields;
      fields' ← read_omitempty read_NodeSelectorRequirement "matchFields" fields;
      Some {| NodeSelectorTerm.MatchExpressions := expressions;
              NodeSelectorTerm.MatchFields := fields' |}
  | _ => None
  end.

Definition read_NodeSelector (j : json) : option NodeSelector.t :=
  match j with
  | JObject fields =>
      terms ← read_slice read_NodeSelectorTerm "nodeSelectorTerms" fields;
      Some {| NodeSelector.NodeSelectorTerms := terms |}
  | _ => None
  end.

Definition read_VolumeNodeAffinity (j : json) : option VolumeNodeAffinity.t :=
  match j with
  | JObject fields =>
      required ← match member "required" fields with
                 | None => Some None
                 | Some j => Some <$> read_NodeSelector j
                 end;
      Some {| VolumeNodeAffinity.Required := required |}
  | _ => None
  end.

(** The node affinity that a text stands for. *)
Definition decode (text : string) : option VolumeNodeAffinity.t :=
  read text ≫= read_VolumeNodeAffinity.

(** ** Normal forms *)

(** What [omitempty] keeps of a slice: an empty slice becomes nil. *)
Definition nonempty {A} (s : option (list A)) : option (list A) :=
  match s with
  | Some [] => None
  | _ => s
  end.

(** A structure as a function of its strings and of its [omitempty]
    slices: [on_string] is applied to every string and [on_slice] to
    every slice that is tagged [omitempty]. *)
Section normal.
Context (on_string : string → string).
Context (on_slice : ∀ A, option (list A) → option (list A)).

Definition norm_requirement (r : NodeSelectorRequirement.t) : NodeSelectorRequirement.t :=
  {| NodeSelectorRequirement.Key := on_string (NodeSelectorRequirement.Key r);
     NodeSelectorRequirement.Operator := on_string (NodeSelectorRequirement.Operator r);
     NodeSelectorRequirement.Values :=
       on_slice _ (fmap (M:=list) on_string <$> NodeSelectorRequirement.Values r) |}.

Definition norm_term (t : NodeSelectorTerm.t) : NodeSelectorTerm.t :=
  {| NodeSelectorTerm.MatchExpressions :=
       on_slice _ (fmap (M:=list) norm_requirement <$> NodeSelectorTerm.MatchExpressions t);
     NodeSelectorTerm.MatchFields :=
       on_slice _ (fmap (M:=list) norm_requirement <$> NodeSelectorTerm.MatchFields t) |}.

Definition norm_selector (s : NodeSelector.t) : NodeSelector.t :=
  {| NodeSelector.NodeSelectorTerms :=
       fmap (M:=list) norm_term <$> NodeSelector.NodeSelectorTerms s |}.

Definition norm (a : VolumeNodeAffinity.t) : VolumeNodeAffinity.t :=
  {| VolumeNodeAffinity.Required := norm_selector <$> VolumeNodeAffinity.Required a |}.

End normal.

(** Empty slices tagged [omitempty] become nil. *)
Definition canon : VolumeNodeAffinity.t → VolumeNodeAffinity.t := norm id (@nonempty).

(** Every string is repaired. *)
Definition repair_affinity : VolumeNodeAffinity.t → VolumeNodeAffinity.t :=
  norm repaired (λ _, id).

(** What the text keeps of a node affinity. *)
Definition clean : VolumeNodeAffinity.t → VolumeNodeAffinity.t :=
  norm repaired (@nonempty).

(** ** Lists of values *)

Lemma mapM_fmap_Some {A B} (rd : B → option A) (enc : A → B) (f : A → A) l :
  (∀ x, rd (enc x) = Some (f x)) → mapM rd (enc <$> l) = Some (f <$> l).
Proof.
  intros H. apply mapM_Some. rewrite Forall2_fmap_l, Forall2_fmap_r.
  apply Forall_Forall2_diag, Forall_true; auto.
Qed.

Lemma read_list_array {A} (rd : json → option A) (enc : A → json) (f : A → A) l :
  (∀ x, rd (enc x) = Some (f x)) → read_list rd (JArray (enc <$> l)) = Some (f <$> l).
Proof. apply mapM_fmap_Some. Qed.

Lemma repair_array {A} (enc : A → json) (f : A → A) l :
  (∀ x, repair (enc x) = enc (f x)) →
  repair (JArray (enc <$> l)) = JArray (enc <$> (f <$> l)).
Proof.
  intros H. simpl. f_equal.
  induction l as [|x l IH]; [done|]. simpl. f_equal; [apply H|apply IH].
Qed.

(** ** Repair commutes with the field tags *)

Local Abbreviation repair_fields := (map (λ kv : string * json, (repaired kv.1, repair kv.2))).

Lemma repair_omitempty_slice {A} k (enc : A → json) (f : A → A) s :
  repaired k = k → (∀ x, repair (enc x) = enc (f x)) →
  repair_fields (omitempty_slice k enc s) = omitempty_slice k enc (fmap (M:=list) f <$> s).
Proof.
  intros Hk H. destruct s as [[|x l]|]; [done| |done].
  pose proof (repair_array enc f (x :: l) H) as Harray.
  simpl in *. by rewrite Hk, Harray.
Qed.

Lemma repair_slice_value {A} (enc : A → json) (f : A → A) s :
  (∀ x, repair (enc x) = enc (f x)) →
  repair (slice_value enc s) = slice_value enc (fmap (M:=list) f <$> s).
Proof. intros H. destruct s; [by apply repair_array|done]. Qed.

Lemma repair_omitempty_ptr {A} k (enc : A → json) (f : A → A) p :
  repaired k = k → (∀ x, repair (enc x) = enc (f x)) →
  repair_fields (omitempty_ptr k enc p) = omitempty_ptr k enc (f <$> p).
Proof. intros Hk H. destruct p; [|done]. simpl. by rewrite Hk, H. Qed.

Lemma repair_object fields : repair (JObject fields) = JObject (repair_fields fields).
Proof. done. Qed.

Lemma repair_requirement r :
  repair (marshal_NodeSelectorRequirement r)
  = marshal_NodeSelectorRequirement (norm_requirement repaired (λ _, id) r).
Proof.
  unfold marshal_NodeSelectorRequirement. rewrite repair_object, !map_app.
  by rewrite (repair_omitempty_slice _ _ repaired).
Qed.

Lemma repair_term t :
  repair (marshal_NodeSelectorTerm t)
  = marshal_NodeSelectorTerm (norm_term repaired (λ _, id) t).
Proof.
  unfold marshal_NodeSelectorTerm. rewrite repair_object, !map_app.
  by rewrite !(repair_omitempty_slice _ _ _ _ eq_refl repair_requirement).
Qed.

Lemma repair_selector s :
  repair (marshal_NodeSelector s)
  = marshal_NodeSelector (norm_selector repaired (λ _, id) s).
Proof.
  unfold marshal_NodeSelector. rewrite repair_object. simpl.
  by rewrite (repair_slice_value _ _ _ repair_term).
Qed.

Lemma repair_marshal a :
  repair (marshal_VolumeNodeAffinity a) = marshal_VolumeNodeAffinity (repair_affinity a).
Proof.
  unfold marshal_VolumeNodeAffinity. rewrite repair_object.
  by rewrite (repair_omitempty_ptr _ _ _ _ eq_refl repair_selector).
Qed.

(** ** Reading what the field tags wrote *)

Lemma as_string_JString s : as_string (JString s) = Some (id s).
Proof. done. Qed.

(** An [omitempty] slice at the end of an object that does not have
    its key before it. *)
Lemma read_omitempty_slice {A} (rd : json → option A) (enc : A → json) (f : A → A)
    k before s after :
  (∀ x, rd (enc x) = Some (f x)) →
  member k before = None →
  (∀ j, member k (after ++ j) = member k j) →
  read_omitempty rd k (before ++ omitempty_slice k enc s ++ after)
  = Some (nonempty (fmap (M:=list) f <$> s)).
Proof.
  intros H Hbefore Hafter. unfold read_omitempty.
  assert (Hskip : ∀ fields, member k (before ++ fields) = member k fields).
  { intros fields. induction before as [|[k' v] before IH]; [done|].
    simpl in *. destruct (decide (k' = k)); [done|auto]. }
  rewrite Hskip. destruct s as [[|x l]|]; simpl.
  - by rewrite <-(app_nil_r after), Hafter.
  - rewrite decide_True by done.
    pose proof (mapM_fmap_Some rd enc f (x :: l) H) as HmapM.
    simpl in *. by rewrite HmapM.
  - by rewrite <-(app_nil_r after), Hafter.
Qed.

Lemma read_slice_value {A} (rd : json → option A) (enc : A → json) (f : A → A) k s :
  (∀ x, rd (enc x) = Some (f x)) →
  read_slice rd k (field k (slice_value enc s)) = Some (fmap (M:=list) f <$> s).
Proof.
  intros H. unfold read_slice, field, member. rewrite decide_True by done.
  destruct s as [l|]; [|done].
  pose proof (mapM_fmap_Some rd enc f l H) as HmapM. simpl in *. by rewrite HmapM.
Qed.

Lemma read_omitempty_ptr {A} (rd : json → option A) (enc : A → json) (f : A → A) k p :
  (∀ x, rd (enc x) = Some (f x)) →
  match member k (omitempty_ptr k enc p) with
  | None => Some None
  | Some j => Some <$> rd j
  end = Some (f <$> p).
Proof.
  intros H. destruct p; [|done]. unfold omitempty_ptr, member.
  rewrite decide_True by done. by rewrite H.
Qed.

Lemma read_requirement r :
  read_NodeSelectorRequirement (marshal_NodeSelectorRequirement r)
  = Some (norm_requirement id (@nonempty) r).
Proof.
  unfold marshal_NodeSelectorRequirement, read_NodeSelectorRequirement, field.
  rewrite (app_assoc [_] [_]), <-(app_nil_r (omitempty_slice _ _ _)).
  by rewrite (read_omitempty_slice _ _ id _ _ _ [] as_string_JString).
Qed.

Lemma read_term t :
  read_NodeSelectorTerm (marshal_NodeSelectorTerm t) = Some (norm_term id (@nonempty) t).
Proof.
  unfold marshal_NodeSelectorTerm, read_NodeSelectorTerm.
  rewrite <-(app_nil_l (omitempty_slice "matchExpressions" _ _ ++ _)).
  assert (Hafter : ∀ s j,
    member "matchExpressions"
      (omitempty_slice "matchFields" marshal_NodeSelectorRequirement s ++ j)
    = member "matchExpressions" j) by by intros [[]|].
  rewrite (read_omitempty_slice _ _ _ "matchExpressions" [] _ _
             read_requirement eq_refl (Hafter _)).
  rewrite <-(app_nil_r (omitempty_slice "matchFields" _ _)), app_nil_l.
  assert (Hbefore : ∀ s,
    member "matchFields"
      (omitempty_slice "matchExpressions" marshal_NodeSelectorRequirement s) = None)
    by by intros [[]|].
  by rewrite (read_omitempty_slice _ _ _ _ _ _ [] read_requirement (Hbefore _)).
Qed.

Lemma read_selector s :
  read_NodeSelector (marshal_NodeSelector s) = Some (norm_selector id (@nonempty) s).
Proof.
  unfold marshal_NodeSelector, read_NodeSelector.
  by rewrite (read_slice_value _ _ _ _ _ read_term).
Qed.

Lemma read_marshal a : read_VolumeNodeAffinity (marshal_VolumeNodeAffinity a) = Some (canon a).
Proof.
  unfold marshal_VolumeNodeAffinity, read_VolumeNodeAffinity.
  by rewrite (read_omitempty_ptr _ _ _ _ _ read_selector).
Qed.

(** ** The text *)

Lemma norm_compose f g on_slice a :
  norm f on_slice (norm g (λ _, id) a) = norm (f ∘ g) on_slice a.
Proof.
  assert (Hr : ∀ r, norm_requirement f on_slice (norm_requirement g (λ _, id) r)
                    = norm_requirement (f ∘ g) on_slice r).
  { intros [k o vs]. unfold norm_requirement. simpl. do 2 f_equal.
    destruct vs; simpl; [|done]. by rewrite <-list_fmap_compose. }
  assert (Hrs : ∀ l : option (list NodeSelectorRequirement.t),
    fmap (M:=list) (norm_requirement f on_slice)
      <$> (fmap (M:=list) (norm_requirement g (λ _, id)) <$> l)
    = fmap (M:=list) (norm_requirement (f ∘ g) on_slice) <$> l).
  { intros [l|]; simpl; [|done]. rewrite <-list_fmap_compose. f_equal.
    apply list_fmap_ext; intros; apply Hr. }
  assert (Ht : ∀ t, norm_term f on_slice (norm_term g (λ _, id) t)
                    = norm_term (f ∘ g) on_slice t).
  { intros [es fs]. unfold norm_term. simpl. by rewrite !Hrs. }
  destruct a as [[[[l|]]|]]; [|done..]. unfold norm, norm_selector. simpl.
  do 4 f_equal. rewrite <-list_fmap_compose. apply list_fmap_ext; intros; apply Ht.
Qed.

Lemma clean_canon_repair a : canon (repair_affinity a) = clean a.
Proof. apply norm_compose. Qed.

(** The text of a node affinity stands for the cleaned affinity. *)
Lemma decode_marshal a : decode (encode (marshal_VolumeNodeAffinity a)) = Some (clean a).
Proof.
  unfold decode. rewrite read_encode. cbn [mbind option_bind].
  by rewrite repair_marshal, read_marshal, clean_canon_repair.
Qed.

(** ** The cleaned structure is a normal form *)

Lemma nonempty_fmap_nonempty {A B} (f : A → B) (s : option (list A)) :
  nonempty (fmap (M:=list) f <$> nonempty s) = nonempty (fmap (M:=list) f <$> s).
Proof. by destruct s as [[|x l]|]. Qed.

Section norm_nonempty.
Context (f g : string → string).

Lemma norm_requirement_nonempty r :
  norm_requirement f (@nonempty) (norm_requirement g (@nonempty) r)
  = norm_requirement (f ∘ g) (@nonempty) r.
Proof.
  destruct r as [k o vs]. unfold norm_requirement. simpl. f_equal.
  rewrite nonempty_fmap_nonempty. by destruct vs as [l|]; simpl; rewrite <-?list_fmap_compose.
Qed.

Lemma norm_requirements_nonempty (s : option (list NodeSelectorRequirement.t)) :
  nonempty (fmap (M:=list) (norm_requirement f (@nonempty))
              <$> nonempty (fmap (M:=list) (norm_requirement g (@nonempty)) <$> s))
  = nonempty (fmap (M:=list) (norm_requirement (f ∘ g) (@nonempty)) <$> s).
Proof.
  rewrite nonempty_fmap_nonempty. destruct s as [l|]; simpl; [|done].
  rewrite <-list_fmap_compose.
  by rewrite (list_fmap_ext _ (norm_requirement (f ∘ g) (@nonempty)) l)
    by (intros; apply norm_requirement_nonempty).
Qed.

Lemma norm_nonempty a :
  norm f (@nonempty) (norm g (@nonempty) a) = norm (f ∘ g) (@nonempty) a.
Proof.
  destruct a as [[[terms]|]]; [|done]. unfold norm, norm_selector. simpl. do 3 f_equal.
  destruct terms as [l|]; simpl; [|done]. rewrite <-list_fmap_compose. f_equal.
  apply list_fmap_ext. intros _ [es fs] _. unfold norm_term. simpl.
  by rewrite !norm_requirements_nonempty.
Qed.

End norm_nonempty.

(** The normal form depends on the function on strings only through
    its values. *)
Lemma norm_ext f g on_slice a : (∀ s, f s = g s) → norm f on_slice a = norm g on_slice a.
Proof.
  intros Hfg.
  assert (Hr : ∀ r, norm_requirement f on_slice r = norm_requirement g on_slice r).
  { intros [k o vs]. unfold norm_requirement. simpl. rewrite !Hfg. do 2 f_equal.
    destruct vs as [l|]; simpl; [|done]. f_equal. by apply list_fmap_ext. }
  assert (Hrs : ∀ s : option (list NodeSelectorRequirement.t),
    fmap (M:=list) (norm_requirement f on_slice) <$> s
    = fmap (M:=list) (norm_requirement g on_slice) <$> s).
  { intros [l|]; simpl; [|done]. f_equal. by apply list_fmap_ext. }
  destruct a as [[[terms]|]]; [|done]. unfold norm, norm_selector. simpl. do 3 f_equal.
  destruct terms as [l|]; simpl; [|done]. f_equal.
  apply list_fmap_ext. intros _ [es fs] _. unfold norm_term. simpl. by rewrite !Hrs.
Qed.

(** Cleaning twice is cleaning once. *)
Lemma clean_idemp a : clean (clean a) = clean a.
Proof. unfold clean. rewrite norm_nonempty. apply norm_ext, repaired_idemp. Qed.

(** ** Structures with the same meaning

    Two structures are equivalent when they differ only in what the
    text does not keep. *)

#[export] Instance affinity_equiv : Equiv VolumeNodeAffinity.t := λ a b, clean a = clean b.

#[export] Instance affinity_equivalence : Equivalence (≡@{VolumeNodeAffinity.t}).
Proof.
  unfold equiv, affinity_equiv. split; [by intros a|by intros a b|].
  intros a b c. apply eq_trans.
Qed.

#[export] Instance clean_proper : Proper ((≡) ==> (=)) clean.
Proof. by intros a b. Qed.

Lemma clean_equiv a : clean a ≡ a.
Proof. apply clean_idemp. Qed.

(** What a text stands for depends on the structure only up to
    equivalence. *)
#[export] Instance decode_marshal_proper :
  Proper ((≡) ==> (=)) (λ a, decode (encode (marshal_VolumeNodeAffinity a))).
Proof. intros a b Hab. by rewrite !decode_marshal, Hab. Qed.

(** On a structure in normal form the round trip is exact. *)
Lemma decode_marshal_clean a :
  clean a = a → decode (encode (marshal_VolumeNodeAffinity a)) = Some a.
Proof. intros Ha. by rewrite decode_marshal, Ha. Qed.
