(* ===== verification/KubeClient.v ===== *)
(** * KubeClient: the lister that the adapters consume

    The adapters hold a [kubernetes.Interface] and call it in one way
    each: [CoreV1().PersistentVolumes().List(opts)] and
    [CoreV1().PersistentVolumeClaims(namespace).List(opts)].  The class
    [Interface] states those two calls; a call answers with Go's pair of
    a nilable list pointer and a nilable error.  [WellBehaved] is the
    contract that the typed clients keep and the adapters rely on: a nil
    error comes with a list.  [FakeClient] is a client over a fixed
    snapshot of the cluster, used to run the adapters on concrete
    objects. *)

From S2P Require Import Prelude Quantity CoreV1.

(** [metav1.ListOptions], the selectors of a list call. *)
Module ListOptions.
Record t : Type := mk {
  LabelSelector : string;
  FieldSelector : string;
  Limit : Z;
}.
(** [metav1.ListOptions{}]. *)
Definition zero : t := {| LabelSelector := ""; FieldSelector := ""; Limit := 0%Z |}.
End ListOptions.

(** [metrics.Interface]: a handle on a metrics clientset.  The adapters
    declare a field of this type and never set it. *)
Inductive MetricsInterface : Type :=
| MetricsClientset (host : string).

(** [metav1.NamespaceAll]. *)
Definition NamespaceAll : string := "".

(** What a list call answers: [(result, err)]. *)
Abbreviation ListResult L := (option L * option error)%type.

Class Interface (C : Type) : Type := {
  PersistentVolumes_List :
    C → ListOptions.t → ListResult PersistentVolumeList.t;
  PersistentVolumeClaims_List :
    C → string → ListOptions.t → ListResult PersistentVolumeClaimList.t;
}.

(** An answer that keeps the clients' contract. *)
Definition well_formed {L} (r : ListResult L) : Prop :=
  r.2 = None → is_Some r.1.

#[global] Instance well_formed_dec {L} (r : ListResult L) : Decision (well_formed r).
Proof. unfold well_formed. apply _. Defined.

Class WellBehaved (C : Type) `{Interface C} : Prop := {
  PersistentVolumes_List_wf c opts :
    well_formed (PersistentVolumes_List c opts);
  PersistentVolumeClaims_List_wf c ns opts :
    well_formed (PersistentVolumeClaims_List c ns opts);
}.

(** ** A client over a snapshot *)

Module FakeClient.

Record t : Type := mk {
  volumes : list PersistentVolume.t;
  claims : list PersistentVolumeClaim.t;
  (** when set, every call fails with this error *)
  fault : option error;
}.

(** Whether an object of namespace [ns] is listed under scope [scope]. *)
Definition in_scope (scope ns : string) : bool :=
  bool_decide (scope = NamespaceAll ∨ scope = ns).

Definition claims_in (scope : string) (c : t) : list PersistentVolumeClaim.t :=
  filter (λ pvc, in_scope scope (ObjectMeta.Namespace (PersistentVolumeClaim.ObjectMeta pvc)))
         (claims c).

Definition list_volumes (c : t) (opts : ListOptions.t) : ListResult PersistentVolumeList.t :=
  match fault c with
  | Some e => (None, Some e)
  | None => (Some {| PersistentVolumeList.Items := volumes c |}, None)
  end.

Definition list_claims (c : t) (scope : string) (opts : ListOptions.t)
    : ListResult PersistentVolumeClaimList.t :=
  match fault c with
  | Some e => (None, Some e)
  | None => (Some {| PersistentVolumeClaimList.Items := claims_in scope c |}, None)
  end.

#[global] Instance interface : Interface t := {
  PersistentVolumes_List := list_volumes;
  PersistentVolumeClaims_List := list_claims;
}.

#[global] Instance well_behaved : WellBehaved t.
Proof.
  split; intros c **; unfold well_formed; simpl;
    unfold list_volumes, list_claims; by destruct (fault c).
Qed.

Lemma claims_in_all c : claims_in NamespaceAll c = claims c.
Proof.
  unfold claims_in. induction (claims c) as [|pvc l IH]; [done|].
  rewrite filter_cons_True; [by f_equal|].
  unfold in_scope. apply bool_decide_pack. by left.
Qed.

End FakeClient.

(** A client that breaks the contract: no list and no error. *)
Module NilClient.
Inductive t : Type := mk.
#[global] Instance interface : Interface t := {
  PersistentVolumes_List _ _ := (None, None);
  PersistentVolumeClaims_List _ _ _ := (None, None);
}.
End NilClient.
