(* ===== verification/OsqueryTable.v ===== *)
(** * OsqueryTable: what the adapters exchange with the query engine

    The types of [osquery-go]'s [plugin/table] that the adapters use
    (a column definition, the constructor [TextColumn], the query
    context that carries the predicates of a query) and the contract
    that every table of the program offers: [Name], [Columns],
    [Generate].  The class [Table] states the contract and [TableLaws]
    the properties that a table owes to the engine; the adapters are
    proved to have them in [TableContract].  The lemmas and tactics on
    rows and schemas that both adapters use are here as well. *)

From S2P Require Import Prelude.

Inductive ColumnType : Type :=
| ColumnTypeText | ColumnTypeInteger | ColumnTypeBigInt | ColumnTypeDouble.

#[global] Instance ColumnType_eq_dec : EqDecision ColumnType.
Proof. solve_decision. Defined.

Module ColumnDefinition.
Record t : Type := mk {
  Name : string;
  Type_ : ColumnType;
}.
#[global] Instance t_eq_dec : EqDecision t.
Proof. solve_decision. Defined.
End ColumnDefinition.

(** [table.TextColumn(name)]. *)
Definition TextColumn (name : string) : ColumnDefinition.t :=
  {| ColumnDefinition.Name := name; ColumnDefinition.Type_ := ColumnTypeText |}.

(** One predicate of a query on a column. *)
Module Constraint.
Record t : Type := mk {
  Operator : nat;
  Expression : string;
}.
End Constraint.

Module ConstraintList.
Record t : Type := mk {
  Affinity : ColumnType;
  Constraints : list Constraint.t;
}.
End ConstraintList.

(** [table.QueryContext]: the predicates of the query, by column. *)
Module QueryContext.
Record t : Type := mk {
  Constraints : gmap string ConstraintList.t;
}.
Definition empty : t := {| Constraints := ∅ |}.
End QueryContext.

(** [context.Context], as far as a callee can observe it. *)
Module Context.
Record t : Type := mk {
  Deadline : option N;
  Cancelled : bool;
}.
Definition Background : t := {| Deadline := None; Cancelled := false |}.
End Context.

(** A row: column name to text. *)
Abbreviation Row := (gmap string string).

(** What [Generate] returns: [([]map[string]string, error)].  The slice
    and each of its maps may be nil. *)
Abbreviation Rows := (option (list (option Row))).
Abbreviation GenerateResult := (Rows * option error)%type.

(** A conditional assignment [if present { row[k] = v }]: the shape of
    every optional column. *)
Definition insert_opt (k : string) (o : option string) (row : Row) : Row :=
  match o with
  | Some v => <[k:=v]> row
  | None => row
  end.

(** The column names of a schema. *)
Definition column_names (cols : list ColumnDefinition.t) : list string :=
  ColumnDefinition.Name <$> cols.

(** A row whose keys are all columns of the schema. *)
Definition row_in_schema (cols : list ColumnDefinition.t) (row : Row) : Prop :=
  dom row ⊆ list_to_set (column_names cols).

(** A result of [Generate] that the engine accepts: an error and no
    rows, or no error and a slice of non-nil maps within the schema. *)
Definition result_ok (cols : list ColumnDefinition.t) (r : GenerateResult) : Prop :=
  match r with
  | (None, Some _) => True
  | (Some rows, None) => Forall (λ slot, ∃ row, slot = Some row ∧ row_in_schema cols row) rows
  | _ => False
  end.

Module Table.

Class t (T : Type) : Type := {
  Name : T → string;
  Columns : T → list ColumnDefinition.t;
  Generate : T → Context.t → QueryContext.t → Go GenerateResult;
}.

End Table.

(** What a table owes to the engine, for the tables that satisfy
    [built] (those that the constructor returns). *)
Class TableLaws (T : Type) `{Table.t T} (built : T → Prop) : Prop := {
  (** the schema has no column twice, and only text columns *)
  columns_NoDup tbl : built tbl → NoDup (column_names (Table.Columns tbl));
  columns_text tbl :
    built tbl →
    Forall (λ c, ColumnDefinition.Type_ c = ColumnTypeText) (Table.Columns tbl);
  (** a full scan: the predicates and the context change nothing *)
  generate_full_scan tbl ctx ctx' q q' :
    Table.Generate tbl ctx q = Table.Generate tbl ctx' q';
  (** no state between calls: the outcome does not depend on the log *)
  generate_stateless tbl ctx q log log' :
    (Table.Generate tbl ctx q log).1 = (Table.Generate tbl ctx q log').1;
  (** a run that ends normally ends in a result the engine accepts *)
  generate_result_ok tbl ctx q log r log' :
    built tbl →
    Table.Generate tbl ctx q log = (Done r, log') →
    result_ok (Table.Columns tbl) r;
  (** the log only grows *)
  generate_log_extends tbl ctx q : log_extends (Table.Generate tbl ctx q);
}.

Section schema.
Implicit Types (cols : list ColumnDefinition.t) (row : Row) (k v : string).

Lemma column_names_TextColumn (names : list string) :
  column_names (TextColumn <$> names) = names.
Proof. unfold column_names. rewrite <-list_fmap_compose. apply list_fmap_id. Qed.

Lemma TextColumn_all_text (names : list string) :
  Forall (λ c, ColumnDefinition.Type_ c = ColumnTypeText) (TextColumn <$> names).
Proof. by apply Forall_fmap, Forall_true. Qed.

Lemma row_in_schema_empty cols : row_in_schema cols ∅.
Proof. unfold row_in_schema. set_solver. Qed.

Lemma row_in_schema_insert cols row k v :
  k ∈ column_names cols → row_in_schema cols row → row_in_schema cols (<[k:=v]> row).
Proof. unfold row_in_schema. rewrite dom_insert_L. set_solver. Qed.

Lemma row_in_schema_lookup cols row k v :
  row_in_schema cols row → row !! k = Some v → k ∈ column_names cols.
Proof.
  unfold row_in_schema. intros Hsub Hk.
  apply (elem_of_list_to_set (C:=gset string)), Hsub, elem_of_dom. eauto.
Qed.

Lemma row_in_schema_singleton cols k v :
  k ∈ column_names cols → row_in_schema cols {[ k := v ]}.
Proof. unfold row_in_schema. rewrite dom_singleton_L. set_solver. Qed.

(** A key that is no column is in no row of the schema. *)
Lemma row_in_schema_None cols row k :
  row_in_schema cols row → k ∉ column_names cols → row !! k = None.
Proof.
  intros Hrow Hk. destruct (row !! k) as [v|] eqn:Hv; [|done].
  by apply row_in_schema_lookup with (cols:=cols) in Hv.
Qed.

(** Two rows of a schema are equal when they agree on its columns. *)
Lemma row_eq_in_schema cols row row' :
  row_in_schema cols row → row_in_schema cols row' →
  Forall (λ k, row !! k = row' !! k) (column_names cols) → row = row'.
Proof.
  intros Hrow Hrow' Hcols. apply map_eq. intros k.
  destruct (decide (k ∈ column_names cols)) as [Hk|Hk].
  - by apply (proj1 (Forall_forall _ _) Hcols).
  - by rewrite !(row_in_schema_None cols) by done.
Qed.

Lemma row_in_schema_insert_opt cols row k o :
  k ∈ column_names cols → row_in_schema cols row → row_in_schema cols (insert_opt k o row).
Proof. destruct o; simpl; auto using row_in_schema_insert. Qed.

End schema.

(** ** Conditional assignment *)

Section insert_opt.
Implicit Types (row : Row) (k j : string) (o : option string).

Lemma lookup_insert_opt_eq row k o : row !! k = None → insert_opt k o row !! k = o.
Proof. destruct o; simpl; [by rewrite lookup_insert_eq|done]. Qed.

Lemma lookup_insert_opt_ne row k j o : k ≠ j → insert_opt k o row !! j = row !! j.
Proof. destruct o; simpl; [apply lookup_insert_ne|done]. Qed.

Lemma insert_opt_commute row k j o o' :
  k ≠ j → insert_opt k o (insert_opt j o' row) = insert_opt j o' (insert_opt k o row).
Proof. intros. destruct o, o'; simpl; [by apply insert_insert_ne|done..]. Qed.

Lemma dom_insert_opt row k o :
  dom (insert_opt k o row) = (if o is Some _ then {[k]} else ∅) ∪ dom row.
Proof. destruct o; simpl; [apply dom_insert_L|set_solver]. Qed.

Lemma size_insert_opt_fresh row k o :
  row !! k = None → size (insert_opt k o row) = (if o is Some _ then 1 else 0) + size row.
Proof. destruct o; simpl; [apply map_size_insert_None|done]. Qed.

Lemma delete_insert_opt row k o : row !! k = None → delete k (insert_opt k o row) = row.
Proof. destruct o; simpl; [apply delete_insert_id|apply delete_id]. Qed.

End insert_opt.

#[export] Hint Resolve row_in_schema_empty row_in_schema_insert
  row_in_schema_insert_opt : go.

(** Evaluate a lookup in a row that is built from a literal by
    assignments and conditional assignments on distinct literal keys. *)
Ltac row_lookup :=
  repeat first
    [ rewrite lookup_insert_opt_ne by done
    | rewrite lookup_insert_opt_eq
    | rewrite lookup_insert_ne by done
    | rewrite lookup_insert_eq
    | rewrite lookup_singleton_eq
    | rewrite lookup_singleton_ne by done
    | rewrite lookup_empty ];
  try done.

(** Membership of a literal name in a literal list of names. *)
Ltac in_names := unfold column_names; simpl; set_solver.

(** A literal row is within a literal schema. *)
Ltac literal_in_schema :=
  repeat first
    [ apply row_in_schema_insert; [in_names|]
    | apply row_in_schema_singleton; in_names
    | apply row_in_schema_empty ].

(** Two closed rows of a schema are equal: compare them column by
    column, by evaluation.  [Hrow] proves that the left row is within
    the schema. *)
Ltac row_eq Hrow :=
  eapply row_eq_in_schema; [exact Hrow|literal_in_schema|];
  repeat constructor; by vm_compute.
