(* ===== verification/Projection.v ===== *)
(** * Projection: the shape that both adapters share

    Both [Generate] methods do the same three things: call the lister,
    give up with a log line when it fails, and otherwise fill a slice
    with one row per object.  [project_all] is that behaviour written as
    a case analysis on the lister's answer, with no loop, no slice and
    no index; each adapter's [Generate] is proved equal to an instance
    of it, and the facts that hold of every instance are proved here
    once. *)

From S2P Require Import Prelude Quantity CoreV1 KubeClient OsqueryTable.

Section projection.
Context {O L : Type}.
(** the objects of a list, the row of an object, the line logged on
    failure *)
Context (items : L → list O) (row : O → Row) (line : string).
Implicit Types (r : ListResult L) (l : L) (e : error) (log : Log).

(** One row per object, in the order of the list; every slot non-nil. *)
Definition project (l : L) : list (option Row) := (λ o, Some (row o)) <$> items l.

Definition project_all r : Go GenerateResult :=
  match r.2, r.1 with
  | Some e, _ => log_Println line;; mret (None, Some e)
  | None, Some l => mret (Some (project l), None)
  | None, None => panic nil_dereference
  end.

Lemma length_project l : length (project l) = length (items l).
Proof. apply length_fmap. Qed.

Lemma project_lookup l i :
  project l !! i = (λ o, Some (row o)) <$> items l !! i.
Proof. apply list_lookup_fmap. Qed.

Lemma project_all_error r e log :
  r.2 = Some e → project_all r log = (Done (None, Some e), log ++ [line]).
Proof. unfold project_all. by intros ->. Qed.

Lemma project_all_rows l log :
  project_all (Some l, None) log = (Done (Some (project l), None), log).
Proof. done. Qed.

Lemma project_all_nil log :
  project_all (None, None) log = (Panicked nil_dereference, log).
Proof. done. Qed.

(** Under the clients' contract the projection cannot panic. *)
Lemma project_all_never_panics r : well_formed r → never_panics (project_all r).
Proof.
  destruct r as [[l|] [e|]]; intros Hwf log; simpl; eauto.
  by destruct (Hwf eq_refl).
Qed.

(** What a normal end says about the answer of the lister. *)
Lemma project_all_done r log res log' :
  project_all r log = (Done res, log') →
  (∃ e, r.2 = Some e ∧ res = (None, Some e) ∧ log' = log ++ [line]) ∨
  (∃ l, r = (Some l, None) ∧ res = (Some (project l), None) ∧ log' = log).
Proof.
  destruct r as [[l|] [e|]]; simpl; intros [= <- <-]; eauto 10.
Qed.

(** Rows come with no error, an error with no rows: never both, never
    neither. *)
Lemma project_all_exclusive r log rows err log' :
  project_all r log = (Done (rows, err), log') → is_Some rows ↔ err = None.
Proof.
  intros [(e & _ & [= -> ->] & _)|(l & _ & [= -> ->] & _)]%project_all_done.
  - split; [by intros []|done].
  - split; eauto.
Qed.

Lemma project_all_log_extends r : log_extends (project_all r).
Proof.
  intros log. destruct r as [[l|] [e|]]; simpl; eauto; exists []; by rewrite app_nil_r.
Qed.

(** The outcome does not depend on what was logged before. *)
Lemma project_all_outcome r log log' : (project_all r log).1 = (project_all r log').1.
Proof. by destruct r as [[l|] [e|]]. Qed.

(** The schema invariant passes from the row builder to the result. *)
Lemma project_all_result_ok cols r log res log' :
  (∀ o, row_in_schema cols (row o)) →
  project_all r log = (Done res, log') → result_ok cols res.
Proof.
  intros Hrow [(e & _ & -> & _)|(l & _ & -> & _)]%project_all_done; simpl; [done|].
  apply Forall_fmap, Forall_true. intros o. simpl. eauto.
Qed.

End projection.

(** ** The loop computes the projection *)

Section fill.
Context {O : Type} (row : O → Row).

(** [make] followed by the indexed loop is a [map]. *)
Lemma fill_returns_project (objs : list O) :
  returns (range objs (λ i o rows, rows.[i] ::= Some (row o))%go
             (make_slice None (length objs)))
          (project id row objs).
Proof. apply (range_fill (λ o, Some (row o))). Qed.

(** The same when the row is computed by a call that returns it. *)
Lemma fill_go_returns_project (rowM : O → Go Row) (objs : list O) :
  (∀ o, returns (rowM o) (row o)) →
  returns (range objs (λ i o rows, r ← rowM o; rows.[i] ::= Some r)%go
             (make_slice None (length objs)))
          (project id row objs).
Proof.
  intros Hrow log. unfold range.
  rewrite (range_from_ext _ (λ i o rows, slice_set rows i (Some (row o)))).
  - apply (range_fill (λ o, Some (row o))).
  - intros i o st log'. by rewrite (go_bind_returns _ _ _ _ (Hrow o)).
Qed.

End fill.
