(* ===== verification/PersistentVolumeClaims.v ===== *)
(** * PersistentVolumeClaims: the table of persistent volume claims

    Module [PersistentVolumeClaimsTable] translates
    [src/tables/persistentvolumeclaims.go]: the struct, its constructor,
    [Name], [Columns] and [Generate].  The body of the loop of [Generate]
    is split the way the source is written: the map literal
    ([currRow_literal]) and one definition per [if] statement
    ([set_volumemode], [set_storageclass_name], [set_capacity],
    [set_requested]), composed in source order by [currRow].  The
    theorems give the behaviour of [Generate] on each answer of the
    lister, the content of a row column by column, the schema invariant
    and the absence of panics. *)

From S2P Require Import Prelude Quantity QuantityRead CoreV1 KubeClient OsqueryTable Projection.

Module PersistentVolumeClaimsTable.

(** The struct [PersistentVolumeClaimsTable]. *)
Record t (C : Type) : Type := mk {
  columns : list ColumnDefinition.t;
  name : string;
  client : C;
  metricsClient : option MetricsInterface;
}.
Arguments mk {C}.
Arguments columns {C}.
Arguments name {C}.
Arguments client {C}.
Arguments metricsClient {C}.

(** The column names, in the order of the constructor. *)
Definition column_list : list string :=
  ["name"; "status"; "storageclass_name"; "capacity"; "requested"; "volumename";
   "volumemode"].

Definition NewPersistentVolumeClaimsTable {C} (kubeclient : C) : t C :=
  let columns := [
    TextColumn "name";
    TextColumn "status";
    TextColumn "storageclass_name";
    TextColumn "capacity";
    TextColumn "requested";
    TextColumn "volumename";
    TextColumn "volumemode"
  ] in
  {| name := "kubernetes_persistentvolumeclaims";
     columns := columns;
     client := kubeclient;
     metricsClient := None |}.

Definition Name {C} (t : t C) : string := name t.

Definition Columns {C} (t : t C) : list ColumnDefinition.t := columns t.

(** The line logged when the lister fails. *)
Definition list_failed : string := "could not list pvcs from k8s api".

(** ** The body of the loop *)

(** [currRow := map[string]string{"name": ..., "status": ...,
    "volumename": ...}]. *)
Definition currRow_literal (pvc : PersistentVolumeClaim.t) : Row :=
  {[ "name" := ObjectMeta.Name (PersistentVolumeClaim.ObjectMeta pvc);
     "status" := PersistentVolumeClaimStatus.Phase (PersistentVolumeClaim.Status pvc);
     "volumename" := PersistentVolumeClaimSpec.VolumeName (PersistentVolumeClaim.Spec pvc) ]}.

(** [if pvc.Spec.VolumeMode != nil { currRow["volumemode"] = ... }]. *)
Definition set_volumemode (pvc : PersistentVolumeClaim.t) (currRow : Row) : Row :=
  match PersistentVolumeClaimSpec.VolumeMode (PersistentVolumeClaim.Spec pvc) with
  | Some mode => <["volumemode" := mode]> currRow
  | None => currRow
  end.

(** [if pvc.Spec.StorageClassName != nil { ... }]. *)
Definition set_storageclass_name (pvc : PersistentVolumeClaim.t) (currRow : Row) : Row :=
  match PersistentVolumeClaimSpec.StorageClassName (PersistentVolumeClaim.Spec pvc) with
  | Some class => <["storageclass_name" := class]> currRow
  | None => currRow
  end.

(** [if _, ok := pvc.Status.Capacity["storage"]; ok { quantity :=
    pvc.Status.Capacity["storage"]; currRow["capacity"] =
    (&quantity).String() }]. *)
Definition set_capacity (pvc : PersistentVolumeClaim.t) (currRow : Row) : Row :=
  let capacity := PersistentVolumeClaimStatus.Capacity (PersistentVolumeClaim.Status pvc) in
  if capacity !! "storage" is Some _ then
    let quantity := map_index capacity "storage" in
    <["capacity" := Quantity.String quantity]> currRow
  else currRow.

(** The same on [pvc.Spec.Resources.Requests]. *)
Definition set_requested (pvc : PersistentVolumeClaim.t) (currRow : Row) : Row :=
  let requests :=
    ResourceRequirements.Requests
      (PersistentVolumeClaimSpec.Resources (PersistentVolumeClaim.Spec pvc)) in
  if requests !! "storage" is Some _ then
    let quantity := map_index requests "storage" in
    <["requested" := Quantity.String quantity]> currRow
  else currRow.

(** The row of one claim: the literal, then the four [if] statements in
    source order. *)
Definition currRow (pvc : PersistentVolumeClaim.t) : Row :=
  set_requested pvc
    (set_capacity pvc
       (set_storageclass_name pvc
          (set_volumemode pvc (currRow_literal pvc)))).

(** [rows := make(..., len(items)); for i, pvc := range items { ...;
    rows[i] = currRow }]. *)
Definition fill_rows (items : list PersistentVolumeClaim.t) : Go (list (option Row)) :=
  let rows := make_slice None (length items) in
  range items (λ i pvc rows, rows.[i] ::= Some (currRow pvc))%go rows.

Section with_client.
Context `{Interface C}.

Definition Generate (t : t C) (ctx : Context.t) (queryContext : QueryContext.t)
    : Go GenerateResult :=
  let '(pvcs, err) :=
    PersistentVolumeClaims_List (client t) NamespaceAll ListOptions.zero in
  match err with
  | Some e =>
      log_Println list_failed;;
      mret (None, Some e)
  | None =>
      pvcs ← deref pvcs;
      rows ← fill_rows (PersistentVolumeClaimList.Items pvcs);
      mret (Some rows, None)
  end.

End with_client.

(** ** The projection that the rows implement *)

(** The rows of a listing, as a plain map over the items. *)
Definition rows_of (items : list PersistentVolumeClaim.t) : list (option Row) :=
  (λ pvc, Some (currRow pvc)) <$> items.

(** The fields of a claim that reach its row. *)
Record View : Type := mkView {
  v_name : string;
  v_status : string;
  v_volumename : string;
  v_volumemode : option string;
  v_storageclass_name : option string;
  v_capacity : option string;
  v_requested : option string;
}.

Definition view (pvc : PersistentVolumeClaim.t) : View :=
  let spec := PersistentVolumeClaim.Spec pvc in
  let status := PersistentVolumeClaim.Status pvc in
  {| v_name := ObjectMeta.Name (PersistentVolumeClaim.ObjectMeta pvc);
     v_status := PersistentVolumeClaimStatus.Phase status;
     v_volumename := PersistentVolumeClaimSpec.VolumeName spec;
     v_volumemode := PersistentVolumeClaimSpec.VolumeMode spec;
     v_storageclass_name := PersistentVolumeClaimSpec.StorageClassName spec;
     v_capacity :=
       Quantity.String <$> PersistentVolumeClaimStatus.Capacity status !! "storage";
     v_requested :=
       Quantity.String <$>
         ResourceRequirements.Requests (PersistentVolumeClaimSpec.Resources spec)
           !! "storage" |}.

(** The row that a view prescribes: the three keys that are always
    set, then each optional key when its field is present. *)
Definition row_of_view (v : View) : Row :=
  insert_opt "requested" (v_requested v)
    (insert_opt "capacity" (v_capacity v)
       (insert_opt "storageclass_name" (v_storageclass_name v)
          (insert_opt "volumemode" (v_volumemode v)
             {[ "name" := v_name v; "status" := v_status v;
                "volumename" := v_volumename v ]}))).

(** Reading a view back from a row; [None] when a key that every row
    has is missing. *)
Definition view_of_row (row : Row) : option View :=
  n ← row !! "name";
  s ← row !! "status";
  v ← row !! "volumename";
  Some {| v_name := n; v_status := s; v_volumename := v;
          v_volumemode := row !! "volumemode";
          v_storageclass_name := row !! "storageclass_name";
          v_capacity := row !! "capacity";
          v_requested := row !! "requested" |}.

(** ** Objects for the examples *)

(** The bound claim of the specification's scenario: no volume mode. *)
Definition data_1 : PersistentVolumeClaim.t :=
  {| PersistentVolumeClaim.ObjectMeta :=
       {| ObjectMeta.Name := "data-1"; ObjectMeta.Namespace := "default" |};
     PersistentVolumeClaim.Spec :=
       {| PersistentVolumeClaimSpec.Resources :=
            {| ResourceRequirements.Requests := {[ "storage" := Quantity.gibi 5 ]} |};
          PersistentVolumeClaimSpec.VolumeName := "pv-7";
          PersistentVolumeClaimSpec.StorageClassName := Some "fast";
          PersistentVolumeClaimSpec.VolumeMode := None |};
     PersistentVolumeClaim.Status :=
       {| PersistentVolumeClaimStatus.Phase := "Bound";
          PersistentVolumeClaimStatus.Capacity := {[ "storage" := Quantity.gibi 5 ]} |} |}.

(** A claim that is not bound yet: no volume, no class, no capacity. *)
Definition pending_claim : PersistentVolumeClaim.t :=
  {| PersistentVolumeClaim.ObjectMeta :=
       {| ObjectMeta.Name := "scratch"; ObjectMeta.Namespace := "batch" |};
     PersistentVolumeClaim.Spec :=
       {| PersistentVolumeClaimSpec.Resources :=
            {| ResourceRequirements.Requests := {[ "storage" := Quantity.gibi 1 ]} |};
          PersistentVolumeClaimSpec.VolumeName := "";
          PersistentVolumeClaimSpec.StorageClassName := None;
          PersistentVolumeClaimSpec.VolumeMode := Some "Filesystem" |};
     PersistentVolumeClaim.Status :=
       {| PersistentVolumeClaimStatus.Phase := "Pending";
          PersistentVolumeClaimStatus.Capacity := ∅ |} |}.

(** A claim with every optional field set. *)
Definition full_claim : PersistentVolumeClaim.t :=
  {| PersistentVolumeClaim.ObjectMeta :=
       {| ObjectMeta.Name := "db"; ObjectMeta.Namespace := "prod" |};
     PersistentVolumeClaim.Spec :=
       {| PersistentVolumeClaimSpec.Resources :=
            {| ResourceRequirements.Requests := {[ "storage" := Quantity.gibi 10 ]} |};
          PersistentVolumeClaimSpec.VolumeName := "pv-1";
          PersistentVolumeClaimSpec.StorageClassName := Some "standard";
          PersistentVolumeClaimSpec.VolumeMode := Some "Block" |};
     PersistentVolumeClaim.Status :=
       {| PersistentVolumeClaimStatus.Phase := "Bound";
          PersistentVolumeClaimStatus.Capacity := {[ "storage" := Quantity.gibi 10 ]} |} |}.

(** A cluster with claims in two namespaces. *)
Definition cluster : FakeClient.t :=
  {| FakeClient.volumes := [];
     FakeClient.claims := [data_1; pending_claim];
     FakeClient.fault := None |}.

(** The same cluster behind an API server that refuses the call. *)
Definition unreachable : FakeClient.t :=
  {| FakeClient.volumes := [];
     FakeClient.claims := [data_1; pending_claim];
     FakeClient.fault := Some (errors_New "connection refused") |}.

(** ** The constructor *)

Lemma claims_column_list_NoDup : NoDup column_list.
Proof. by apply (bool_decide_unpack _). Qed.

(** The constructor of the claims table stores the client it is
    given, names the table "kubernetes_persistentvolumeclaims", declares the
    seven columns in source order, each of them once and as a text
    column, and leaves the metrics client nil. *)
Theorem pvc_New_fields {C} (c : C) :
  let t := NewPersistentVolumeClaimsTable c in
  Name t = "kubernetes_persistentvolumeclaims" ∧ client t = c ∧ metricsClient t = None ∧
  column_names (Columns t) = column_list ∧ NoDup (column_names (Columns t)) ∧
  Forall (λ d, ColumnDefinition.Type_ d = ColumnTypeText) (Columns t).
Proof.
  intros t. split_and!; try done; [apply claims_column_list_NoDup|].
  apply (TextColumn_all_text column_list).
Qed.

(** ** The row builder, column by column *)

Section rows.
Implicit Types (pvc : PersistentVolumeClaim.t) (row : Row) (v : View).

(** Each [if] statement is a conditional assignment of one field of the
    view. *)
Lemma set_volumemode_insert_opt pvc row :
  set_volumemode pvc row = insert_opt "volumemode" (v_volumemode (view pvc)) row.
Proof. done. Qed.

Lemma set_storageclass_name_insert_opt pvc row :
  set_storageclass_name pvc row
  = insert_opt "storageclass_name" (v_storageclass_name (view pvc)) row.
Proof. done. Qed.

Lemma claims_set_capacity_insert_opt pvc row :
  set_capacity pvc row = insert_opt "capacity" (v_capacity (view pvc)) row.
Proof. unfold set_capacity, view; simpl. rewrite <-map_index_ok. by case_match. Qed.

Lemma set_requested_insert_opt pvc row :
  set_requested pvc row = insert_opt "requested" (v_requested (view pvc)) row.
Proof. unfold set_requested, view; simpl. rewrite <-map_index_ok. by case_match. Qed.

(** The row of a claim is the row that its view prescribes. *)
Lemma currRow_view pvc : currRow pvc = row_of_view (view pvc).
Proof.
  unfold currRow.
  by rewrite set_requested_insert_opt, claims_set_capacity_insert_opt,
    set_storageclass_name_insert_opt, set_volumemode_insert_opt.
Qed.

Lemma claims_view_of_row_of_view v : view_of_row (row_of_view v) = Some v.
Proof. unfold view_of_row, row_of_view. row_lookup. simpl. row_lookup. by destruct v. Qed.

Lemma claims_size_row_of_view v :
  size (row_of_view v) =
    (if v_requested v is Some _ then 1 else 0) + ((if v_capacity v is Some _ then 1 else 0)
    + ((if v_storageclass_name v is Some _ then 1 else 0)
    + ((if v_volumemode v is Some _ then 1 else 0) + 3))).
Proof.
  unfold row_of_view. rewrite !size_insert_opt_fresh by row_lookup.
  rewrite !map_size_insert_None by row_lookup. by rewrite map_size_singleton.
Qed.

Lemma row_of_view_in_schema {C} (c : C) v :
  row_in_schema (Columns (NewPersistentVolumeClaimsTable c)) (row_of_view v).
Proof.
  unfold row_of_view. repeat apply row_in_schema_insert_opt; try in_names.
  repeat apply row_in_schema_insert; in_names.
Qed.

(** C21: every row of the claims table has the keys name, status and
    volumename, with the claim's name, phase and volume name as values,
    whatever the claim holds. *)
Theorem pvc_currRow_required pvc :
  currRow pvc !! "name" = Some (ObjectMeta.Name (PersistentVolumeClaim.ObjectMeta pvc)) ∧
  currRow pvc !! "status"
    = Some (PersistentVolumeClaimStatus.Phase (PersistentVolumeClaim.Status pvc)) ∧
  currRow pvc !! "volumename"
    = Some (PersistentVolumeClaimSpec.VolumeName (PersistentVolumeClaim.Spec pvc)).
Proof. rewrite currRow_view. unfold row_of_view. repeat split; row_lookup. Qed.

(** C5: the keys volumemode and storageclass_name of a claim's row are
    present exactly when the pointer fields are non-nil, and then hold
    the pointed-to strings: an absent field leaves no key. *)
Theorem pvc_currRow_optional pvc :
  currRow pvc !! "volumemode"
    = PersistentVolumeClaimSpec.VolumeMode (PersistentVolumeClaim.Spec pvc) ∧
  currRow pvc !! "storageclass_name"
    = PersistentVolumeClaimSpec.StorageClassName (PersistentVolumeClaim.Spec pvc).
Proof. rewrite currRow_view. unfold row_of_view. split; row_lookup. Qed.

(** C7: the keys capacity and requested of a claim's row hold the
    canonical text of the "storage" entry of the status capacity and of
    the requested resources, and are absent when the entry is. *)
Theorem pvc_currRow_quantities pvc :
  currRow pvc !! "capacity"
    = Quantity.String <$>
        PersistentVolumeClaimStatus.Capacity (PersistentVolumeClaim.Status pvc) !! "storage" ∧
  currRow pvc !! "requested"
    = Quantity.String <$>
        ResourceRequirements.Requests
          (PersistentVolumeClaimSpec.Resources (PersistentVolumeClaim.Spec pvc)) !! "storage".
Proof. rewrite currRow_view. unfold row_of_view. split; row_lookup. Qed.

(** C35: the cells capacity and requested of a claim's row determine
    the quantities.  When the quantities of the claim are in canonical
    form, as the API server delivers them, each cell is absent exactly
    when the claim has no such quantity, no placeholder stands for a
    missing one, and reading the text of a cell that is present gives
    the quantity back. *)
Theorem pvc_currRow_quantities_read pvc :
  let capacity :=
    PersistentVolumeClaimStatus.Capacity (PersistentVolumeClaim.Status pvc) !! "storage" in
  let requested :=
    ResourceRequirements.Requests
      (PersistentVolumeClaimSpec.Resources (PersistentVolumeClaim.Spec pvc)) !! "storage" in
  (∀ q, capacity = Some q → canonical q) →
  (∀ q, requested = Some q → canonical q) →
  ((currRow pvc !! "capacity" = None ↔ capacity = None) ∧
   currRow pvc !! "capacity" ≫= read_quantity = capacity) ∧
  ((currRow pvc !! "requested" = None ↔ requested = None) ∧
   currRow pvc !! "requested" ≫= read_quantity = requested).
Proof.
  intros capacity requested Hcapacity Hrequested.
  split; apply read_quantity_cell; try done;
    rewrite currRow_view; unfold row_of_view; row_lookup.
Qed.

Lemma currRow_in_schema {C} (c : C) pvc :
  row_in_schema (Columns (NewPersistentVolumeClaimsTable c)) (currRow pvc).
Proof. rewrite currRow_view. apply row_of_view_in_schema. Qed.

(** C23: the keys of a claim's row are among the seven columns that the
    constructor declares, and a claim with every optional field set
    has all seven: no column is invented from the data and none is
    declared in vain. *)
Theorem pvc_currRow_keys_declared {C} (c : C) pvc :
  let declared : gset string :=
    list_to_set (column_names (Columns (NewPersistentVolumeClaimsTable c))) in
  dom (currRow pvc) ⊆ declared ∧ dom (currRow full_claim) = declared.
Proof.
  intros declared. split; [apply (currRow_in_schema c)|].
  apply set_eq. intros k. rewrite elem_of_dom. subst declared. simpl.
  rewrite !elem_of_union, !elem_of_singleton, elem_of_empty.
  split.
  - intros [v Hv]. apply (row_in_schema_lookup _ _ _ _ (currRow_in_schema c full_claim)) in Hv.
    revert Hv. simpl. set_solver.
  - intros Hk. destruct_or!; subst; try done; vm_compute; eauto.
Qed.

(** Two claims have the same row exactly when they agree on the
    seven projected fields. *)
Theorem pvc_currRow_eq_iff pvc pvc' : currRow pvc = currRow pvc' ↔ view pvc = view pvc'.
Proof.
  rewrite !currRow_view. split; [|by intros ->].
  intros Heq. apply (inj Some). by rewrite <-!claims_view_of_row_of_view, Heq.
Qed.

(** A claim's row has at least the three keys of the map literal
    and at most the seven declared columns. *)
Theorem pvc_currRow_size pvc : 3 ≤ size (currRow pvc) ≤ 7.
Proof. rewrite currRow_view, claims_size_row_of_view. repeat case_match; lia. Qed.

(** A claim that is bound to no volume still gets the key
    volumename, with the empty string as its value. *)
Theorem pvc_volumename_never_omitted pvc :
  PersistentVolumeClaimSpec.VolumeName (PersistentVolumeClaim.Spec pvc) = "" →
  currRow pvc !! "volumename" = Some "".
Proof. intros Hv. rewrite currRow_view. unfold row_of_view. row_lookup. by f_equal. Qed.

Lemma pvc_currRow_quantities_read_witness :
  ((currRow pending_claim !! "capacity" = None ↔ (∅ : gmap string Quantity.t) !! "storage" = None) ∧
   currRow pending_claim !! "capacity" ≫= read_quantity = None) ∧
  ((currRow pending_claim !! "requested" = None
    ↔ ({[ "storage" := Quantity.gibi 1 ]} : gmap string Quantity.t) !! "storage" = None) ∧
   currRow pending_claim !! "requested" ≫= read_quantity = Some (Quantity.gibi 1)).
Proof.
  apply (pvc_currRow_quantities_read pending_claim);
    intros q Hq; vm_compute in Hq; [done|by injection Hq as <-].
Defined.

Lemma pvc_volumename_never_omitted_witness : currRow pending_claim !! "volumename" = Some "".
Proof. apply pvc_volumename_never_omitted. reflexivity. Defined.

End rows.

(** The scenario of the specification: the bound claim [data-1], which
    has no volume mode, gets six keys and no [volumemode]. *)
Example currRow_data_1 :
  currRow data_1
  = {[ "name" := "data-1"; "status" := "Bound"; "storageclass_name" := "fast";
       "capacity" := "5Gi"; "requested" := "5Gi"; "volumename" := "pv-7" ]}.
Proof. row_eq (currRow_in_schema () data_1). Qed.

(** A claim that is not bound yet: no class and no capacity, and the
    volume name is the empty string. *)
Example currRow_pending_claim :
  currRow pending_claim
  = {[ "name" := "scratch"; "status" := "Pending"; "requested" := "1Gi";
       "volumename" := ""; "volumemode" := "Filesystem" ]}.
Proof. row_eq (currRow_in_schema () pending_claim). Qed.

(** ** Generate *)

Section generate.
Context `{Interface C}.
Implicit Types (t : t C) (ctx : Context.t) (q : QueryContext.t) (log : Log).

(** The answer of the lister to the call that [Generate] makes. *)
Definition listing t : ListResult PersistentVolumeClaimList.t :=
  PersistentVolumeClaims_List (client t) NamespaceAll ListOptions.zero.

Lemma claims_fill_rows_returns items : returns (fill_rows items) (rows_of items).
Proof. apply (fill_returns_project currRow). Qed.

(** [Generate] is the shared projection, at the claims' list call, row
    builder and log line. *)
Lemma claims_Generate_project t ctx q log :
  Generate t ctx q log
  = project_all PersistentVolumeClaimList.Items currRow list_failed (listing t) log.
Proof.
  unfold Generate, project_all, listing.
  destruct (PersistentVolumeClaims_List _ _ _) as [[l|] [e|]]; simpl; try done.
  rewrite go_bind_ret_l. by rewrite (go_bind_returns _ _ _ _ (claims_fill_rows_returns _)).
Qed.

(** Of the table, [Generate] reads the client and nothing else: not
    the name, the columns or the metrics client, and neither the
    context nor the query that it is given. *)
Lemma claims_Generate_client t t' ctx ctx' q q' log :
  client t = client t' → Generate t ctx q log = Generate t' ctx' q' log.
Proof. intros Hc. by rewrite !claims_Generate_project; unfold listing; rewrite Hc. Qed.

(** C1: when the lister answers with a list and no error, Generate on
    the claims table returns one row per claim, in the order of the
    list, each the row of its claim and none nil, with a nil error, and
    logs nothing. *)
Theorem pvc_Generate_rows t ctx q log l :
  listing t = (Some l, None) →
  Generate t ctx q log
  = (Done (Some (rows_of (PersistentVolumeClaimList.Items l)), None), log).
Proof. intros Hl. by rewrite claims_Generate_project, Hl. Qed.

(** C3: when the lister answers with an error, Generate on the claims
    table returns that error with a nil slice, never a partial list,
    and logs the line "could not list pvcs from k8s api" once. *)
Theorem pvc_Generate_lister_error t ctx q log pvcs e :
  listing t = (pvcs, Some e) →
  Generate t ctx q log = (Done (None, Some e), log ++ [list_failed]).
Proof. intros Hl. rewrite claims_Generate_project, Hl. by apply project_all_error. Qed.

(** C10: with a client that keeps the contract of the typed clients (a
    nil error comes with a list), no run of Generate on the claims
    table panics: the list is never dereferenced when nil and every
    index written is within the slice. *)
Theorem pvc_Generate_never_panics `{!WellBehaved C} t ctx q :
  never_panics (Generate t ctx q).
Proof.
  intros log. rewrite claims_Generate_project.
  apply project_all_never_panics, PersistentVolumeClaims_List_wf.
Qed.

(** C39: when the lister answers with neither a list nor an error,
    Generate on the claims table panics on the nil list: the code
    relies on the client's contract and does not check it. *)
Theorem pvc_Generate_nil_list_panics t ctx q log :
  listing t = (None, None) →
  Generate t ctx q log = (Panicked nil_dereference, log).
Proof. intros Hl. by rewrite claims_Generate_project, Hl. Qed.

(** A run of Generate on the claims table that ends normally
    returns rows or an error and never both; when it returns rows there
    are as many as the lister returned claims and the log is
    unchanged. *)
Theorem pvc_Generate_row_count t ctx q log rows err log' :
  Generate t ctx q log = (Done (Some rows, err), log') →
  err = None ∧ log' = log ∧
  ∃ l, listing t = (Some l, None) ∧
       length rows = length (PersistentVolumeClaimList.Items l).
Proof.
  rewrite claims_Generate_project.
  intros [(e & _ & [=] & _)|(l & Hl & [= -> ->] & ->)]%project_all_done.
  split_and!; [done..|]. exists l. split; [done|apply length_project].
Qed.

(** Calling Generate on the claims table a second time, with any
    context and predicates, after whatever the first call logged,
    returns what the first call returned: the same rows in the same
    order, or the same error.  (The client is a function of the call,
    so the object set is the same in both calls.) *)
Theorem pvc_Generate_twice t ctx q ctx' q' log :
  (Generate t ctx' q' (Generate t ctx q log).2).1 = (Generate t ctx q log).1.
Proof. rewrite !claims_Generate_project. apply project_all_outcome. Qed.

(** A run of Generate on a table built by the constructor that
    ends normally returns a result that the engine accepts: an error
    and no rows, or no error and non-nil rows whose keys are declared
    columns. *)
Theorem pvc_Generate_result_ok (c : C) ctx q log r log' :
  let t := NewPersistentVolumeClaimsTable c in
  Generate t ctx q log = (Done r, log') → result_ok (Columns t) r.
Proof.
  intros t. rewrite claims_Generate_project. apply project_all_result_ok.
  intros pvc. apply currRow_in_schema.
Qed.

Lemma claims_Generate_log_extends t ctx q : log_extends (Generate t ctx q).
Proof. intros log. rewrite claims_Generate_project. apply project_all_log_extends. Qed.

End generate.

(** ** Against a client over a snapshot *)

(** C32: Generate lists the claims of all namespaces.  Against a client
    that answers from a snapshot of the cluster and lists, as the API
    server does, the claims of the namespace it is asked for, and all
    claims when asked for [metav1.NamespaceAll], Generate returns one
    row for every claim of the snapshot, whatever its namespace. *)
Theorem pvc_Generate_all_namespaces (c : FakeClient.t) ctx q log :
  FakeClient.fault c = None →
  Generate (NewPersistentVolumeClaimsTable c) ctx q log
  = (Done (Some (rows_of (FakeClient.claims c)), None), log).
Proof.
  intros Hfault. rewrite claims_Generate_project. unfold listing. simpl.
  unfold FakeClient.list_claims. by rewrite Hfault, FakeClient.claims_in_all.
Qed.

(** Asked for one namespace, the same client lists the claims of
    that namespace only. *)
Example list_claims_one_namespace :
  PersistentVolumeClaims_List cluster "batch" ListOptions.zero
  = (Some {| PersistentVolumeClaimList.Items := [pending_claim] |}, None).
Proof. reflexivity. Qed.

(** The table has no column for the namespace: claims of the same
    name in different namespaces, which the listing over all
    namespaces returns side by side, get the same row when their other
    fields agree. *)
Example currRow_ignores_namespace :
  let moved :=
    {| PersistentVolumeClaim.ObjectMeta :=
         {| ObjectMeta.Name := "data-1"; ObjectMeta.Namespace := "staging" |};
       PersistentVolumeClaim.Spec := PersistentVolumeClaim.Spec data_1;
       PersistentVolumeClaim.Status := PersistentVolumeClaim.Status data_1 |} in
  moved ≠ data_1 ∧ currRow moved = currRow data_1.
Proof. split; [discriminate|]. by apply pvc_currRow_eq_iff. Qed.

Lemma pvc_Generate_all_namespaces_witness :
  Generate (NewPersistentVolumeClaimsTable cluster) Context.Background QueryContext.empty []
  = (Done (Some (rows_of [data_1; pending_claim]), None), []).
Proof. by apply pvc_Generate_all_namespaces. Defined.

(** ** The theorems at concrete clusters *)

Lemma pvc_Generate_rows_witness :
  Generate (NewPersistentVolumeClaimsTable cluster) Context.Background QueryContext.empty []
  = (Done (Some (rows_of [data_1; pending_claim]), None), []).
Proof.
  exact (pvc_Generate_rows (NewPersistentVolumeClaimsTable cluster) Context.Background
           QueryContext.empty [] _ eq_refl).
Defined.

Lemma pvc_Generate_lister_error_witness :
  Generate (NewPersistentVolumeClaimsTable unreachable) Context.Background
    QueryContext.empty ["started"]
  = (Done (None, Some (errors_New "connection refused")),
     ["started"; "could not list pvcs from k8s api"]).
Proof.
  exact (pvc_Generate_lister_error (NewPersistentVolumeClaimsTable unreachable)
           Context.Background QueryContext.empty ["started"] _ _ eq_refl).
Defined.

Lemma pvc_Generate_never_panics_witness :
  never_panics (Generate (NewPersistentVolumeClaimsTable cluster) Context.Background
                  QueryContext.empty).
Proof. apply (pvc_Generate_never_panics (WellBehaved0:=FakeClient.well_behaved)). Defined.

Lemma pvc_Generate_nil_list_panics_witness :
  Generate (NewPersistentVolumeClaimsTable NilClient.mk) Context.Background
    QueryContext.empty []
  = (Panicked nil_dereference, []).
Proof. apply pvc_Generate_nil_list_panics. reflexivity. Defined.

Lemma pvc_Generate_row_count_witness :
  ∃ l, listing (NewPersistentVolumeClaimsTable cluster) = (Some l, None) ∧
       length (rows_of [data_1; pending_claim]) = length (PersistentVolumeClaimList.Items l).
Proof.
  apply (pvc_Generate_row_count (NewPersistentVolumeClaimsTable cluster) Context.Background
           QueryContext.empty [] _ None []).
  reflexivity.
Defined.

Lemma pvc_Generate_result_ok_witness :
  result_ok (Columns (NewPersistentVolumeClaimsTable cluster))
    (Some (rows_of [data_1; pending_claim]), None).
Proof.
  apply (pvc_Generate_result_ok cluster Context.Background QueryContext.empty [] _ []).
  reflexivity.
Defined.

End PersistentVolumeClaimsTable.
