(* ===== verification/PersistentVolumes.v ===== *)
(** * PersistentVolumes: the table of persistent volumes

    Module [PersistentVolumesTable] translates
    [src/tables/persistentvolumes.go]: the struct, its constructor,
    [Name], [Columns], [getNodeAffinity] and [Generate].  The body of the
    loop is split as in the source: the map literal ([currRow_literal])
    and one definition per [if] statement ([set_capacity], [set_path],
    [set_nodeaffinity]).  [getNodeAffinity] dereferences its argument and
    may therefore panic, so the row of a volume is a [Go] computation;
    that it always returns, and what it returns, are theorems.

    The adapter is written over the class [Encoder] of [Json], the call
    of [json.Marshal] with either answer.  The theorems of the adapter
    hold whatever the encoder answers, the error included
    ([pv_getNodeAffinity_encoder_error], [pv_currRow_encoder_error]);
    the theorems about the text in the column [nodeaffinity] are
    stated for the encoder of [Json] (sections [json_text],
    [json_rows], [json_generate]). *)

From S2P Require Import Prelude Quantity QuantityRead CoreV1 Utf8 Json JsonRead AffinityRead.
From S2P Require Import KubeClient OsqueryTable Projection.

Module PersistentVolumesTable.

(** The struct [PersistentVolumesTable]. *)
Record t (C : Type) : Type := mk {
  columns : list ColumnDefinition.t;
  name : string;
  client : C;
  metricsClient : option MetricsInterface;
}.
Arguments mk {C}.
Arguments columns {C}.
Arguments name {C}.
Arguments client {C}.
Arguments metricsClient {C}.

(** The column names, in the order of the constructor. *)
Definition column_list : list string :=
  ["name"; "status"; "capacity"; "path"; "storageclass_name"; "nodeaffinity"].

Definition NewPersistentVolumesTable {C} (kubeclient : C) : t C :=
  let columns := [
    TextColumn "name";
    TextColumn "status";
    TextColumn "capacity";
    TextColumn "path";
    TextColumn "storageclass_name";
    TextColumn "nodeaffinity"
  ] in
  {| name := "kubernetes_persistentvolumes";
     columns := columns;
     client := kubeclient;
     metricsClient := None |}.

Definition Name {C} (t : t C) : string := name t.

Definition Columns {C} (t : t C) : list ColumnDefinition.t := columns t.

(** The line logged when the lister fails. *)
Definition list_failed : string := "could not list pvs from k8s api".

Section with_encoder.
Context {enc : Encoder}.

(** [getNodeAffinity]: the JSON text of [*nodeaffinity], or the zero
    string when the encoder reports an error. *)
Definition getNodeAffinity {C} (t : t C) (nodeaffinity : option VolumeNodeAffinity.t)
    : Go string :=
  let source := "" in
  a ← deref nodeaffinity;
  let '(bytes, err) := Marshal a in
  let source := if err is None then bytes else source in
  mret source.

(** ** The body of the loop *)

(** [currRow := map[string]string{"name": ..., "status": ...,
    "storageclass_name": ...}]. *)
Definition currRow_literal (pv : PersistentVolume.t) : Row :=
  {[ "name" := ObjectMeta.Name (PersistentVolume.ObjectMeta pv);
     "status" := PersistentVolumeStatus.Phase (PersistentVolume.Status pv);
     "storageclass_name" :=
       PersistentVolumeSpec.StorageClassName (PersistentVolume.Spec pv) ]}.

(** [if _, ok := pv.Spec.Capacity["storage"]; ok { quantity :=
    pv.Spec.Capacity["storage"]; currRow["capacity"] =
    (&quantity).String() }]. *)
Definition set_capacity (pv : PersistentVolume.t) (currRow : Row) : Row :=
  let capacity := PersistentVolumeSpec.Capacity (PersistentVolume.Spec pv) in
  if capacity !! "storage" is Some _ then
    let quantity := map_index capacity "storage" in
    <["capacity" := Quantity.String quantity]> currRow
  else currRow.

(** [if pv.Spec.Local != nil { currRow["path"] = pv.Spec.Local.Path }]. *)
Definition set_path (pv : PersistentVolume.t) (currRow : Row) : Row :=
  match PersistentVolumeSpec.Local (PersistentVolume.Spec pv) with
  | Some local => <["path" := LocalVolumeSource.Path local]> currRow
  | None => currRow
  end.

(** [if pv.Spec.NodeAffinity != nil { currRow["nodeaffinity"] =
    t.getNodeAffinity(pv.Spec.NodeAffinity) }]. *)
Definition set_nodeaffinity {C} (t : t C) (pv : PersistentVolume.t) (currRow : Row)
    : Go Row :=
  let nodeAffinity := PersistentVolumeSpec.NodeAffinity (PersistentVolume.Spec pv) in
  if nodeAffinity is Some _ then
    text ← getNodeAffinity t nodeAffinity;
    mret (<["nodeaffinity" := text]> currRow)
  else mret currRow.

(** The row of one volume: the literal, then the three [if] statements
    in source order. *)
Definition currRow {C} (t : t C) (pv : PersistentVolume.t) : Go Row :=
  set_nodeaffinity t pv (set_path pv (set_capacity pv (currRow_literal pv))).

(** [rows := make(..., len(items)); for i, pv := range items { ...;
    rows[i] = currRow }]. *)
Definition fill_rows {C} (t : t C) (items : list PersistentVolume.t)
    : Go (list (option Row)) :=
  let rows := make_slice None (length items) in
  range items (λ i pv rows, row ← currRow t pv; rows.[i] ::= Some row)%go rows.

Section with_client.
Context `{Interface C}.

Definition Generate (t : t C) (ctx : Context.t) (queryContext : QueryContext.t)
    : Go GenerateResult :=
  let '(pvs, err) := PersistentVolumes_List (client t) ListOptions.zero in
  match err with
  | Some e =>
      log_Println list_failed;;
      mret (None, Some e)
  | None =>
      pvs ← deref pvs;
      rows ← fill_rows t (PersistentVolumeList.Items pvs);
      mret (Some rows, None)
  end.

End with_client.

(** ** The projection that the rows implement *)

(** The fields of a volume that reach its row; the node affinity as
    its JSON text. *)
Record View : Type := mkView {
  v_name : string;
  v_status : string;
  v_storageclass_name : string;
  v_capacity : option string;
  v_path : option string;
  v_nodeaffinity : option string;
}.

(** What the column holds for a node-affinity structure: the text
    that the encoder gives, or the empty string when the encoder
    reports an error.  This is no function of the source; it is the
    reference that [getNodeAffinity] is compared with. *)
Definition affinity_text (a : VolumeNodeAffinity.t) : string :=
  if (Marshal a).2 is None then (Marshal a).1 else "".

Definition view (pv : PersistentVolume.t) : View :=
  let spec := PersistentVolume.Spec pv in
  {| v_name := ObjectMeta.Name (PersistentVolume.ObjectMeta pv);
     v_status := PersistentVolumeStatus.Phase (PersistentVolume.Status pv);
     v_storageclass_name := PersistentVolumeSpec.StorageClassName spec;
     v_capacity := Quantity.String <$> PersistentVolumeSpec.Capacity spec !! "storage";
     v_path := LocalVolumeSource.Path <$> PersistentVolumeSpec.Local spec;
     v_nodeaffinity := affinity_text <$> PersistentVolumeSpec.NodeAffinity spec |}.

(** The row that a view prescribes. *)
Definition row_of_view (v : View) : Row :=
  insert_opt "nodeaffinity" (v_nodeaffinity v)
    (insert_opt "path" (v_path v)
       (insert_opt "capacity" (v_capacity v)
          {[ "name" := v_name v; "status" := v_status v;
             "storageclass_name" := v_storageclass_name v ]})).

(** The row of a volume, as a value. *)
Definition row (pv : PersistentVolume.t) : Row := row_of_view (view pv).

(** The rows of a listing, as a plain map over the items. *)
Definition rows_of (items : list PersistentVolume.t) : list (option Row) :=
  (λ pv, Some (row pv)) <$> items.

End with_encoder.

(** Reading a view back from a row. *)
Definition view_of_row (r : Row) : option View :=
  n ← r !! "name";
  s ← r !! "status";
  c ← r !! "storageclass_name";
  Some {| v_name := n; v_status := s; v_storageclass_name := c;
          v_capacity := r !! "capacity";
          v_path := r !! "path";
          v_nodeaffinity := r !! "nodeaffinity" |}.

(** ** Objects for the examples *)

(** A selector for the node [node-1]. *)
Definition on_node_1 : VolumeNodeAffinity.t :=
  {| VolumeNodeAffinity.Required := Some
       {| NodeSelector.NodeSelectorTerms := Some [
            {| NodeSelectorTerm.MatchExpressions := Some [
                 {| NodeSelectorRequirement.Key := "kubernetes.io/hostname";
                    NodeSelectorRequirement.Operator := "In";
                    NodeSelectorRequirement.Values := Some ["node-1"] |} ];
               NodeSelectorTerm.MatchFields := None |} ] |} |}.

(** A node affinity whose selector has no terms. *)
Definition no_terms : VolumeNodeAffinity.t :=
  {| VolumeNodeAffinity.Required := Some {| NodeSelector.NodeSelectorTerms := None |} |}.

(** A local volume pinned to a node: every optional field set. *)
Definition local_pv : PersistentVolume.t :=
  {| PersistentVolume.ObjectMeta :=
       {| ObjectMeta.Name := "pv-7"; ObjectMeta.Namespace := "" |};
     PersistentVolume.Spec :=
       {| PersistentVolumeSpec.Capacity := {[ "storage" := Quantity.gibi 10 ]};
          PersistentVolumeSpec.Local := Some {| LocalVolumeSource.Path := "/mnt/disks/ssd1" |};
          PersistentVolumeSpec.StorageClassName := "local-storage";
          PersistentVolumeSpec.NodeAffinity := Some on_node_1 |};
     PersistentVolume.Status := {| PersistentVolumeStatus.Phase := "Bound" |} |}.

(** A network-backed volume: no local path, no node affinity, no
    storage class, no capacity reported. *)
Definition nfs_pv : PersistentVolume.t :=
  {| PersistentVolume.ObjectMeta :=
       {| ObjectMeta.Name := "nfs-1"; ObjectMeta.Namespace := "" |};
     PersistentVolume.Spec :=
       {| PersistentVolumeSpec.Capacity := ∅;
          PersistentVolumeSpec.Local := None;
          PersistentVolumeSpec.StorageClassName := "";
          PersistentVolumeSpec.NodeAffinity := None |};
     PersistentVolume.Status := {| PersistentVolumeStatus.Phase := "Available" |} |}.

Definition cluster : FakeClient.t :=
  {| FakeClient.volumes := [local_pv; nfs_pv];
     FakeClient.claims := [];
     FakeClient.fault := None |}.

Definition unreachable : FakeClient.t :=
  {| FakeClient.volumes := [local_pv; nfs_pv];
     FakeClient.claims := [];
     FakeClient.fault := Some (errors_New "connection refused") |}.

(** ** The constructor *)

Lemma volumes_column_list_NoDup : NoDup column_list.
Proof. by apply (bool_decide_unpack _). Qed.

(** The constructor of the volumes table stores the client it is
    given, names the table "kubernetes_persistentvolumes", declares the
    six columns in source order, each of them once and as a text
    column, and leaves the metrics client nil. *)
Theorem pv_New_fields {C} (c : C) :
  let t := NewPersistentVolumesTable c in
  Name t = "kubernetes_persistentvolumes" ∧ client t = c ∧ metricsClient t = None ∧
  column_names (Columns t) = column_list ∧ NoDup (column_names (Columns t)) ∧
  Forall (λ d, ColumnDefinition.Type_ d = ColumnTypeText) (Columns t).
Proof.
  intros t. split_and!; try done; [apply volumes_column_list_NoDup|].
  apply (TextColumn_all_text column_list).
Qed.

(** ** Node affinity *)

(** *** Whatever the encoder answers *)

Section node_affinity.
Context {enc : Encoder} {C : Type}.
Implicit Types (t : t C) (a : VolumeNodeAffinity.t) (log : Log).

Lemma getNodeAffinity_returns t a : returns (getNodeAffinity t (Some a)) (affinity_text a).
Proof.
  intros log. unfold getNodeAffinity, affinity_text. simpl. rewrite go_bind_ret_l.
  by destruct (Marshal a) as [bytes [e|]].
Qed.

Lemma affinity_text_error a bytes e : Marshal a = (bytes, Some e) → affinity_text a = "".
Proof. unfold affinity_text. by intros ->. Qed.

Lemma affinity_text_bytes a bytes : Marshal a = (bytes, None) → affinity_text a = bytes.
Proof. unfold affinity_text. by intros ->. Qed.

(** C25: when the encoder reports an error, getNodeAffinity returns the
    empty string, whatever bytes came with the error; it does not
    panic and logs nothing.  When the encoder reports none, it returns
    the bytes as they are. *)
Theorem pv_getNodeAffinity_encoder_error t a bytes err :
  Marshal a = (bytes, err) →
  returns (getNodeAffinity t (Some a)) (if err is None then bytes else "").
Proof.
  intros Ha. destruct err as [e|].
  - rewrite <-(affinity_text_error a bytes e Ha). apply getNodeAffinity_returns.
  - rewrite <-(affinity_text_bytes a bytes Ha). apply getNodeAffinity_returns.
Qed.

(** C9: on a nil pointer getNodeAffinity panics, whatever the encoder
    and the log: it dereferences its argument before anything else,
    without a test, and is safe only behind the nil test of its
    caller. *)
Theorem pv_getNodeAffinity_nil_panics t log :
  getNodeAffinity t None log = (Panicked nil_dereference, log).
Proof. unfold getNodeAffinity. by rewrite (go_bind_panicked _ _ _ _ _ (deref_None log)). Qed.

End node_affinity.

(** *** With the encoder of [Json] *)

Section json_text.
Context {C : Type}.
Implicit Types (t : t C) (a : VolumeNodeAffinity.t) (log : Log).

Lemma affinity_text_json a : affinity_text a = encode (marshal_VolumeNodeAffinity a).
Proof. done. Qed.

(** A node affinity that is present but zero-valued is stored as
    the text of the empty object, with no member for the unset
    selector. *)
Theorem pv_getNodeAffinity_zero t : returns (getNodeAffinity t (Some VolumeNodeAffinity.zero)) "{}".
Proof. intros log. by rewrite getNodeAffinity_returns. Qed.

(** A node affinity whose required selector is set and has no terms
    is stored with the member nodeSelectorTerms and the value null. *)
Example getNodeAffinity_null_terms t :
  returns (getNodeAffinity t (Some no_terms))
    ("{" +:+ quoted "required" +:+ ":{" +:+ quoted "nodeSelectorTerms" +:+ ":null}}").
Proof. intros log. by rewrite getNodeAffinity_returns. Qed.

(** C27: the text that getNodeAffinity returns stands for the structure
    it was given.  Read back through the field tags, the text gives
    the structure again, up to what the encoder does not keep: an
    empty slice in a field tagged omitempty comes back as nil, and
    bytes that are not valid UTF-8 come back as U+FFFD. *)
Theorem pv_getNodeAffinity_decode t a :
  returns (getNodeAffinity t (Some a)) (affinity_text a) ∧
  decode (affinity_text a) = Some (clean a).
Proof. split; [apply getNodeAffinity_returns|apply decode_marshal]. Qed.

(** C28: whatever bytes the strings of the structure hold, the text
    that getNodeAffinity returns is well formed: it is valid UTF-8, and
    it is the text of one JSON value, the object that the field tags
    give for the structure with its strings repaired. *)
Theorem pv_getNodeAffinity_wellformed t a :
  returns (getNodeAffinity t (Some a)) (affinity_text a) ∧
  ValidString (affinity_text a) = true ∧
  read (affinity_text a) = Some (marshal_VolumeNodeAffinity (repair_affinity a)).
Proof.
  split_and!; [apply getNodeAffinity_returns|apply encode_valid|].
  by rewrite affinity_text_json, read_encode, repair_marshal.
Qed.

(** Structures with the same text are the same up to what the encoder
    does not keep. *)
Corollary affinity_text_inj a b : affinity_text a = affinity_text b → clean a = clean b.
Proof.
  intros Heq. apply (inj Some). rewrite !affinity_text_json in Heq.
  by rewrite <-!decode_marshal, Heq.
Qed.

(** The text does not tell an empty list of values from none. *)
Example affinity_text_empty_values :
  let r values := {| NodeSelectorRequirement.Key := "zone";
                     NodeSelectorRequirement.Operator := "Exists";
                     NodeSelectorRequirement.Values := values |} in
  let a values := {| VolumeNodeAffinity.Required := Some
    {| NodeSelector.NodeSelectorTerms := Some [
         {| NodeSelectorTerm.MatchExpressions := Some [r values];
            NodeSelectorTerm.MatchFields := None |} ] |} |} in
  a (Some []) ≠ a None ∧ affinity_text (a (Some [])) = affinity_text (a None).
Proof. done. Qed.

End json_text.

(** ** The row builder, column by column *)

Section rows.
Context {enc : Encoder} {C : Type}.
Implicit Types (t : t C) (pv : PersistentVolume.t) (r : Row) (v : View).

Lemma volumes_set_capacity_insert_opt pv r :
  set_capacity pv r = insert_opt "capacity" (v_capacity (view pv)) r.
Proof. unfold set_capacity, view; simpl. rewrite <-map_index_ok. by case_match. Qed.

Lemma set_path_insert_opt pv r : set_path pv r = insert_opt "path" (v_path (view pv)) r.
Proof. unfold set_path, view; simpl. by case_match. Qed.

Lemma set_nodeaffinity_returns t pv r :
  returns (set_nodeaffinity t pv r) (insert_opt "nodeaffinity" (v_nodeaffinity (view pv)) r).
Proof.
  intros log. unfold set_nodeaffinity, view; simpl.
  destruct (PersistentVolumeSpec.NodeAffinity _) as [a|]; [|done].
  by rewrite (go_bind_returns _ _ _ _ (getNodeAffinity_returns t a)).
Qed.

(** Building the row of a volume always returns, and returns the row
    that the volume's view prescribes. *)
Lemma currRow_returns t pv : returns (currRow t pv) (row pv).
Proof.
  intros log. unfold currRow. rewrite set_nodeaffinity_returns.
  by rewrite set_path_insert_opt, volumes_set_capacity_insert_opt.
Qed.

Lemma volumes_view_of_row_of_view v : view_of_row (row_of_view v) = Some v.
Proof. unfold view_of_row, row_of_view. row_lookup. simpl. row_lookup. by destruct v. Qed.

Lemma volumes_size_row_of_view v :
  size (row_of_view v) =
    (if v_nodeaffinity v is Some _ then 1 else 0) + ((if v_path v is Some _ then 1 else 0)
    + ((if v_capacity v is Some _ then 1 else 0) + 3)).
Proof.
  unfold row_of_view. rewrite !size_insert_opt_fresh by row_lookup.
  rewrite !map_size_insert_None by row_lookup. by rewrite map_size_singleton.
Qed.

Lemma row_in_schema_columns (c : C) pv :
  row_in_schema (Columns (NewPersistentVolumesTable c)) (row pv).
Proof.
  unfold row, row_of_view. repeat apply row_in_schema_insert_opt; try in_names.
  repeat apply row_in_schema_insert; in_names.
Qed.

(** C22: building the row of a volume never panics and logs nothing,
    and the row has the keys name, status and storageclass_name with
    the volume's name, phase and storage class name as values. *)
Theorem pv_currRow_required t pv :
  ∃ r, returns (currRow t pv) r ∧
    r !! "name" = Some (ObjectMeta.Name (PersistentVolume.ObjectMeta pv)) ∧
    r !! "status" = Some (PersistentVolumeStatus.Phase (PersistentVolume.Status pv)) ∧
    r !! "storageclass_name"
      = Some (PersistentVolumeSpec.StorageClassName (PersistentVolume.Spec pv)).
Proof.
  exists (row pv). split; [apply currRow_returns|].
  unfold row, row_of_view. repeat split; row_lookup.
Qed.

(** C6: the keys capacity and path of a volume's row are present
    exactly when the "storage" entry of the capacity and the local
    volume source are, and hold the canonical text of the quantity and
    the local path. *)
Theorem pv_currRow_optional t pv :
  ∃ r, returns (currRow t pv) r ∧
    r !! "capacity"
      = Quantity.String <$>
          PersistentVolumeSpec.Capacity (PersistentVolume.Spec pv) !! "storage" ∧
    r !! "path"
      = LocalVolumeSource.Path <$> PersistentVolumeSpec.Local (PersistentVolume.Spec pv).
Proof.
  exists (row pv). split; [apply currRow_returns|].
  unfold row, row_of_view. split; row_lookup.
Qed.

(** The cell capacity of a volume's row determines the quantity, when
    the quantity is in canonical form: the cell is absent exactly when
    the volume has no such quantity, and reading a cell that is
    present gives the quantity back. *)
Theorem pv_currRow_capacity_read t pv :
  let capacity := PersistentVolumeSpec.Capacity (PersistentVolume.Spec pv) !! "storage" in
  (∀ q, capacity = Some q → canonical q) →
  ∃ r, returns (currRow t pv) r ∧
    (r !! "capacity" = None ↔ capacity = None) ∧ r !! "capacity" ≫= read_quantity = capacity.
Proof.
  intros capacity Hcapacity. exists (row pv). split; [apply currRow_returns|].
  apply read_quantity_cell; [|done]. unfold row, row_of_view. row_lookup.
Qed.

Lemma row_nodeaffinity pv :
  row pv !! "nodeaffinity"
  = affinity_text <$> PersistentVolumeSpec.NodeAffinity (PersistentVolume.Spec pv).
Proof. unfold row, row_of_view. row_lookup. Qed.

(** C8: the key nodeaffinity of a volume's row is present exactly when
    the node affinity pointer is non-nil, and holds what the encoder
    gives for the structure: its text, or the empty string when it
    reports an error. *)
Theorem pv_currRow_nodeaffinity t pv :
  ∃ r, returns (currRow t pv) r ∧
    r !! "nodeaffinity"
      = affinity_text <$> PersistentVolumeSpec.NodeAffinity (PersistentVolume.Spec pv).
Proof. exists (row pv). split; [apply currRow_returns|apply row_nodeaffinity]. Qed.

Lemma dom_row_local_pv (c : C) :
  dom (row local_pv) = list_to_set (column_names (Columns (NewPersistentVolumesTable c))).
Proof.
  apply set_eq. intros k. rewrite elem_of_dom. simpl.
  rewrite !elem_of_union, !elem_of_singleton, elem_of_empty.
  split.
  - intros [v Hv]. apply (row_in_schema_lookup _ _ _ _ (row_in_schema_columns c local_pv)) in Hv.
    revert Hv. simpl. set_solver.
  - intros Hk. destruct_or!; subst; try done; vm_compute; eauto.
Qed.

(** C24: the keys of a volume's row are among the six columns that the
    constructor declares, and a volume with every optional field set
    has all six. *)
Theorem pv_currRow_keys_declared (c : C) pv :
  let t := NewPersistentVolumesTable c in
  let declared : gset string := list_to_set (column_names (Columns t)) in
  (∃ r, returns (currRow t pv) r ∧ dom r ⊆ declared) ∧
  (∃ r, returns (currRow t local_pv) r ∧ dom r = declared).
Proof.
  intros t declared. split.
  - exists (row pv). split; [apply currRow_returns|apply (row_in_schema_columns c)].
  - exists (row local_pv). split; [apply currRow_returns|apply dom_row_local_pv].
Qed.

(** A volume's row has at least the three unconditional keys and at
    most the six columns. *)
Lemma pv_currRow_size t pv : ∃ r, returns (currRow t pv) r ∧ 3 ≤ size r ≤ 6.
Proof.
  exists (row pv). split; [apply currRow_returns|].
  unfold row. rewrite volumes_size_row_of_view. repeat case_match; lia.
Qed.

(** A volume with no storage class still gets the key
    storageclass_name, with the empty string as its value. *)
Theorem pv_storageclass_never_omitted t pv :
  PersistentVolumeSpec.StorageClassName (PersistentVolume.Spec pv) = "" →
  ∃ r, returns (currRow t pv) r ∧ r !! "storageclass_name" = Some "".
Proof.
  intros Hc. exists (row pv). split; [apply currRow_returns|].
  unfold row, row_of_view. row_lookup. by f_equal.
Qed.

(** C26: an error of the encoder does not stop the row of a volume
    from being built: the row is returned, without a panic and without
    a log line, and its cell nodeaffinity is the empty string; the
    other cells are as they are without the error. *)
Theorem pv_currRow_encoder_error t pv a bytes e :
  PersistentVolumeSpec.NodeAffinity (PersistentVolume.Spec pv) = Some a →
  Marshal a = (bytes, Some e) →
  ∃ r, returns (currRow t pv) r ∧ r !! "nodeaffinity" = Some "" ∧
       delete "nodeaffinity" r
       = set_path pv (set_capacity pv (currRow_literal pv)).
Proof.
  intros Hpv Ha. exists (row pv). split; [apply currRow_returns|].
  rewrite row_nodeaffinity, Hpv. simpl. rewrite (affinity_text_error a bytes e Ha).
  split; [done|]. unfold row, row_of_view.
  rewrite set_path_insert_opt, volumes_set_capacity_insert_opt.
  apply delete_insert_opt. row_lookup.
Qed.

End rows.

Section json_rows.

(** The cell nodeaffinity of a volume's row stands for the node
    affinity of the volume: it is absent exactly when the volume has
    none, and otherwise its text reads back to the structure. *)
Lemma row_nodeaffinity_decode pv :
  (row pv !! "nodeaffinity" = None
   ↔ PersistentVolumeSpec.NodeAffinity (PersistentVolume.Spec pv) = None) ∧
  row pv !! "nodeaffinity" ≫= decode
  = clean <$> PersistentVolumeSpec.NodeAffinity (PersistentVolume.Spec pv).
Proof.
  rewrite row_nodeaffinity, fmap_None. split; [done|].
  destruct (PersistentVolumeSpec.NodeAffinity _) as [a|]; [apply decode_marshal|done].
Qed.

End json_rows.

Lemma pv_getNodeAffinity_encoder_error_witness :
  returns (getNodeAffinity (enc := broken (errors_New "unsupported type"))
             (NewPersistentVolumesTable cluster) (Some on_node_1)) "".
Proof.
  exact (pv_getNodeAffinity_encoder_error (enc := broken (errors_New "unsupported type"))
           (NewPersistentVolumesTable cluster) on_node_1 "" _ eq_refl).
Defined.

Lemma pv_currRow_encoder_error_witness :
  ∃ r, returns (currRow (enc := broken (errors_New "unsupported type"))
                  (NewPersistentVolumesTable cluster) local_pv) r ∧
       r !! "nodeaffinity" = Some "" ∧
       delete "nodeaffinity" r
       = set_path local_pv (set_capacity local_pv (currRow_literal local_pv)).
Proof.
  exact (pv_currRow_encoder_error (enc := broken (errors_New "unsupported type"))
           (NewPersistentVolumesTable cluster) local_pv on_node_1 "" _ eq_refl eq_refl).
Defined.

Lemma pv_storageclass_never_omitted_witness :
  ∃ r, returns (currRow (NewPersistentVolumesTable cluster) nfs_pv) r ∧
       r !! "storageclass_name" = Some "".
Proof. apply pv_storageclass_never_omitted. reflexivity. Defined.

(** The scenario of the specification: a volume with neither a local
    path nor a node affinity gets neither [path] nor [nodeaffinity]. *)
Example currRow_nfs_pv {C} (t : t C) :
  returns (currRow t nfs_pv)
    {[ "name" := "nfs-1"; "status" := "Available"; "storageclass_name" := "" ]}.
Proof.
  match goal with |- returns _ ?r => replace r with (row nfs_pv) end;
    [apply currRow_returns|].
  row_eq (row_in_schema_columns () nfs_pv).
Qed.

(** A local volume pinned to a node: all six keys, the node affinity
    as compact JSON text. *)
Example currRow_local_pv {C} (t : t C) :
  returns (currRow t local_pv)
    {[ "name" := "pv-7"; "status" := "Bound"; "storageclass_name" := "local-storage";
       "capacity" := "10Gi"; "path" := "/mnt/disks/ssd1";
       "nodeaffinity" :=
         "{" +:+ quoted "required" +:+ ":{" +:+ quoted "nodeSelectorTerms" +:+ ":[{" +:+
         quoted "matchExpressions" +:+ ":[{" +:+ quoted "key" +:+ ":" +:+
         quoted "kubernetes.io/hostname" +:+ "," +:+ quoted "operator" +:+ ":" +:+
         quoted "In" +:+ "," +:+ quoted "values" +:+ ":[" +:+ quoted "node-1" +:+
         "]}]}]}}" ]}.
Proof.
  match goal with |- returns _ ?r => replace r with (row local_pv) end;
    [apply currRow_returns|].
  row_eq (row_in_schema_columns () local_pv).
Qed.

(** ** Generate *)

Section generate.
Context {enc : Encoder} `{Interface C}.
Implicit Types (t : t C) (ctx : Context.t) (q : QueryContext.t) (log : Log).

(** The answer of the lister to the call that [Generate] makes. *)
Definition listing t : ListResult PersistentVolumeList.t :=
  PersistentVolumes_List (client t) ListOptions.zero.

Lemma volumes_fill_rows_returns t items : returns (fill_rows t items) (rows_of items).
Proof. apply (fill_go_returns_project row), currRow_returns. Qed.

(** [Generate] is the shared projection, at the volumes' list call, row
    and log line. *)
Lemma volumes_Generate_project t ctx q log :
  Generate t ctx q log = project_all PersistentVolumeList.Items row list_failed (listing t) log.
Proof.
  unfold Generate, project_all, listing.
  destruct (PersistentVolumes_List _ _) as [[l|] [e|]]; simpl; try done.
  rewrite go_bind_ret_l. by rewrite (go_bind_returns _ _ _ _ (volumes_fill_rows_returns _ _)).
Qed.

(** Of the table, [Generate] reads the client and nothing else: not
    the name, the columns or the metrics client, and neither the
    context nor the query that it is given. *)
Lemma volumes_Generate_client t t' ctx ctx' q q' log :
  client t = client t' → Generate t ctx q log = Generate t' ctx' q' log.
Proof. intros Hc. by rewrite !volumes_Generate_project; unfold listing; rewrite Hc. Qed.

(** C2: when the lister answers with a list and no error, Generate on
    the volumes table returns one row per volume, in the order of the
    list, each the row of its volume and none nil, with a nil error,
    and logs nothing. *)
Theorem pv_Generate_rows t ctx q log l :
  listing t = (Some l, None) →
  Generate t ctx q log = (Done (Some (rows_of (PersistentVolumeList.Items l)), None), log).
Proof. intros Hl. by rewrite volumes_Generate_project, Hl. Qed.

(** C4: when the lister answers with an error, Generate on the volumes
    table returns that error with a nil slice, never a partial list,
    and logs the line "could not list pvs from k8s api" once. *)
Theorem pv_Generate_lister_error t ctx q log pvs e :
  listing t = (pvs, Some e) →
  Generate t ctx q log = (Done (None, Some e), log ++ [list_failed]).
Proof. intros Hl. rewrite volumes_Generate_project, Hl. by apply project_all_error. Qed.

(** C11: with a client that keeps the contract of the typed clients, no
    run of Generate on the volumes table panics, whatever the encoder
    answers: neither the list nor a node affinity is dereferenced when
    nil, and every index written is within the slice. *)
Theorem pv_Generate_never_panics `{!WellBehaved C} t ctx q :
  never_panics (Generate t ctx q).
Proof.
  intros log. rewrite volumes_Generate_project.
  apply project_all_never_panics, PersistentVolumes_List_wf.
Qed.

(** C40: when the lister answers with neither a list nor an error,
    Generate on the volumes table panics on the nil list. *)
Theorem pv_Generate_nil_list_panics t ctx q log :
  listing t = (None, None) →
  Generate t ctx q log = (Panicked nil_dereference, log).
Proof. intros Hl. by rewrite volumes_Generate_project, Hl. Qed.

(** A run of Generate on the volumes table that returns rows
    returns no error, as many rows as the lister returned volumes, and
    leaves the log unchanged. *)
Theorem pv_Generate_row_count t ctx q log rows err log' :
  Generate t ctx q log = (Done (Some rows, err), log') →
  err = None ∧ log' = log ∧
  ∃ l, listing t = (Some l, None) ∧ length rows = length (PersistentVolumeList.Items l).
Proof.
  rewrite volumes_Generate_project.
  intros [(e & _ & [=] & _)|(l & Hl & [= -> ->] & ->)]%project_all_done.
  split_and!; [done..|]. exists l. split; [done|apply length_project].
Qed.

(** Calling Generate on the volumes table a second time, with any
    context and predicates, after whatever the first call logged,
    returns what the first call returned: the same rows in the same
    order, or the same error. *)
Theorem pv_Generate_twice t ctx q ctx' q' log :
  (Generate t ctx' q' (Generate t ctx q log).2).1 = (Generate t ctx q log).1.
Proof. rewrite !volumes_Generate_project. apply project_all_outcome. Qed.

(** A run of Generate on a volumes table built by the constructor
    that ends normally returns an error and no rows, or no error and
    non-nil rows whose keys are declared columns. *)
Theorem pv_Generate_result_ok (c : C) ctx q log r log' :
  let t := NewPersistentVolumesTable c in
  Generate t ctx q log = (Done r, log') → result_ok (Columns t) r.
Proof.
  intros t. rewrite volumes_Generate_project. apply project_all_result_ok.
  intros pv. apply row_in_schema_columns.
Qed.

Lemma volumes_Generate_log_extends t ctx q : log_extends (Generate t ctx q).
Proof. intros log. rewrite volumes_Generate_project. apply project_all_log_extends. Qed.

End generate.

Section json_generate.
Context `{Interface C}.
Implicit Types (t : t C) (ctx : Context.t) (q : QueryContext.t) (log : Log).

(** C29: the column nodeaffinity of the rows that Generate returns can
    be interpreted.  When the lister answers with a list, Generate on
    the volumes table returns one row per volume; the cell
    nodeaffinity of a row is absent exactly when its volume has no
    node affinity, no placeholder stands for a missing one, and a cell
    that is present, read back as JSON and through the field tags, is
    the node affinity of the volume, cleaned. *)
Theorem pv_Generate_nodeaffinity t ctx q log l :
  listing t = (Some l, None) →
  ∃ rows, Generate t ctx q log = (Done (Some rows, None), log) ∧
    Forall2 (λ pv r, ∃ row, r = Some row ∧
               (row !! "nodeaffinity" = None
                ↔ PersistentVolumeSpec.NodeAffinity (PersistentVolume.Spec pv) = None) ∧
               row !! "nodeaffinity" ≫= decode
               = clean <$> PersistentVolumeSpec.NodeAffinity (PersistentVolume.Spec pv))
      (PersistentVolumeList.Items l) rows.
Proof.
  intros Hl. exists (rows_of (PersistentVolumeList.Items l)).
  split; [by rewrite volumes_Generate_project, Hl|].
  apply Forall2_fmap_r, Forall_Forall2_diag, Forall_true. intros pv.
  exists (row pv). split; [done|apply row_nodeaffinity_decode].
Qed.

End json_generate.

(** ** The theorems at concrete clusters *)

Lemma pv_Generate_rows_witness :
  Generate (NewPersistentVolumesTable cluster) Context.Background QueryContext.empty []
  = (Done (Some (rows_of [local_pv; nfs_pv]), None), []).
Proof.
  exact (pv_Generate_rows (NewPersistentVolumesTable cluster) Context.Background
           QueryContext.empty [] _ eq_refl).
Defined.

Lemma pv_Generate_nodeaffinity_witness :
  ∃ rows,
    Generate (NewPersistentVolumesTable cluster) Context.Background QueryContext.empty []
    = (Done (Some rows, None), []) ∧
    Forall2 (λ pv r, ∃ row, r = Some row ∧
               (row !! "nodeaffinity" = None
                ↔ PersistentVolumeSpec.NodeAffinity (PersistentVolume.Spec pv) = None) ∧
               row !! "nodeaffinity" ≫= decode
               = clean <$> PersistentVolumeSpec.NodeAffinity (PersistentVolume.Spec pv))
      [local_pv; nfs_pv] rows.
Proof.
  exact (pv_Generate_nodeaffinity (NewPersistentVolumesTable cluster) Context.Background
           QueryContext.empty [] _ eq_refl).
Defined.

Lemma pv_Generate_lister_error_witness :
  Generate (NewPersistentVolumesTable unreachable) Context.Background QueryContext.empty []
  = (Done (None, Some (errors_New "connection refused")),
     ["could not list pvs from k8s api"]).
Proof.
  exact (pv_Generate_lister_error (NewPersistentVolumesTable unreachable)
           Context.Background QueryContext.empty [] _ _ eq_refl).
Defined.

Lemma pv_Generate_never_panics_witness :
  never_panics (Generate (NewPersistentVolumesTable cluster) Context.Background
                  QueryContext.empty).
Proof. apply (pv_Generate_never_panics (WellBehaved0:=FakeClient.well_behaved)). Defined.

Lemma pv_Generate_nil_list_panics_witness :
  Generate (NewPersistentVolumesTable NilClient.mk) Context.Background QueryContext.empty []
  = (Panicked nil_dereference, []).
Proof. apply pv_Generate_nil_list_panics. reflexivity. Defined.

Lemma pv_Generate_row_count_witness :
  ∃ l, listing (NewPersistentVolumesTable cluster) = (Some l, None) ∧
       length (rows_of [local_pv; nfs_pv]) = length (PersistentVolumeList.Items l).
Proof.
  apply (pv_Generate_row_count (NewPersistentVolumesTable cluster) Context.Background
           QueryContext.empty [] _ None []).
  reflexivity.
Defined.

Lemma pv_Generate_result_ok_witness :
  result_ok (Columns (NewPersistentVolumesTable cluster))
    (Some (rows_of [local_pv; nfs_pv]), None).
Proof.
  apply (pv_Generate_result_ok cluster Context.Background QueryContext.empty [] _ []).
  reflexivity.
Defined.

End PersistentVolumesTable.
