(* ===== verification/TableSpec.v ===== *)
(** * TableSpec: what the adapters promise, and that they keep it

    The specification of the system describes a table abstractly: a
    closed enumeration of columns, a row as a partial map from columns
    to text, and [Generate] as a function of the lister's answer that
    yields the error or one row per object.  The first section states
    that specification generically ([tabulate], [abs_row],
    [spec_generate]) and proves that every instance of the shared
    projection refines it.  Modules [ClaimsSpec] and [VolumesSpec]
    instantiate it: the enumeration of columns, the name of each
    column, and the cell that the specification prescribes for an
    object and a column, with the theorems that the row builder and
    [Generate] of each adapter refine the specification. *)

From stdpp Require Import finite.
From S2P Require Import Prelude Quantity CoreV1 Json KubeClient OsqueryTable Projection.
From S2P Require Import PersistentVolumeClaims PersistentVolumes.

(** ** Rows over a closed enumeration of columns *)

Section abstract.
Context `{Finite Col} (col_name : Col → string) `{!Inj (=) (=) col_name}.

(** An abstract row: a partial map over the columns. *)
Local Abbreviation AbsRow := (gmap Col string).

(** The abstract row with the given cells. *)
Definition tabulate (cell : Col → option string) : AbsRow :=
  list_to_map (omap (λ c, pair c <$> cell c) (enum Col)).

(** The abstraction of a concrete row: its cells by column name. *)
Definition abs_row (row : Row) : AbsRow := tabulate (λ c, row !! col_name c).

(** The concrete row of an abstract one. *)
Definition conc_row (a : AbsRow) : Row := kmap col_name a.

(** What [Generate] yields, abstractly: the error, or the rows. *)
Definition abs_rows (rows : list (option Row)) : option (list AbsRow) :=
  mapM (fmap abs_row) rows.

Definition abs_result (r : GenerateResult) : option (error + list AbsRow) :=
  match r with
  | (None, Some e) => Some (inl e)
  | (Some rows, None) => inr <$> abs_rows rows
  | _ => None
  end.

Lemma lookup_tabulate_list cell (cols : list Col) c :
  c ∈ cols →
  (list_to_map (omap (λ c, pair c <$> cell c) cols) : AbsRow) !! c = cell c.
Proof.
  induction cols as [|c0 cols IH]; [by intros ?%elem_of_nil|].
  intros Hc. simpl. destruct (decide (c = c0)) as [->|Hne].
  - destruct (cell c0) as [v|] eqn:Hv; simpl; [by rewrite lookup_insert_eq|].
    apply not_elem_of_list_to_map. rewrite list_elem_of_fmap.
    intros ([c' v] & -> & (c'' & _ & Hv')%list_elem_of_omap).
    destruct (cell c'') eqn:E; simplify_eq/=.
  - apply elem_of_cons in Hc as [?|Hc]; [done|].
    destruct (cell c0); simpl; [rewrite lookup_insert_ne by done|]; by apply IH.
Qed.

Lemma lookup_tabulate cell c : tabulate cell !! c = cell c.
Proof. apply lookup_tabulate_list, elem_of_enum. Qed.

Lemma lookup_abs_row row c : abs_row row !! c = row !! col_name c.
Proof. apply lookup_tabulate. Qed.

(** Abstraction after concretisation is the identity. *)
Lemma abs_conc_row a : abs_row (conc_row a) = a.
Proof. apply map_eq. intros c. rewrite lookup_abs_row. apply (lookup_kmap _). Qed.

(** A row whose keys are all column names is determined by its
    abstraction. *)
Lemma conc_abs_row row :
  (∀ k, is_Some (row !! k) → ∃ c, k = col_name c) → conc_row (abs_row row) = row.
Proof.
  intros Hkeys. apply map_eq. intros k. unfold conc_row.
  destruct (row !! k) as [v|] eqn:Hk.
  - destruct (Hkeys k) as [c ->]; [by rewrite Hk|].
    by rewrite (lookup_kmap _), lookup_abs_row.
  - apply (lookup_kmap_None _). intros c ->. by rewrite lookup_abs_row.
Qed.

(** ** The specification of [Generate], and its refinement *)

Section refinement.
Context {O L : Type} (items : L → list O).
(** the cell that the specification prescribes for an object and a
    column *)
Context (cell : O → Col → option string).
(** the row that the code builds, and the line it logs *)
Context (row : O → Row) (line : string).

Definition spec_rows (l : L) : list AbsRow := (λ o, tabulate (cell o)) <$> items l.

(** The specification: the error when there is one, the rows of the
    list otherwise; nothing is promised to a lister that returns
    neither. *)
Definition spec_generate (r : ListResult L) : option (error + list AbsRow) :=
  match r.2, r.1 with
  | Some e, _ => Some (inl e)
  | None, Some l => Some (inr (spec_rows l))
  | None, None => None
  end.

Hypothesis row_cell : ∀ o c, row o !! col_name c = cell o c.

Lemma abs_row_cell o : abs_row (row o) = tabulate (cell o).
Proof. apply map_eq. intros c. by rewrite lookup_abs_row, lookup_tabulate. Qed.

Lemma abs_rows_project l : abs_rows (project items row l) = Some (spec_rows l).
Proof.
  unfold abs_rows, project, spec_rows. apply mapM_Some.
  induction (items l) as [|o os IH]; simpl; constructor; [|done].
  csimpl. by rewrite abs_row_cell.
Qed.

(** Every normal end of the projection is the abstract result that the
    specification prescribes for the lister's answer. *)
Lemma project_all_refines r log res log' :
  project_all items row line r log = (Done res, log') →
  abs_result res = spec_generate r.
Proof.
  intros [(e & He & -> & _)|(l & -> & -> & _)]%project_all_done; simpl.
  - unfold spec_generate. by rewrite He.
  - by rewrite abs_rows_project.
Qed.

(** Under the clients' contract the projection ends normally, so the
    specification is met and not only respected. *)
Lemma project_all_implements r log :
  well_formed r →
  ∃ res log', project_all items row line r log = (Done res, log') ∧
              abs_result res = spec_generate r ∧ is_Some (spec_generate r).
Proof.
  intros Hwf. destruct (project_all_never_panics items row line r Hwf log) as (res & log' & Hrun).
  exists res, log'. split; [done|]. split; [by eapply project_all_refines|].
  unfold spec_generate. destruct r as [[l|] [e|]]; simpl; eauto.
  by destruct (Hwf eq_refl).
Qed.

End refinement.

End abstract.

(** ** The claims table *)

Module ClaimsSpec.

(** The columns of the specification: a closed enumeration. *)
Inductive Column : Type :=
| ColName | ColStatus | ColStorageClassName | ColCapacity | ColRequested
| ColVolumeName | ColVolumeMode.

#[global] Instance Column_eq_dec : EqDecision Column.
Proof. solve_decision. Defined.

#[global] Instance Column_finite : Finite Column.
Proof.
  refine {| enum := [ColName; ColStatus; ColStorageClassName; ColCapacity; ColRequested;
                     ColVolumeName; ColVolumeMode] |}.
  - by apply (bool_decide_unpack _).
  - intros []; set_solver.
Defined.

Definition col_name (c : Column) : string :=
  match c with
  | ColName => "name"
  | ColStatus => "status"
  | ColStorageClassName => "storageclass_name"
  | ColCapacity => "capacity"
  | ColRequested => "requested"
  | ColVolumeName => "volumename"
  | ColVolumeMode => "volumemode"
  end.

#[global] Instance col_name_inj : Inj (=) (=) col_name.
Proof. intros [] [] ?; by simplify_eq/=. Qed.

(** The cell that a claim has in a column. *)
Definition cell (pvc : PersistentVolumeClaim.t) (c : Column) : option string :=
  let spec := PersistentVolumeClaim.Spec pvc in
  let status := PersistentVolumeClaim.Status pvc in
  match c with
  | ColName => Some (ObjectMeta.Name (PersistentVolumeClaim.ObjectMeta pvc))
  | ColStatus => Some (PersistentVolumeClaimStatus.Phase status)
  | ColVolumeName => Some (PersistentVolumeClaimSpec.VolumeName spec)
  | ColStorageClassName => PersistentVolumeClaimSpec.StorageClassName spec
  | ColVolumeMode => PersistentVolumeClaimSpec.VolumeMode spec
  | ColCapacity =>
      Quantity.String <$> PersistentVolumeClaimStatus.Capacity status !! "storage"
  | ColRequested =>
      Quantity.String <$>
        ResourceRequirements.Requests (PersistentVolumeClaimSpec.Resources spec) !! "storage"
  end.

(** The abstract row of a claim and the specification of [Generate]. *)
Definition spec_row (pvc : PersistentVolumeClaim.t) : gmap Column string :=
  tabulate (cell pvc).

Definition generate (r : ListResult PersistentVolumeClaimList.t)
    : option (error + list (gmap Column string)) :=
  spec_generate PersistentVolumeClaimList.Items cell r.

Lemma claims_column_names_enum {C} (c : C) :
  column_names
    (PersistentVolumeClaimsTable.Columns
       (PersistentVolumeClaimsTable.NewPersistentVolumeClaimsTable c))
  = col_name <$> enum Column.
Proof. done. Qed.

Lemma currRow_cell pvc c : PersistentVolumeClaimsTable.currRow pvc !! col_name c = cell pvc c.
Proof.
  rewrite PersistentVolumeClaimsTable.currRow_view.
  unfold PersistentVolumeClaimsTable.row_of_view. destruct c; simpl; row_lookup.
Qed.

Lemma currRow_keys pvc k :
  is_Some (PersistentVolumeClaimsTable.currRow pvc !! k) → ∃ c, k = col_name c.
Proof.
  intros [v Hv].
  eapply row_in_schema_lookup in Hv; [|apply (PersistentVolumeClaimsTable.currRow_in_schema ())].
  rewrite claims_column_names_enum in Hv. apply list_elem_of_fmap in Hv as (c & -> & _). eauto.
Qed.

(** C19: the row that the code builds for a claim is the concrete form
    of the abstract row of the specification: for every column, the
    cell that the specification prescribes, under the column's name,
    and no other key. *)
Theorem pvc_currRow_refines pvc :
  PersistentVolumeClaimsTable.currRow pvc = conc_row col_name (spec_row pvc) ∧
  abs_row col_name (PersistentVolumeClaimsTable.currRow pvc) = spec_row pvc.
Proof.
  assert (abs_row col_name (PersistentVolumeClaimsTable.currRow pvc) = spec_row pvc) as Habs.
  { apply (abs_row_cell col_name cell), currRow_cell. }
  split; [|done]. rewrite <-Habs. symmetry.
  apply (conc_abs_row col_name). intros k. apply currRow_keys.
Qed.

Section generate.
Context `{Interface C}.

(** C17: Generate of the claims table implements the specification:
    when the lister keeps its contract, the run ends normally and its
    result, read as abstract rows, is the error of the lister or one
    abstract row per claim, as the specification prescribes. *)
Theorem pvc_Generate_refines (t : PersistentVolumeClaimsTable.t C) ctx q log :
  well_formed (PersistentVolumeClaimsTable.listing t) →
  ∃ res log',
    PersistentVolumeClaimsTable.Generate t ctx q log = (Done res, log') ∧
    abs_result col_name res = generate (PersistentVolumeClaimsTable.listing t) ∧
    is_Some (generate (PersistentVolumeClaimsTable.listing t)).
Proof.
  intros Hwf.
  destruct (project_all_implements col_name PersistentVolumeClaimList.Items cell
              PersistentVolumeClaimsTable.currRow PersistentVolumeClaimsTable.list_failed
              currRow_cell _ log Hwf) as (res & log' & Hrun & Habs & Hsome).
  exists res, log'. by rewrite PersistentVolumeClaimsTable.claims_Generate_project.
Qed.

End generate.

Lemma pvc_Generate_refines_witness :
  let t := PersistentVolumeClaimsTable.NewPersistentVolumeClaimsTable
             PersistentVolumeClaimsTable.cluster in
  ∃ res log',
    PersistentVolumeClaimsTable.Generate t Context.Background QueryContext.empty []
      = (Done res, log') ∧
    abs_result col_name res = generate (PersistentVolumeClaimsTable.listing t) ∧
    is_Some (generate (PersistentVolumeClaimsTable.listing t)).
Proof. apply pvc_Generate_refines. intros _. by eexists. Defined.

End ClaimsSpec.

(** ** The volumes table *)

Module VolumesSpec.

Inductive Column : Type :=
| ColName | ColStatus | ColCapacity | ColPath | ColStorageClassName | ColNodeAffinity.

#[global] Instance Column_eq_dec : EqDecision Column.
Proof. solve_decision. Defined.

#[global] Instance Column_finite : Finite Column.
Proof.
  refine {| enum := [ColName; ColStatus; ColCapacity; ColPath; ColStorageClassName;
                     ColNodeAffinity] |}.
  - by apply (bool_decide_unpack _).
  - intros []; set_solver.
Defined.

Definition col_name (c : Column) : string :=
  match c with
  | ColName => "name"
  | ColStatus => "status"
  | ColCapacity => "capacity"
  | ColPath => "path"
  | ColStorageClassName => "storageclass_name"
  | ColNodeAffinity => "nodeaffinity"
  end.

#[global] Instance col_name_inj : Inj (=) (=) col_name.
Proof. intros [] [] ?; by simplify_eq/=. Qed.

Section with_encoder.
Context {enc : Encoder}.

(** The cell that a volume has in a column. *)
Definition cell (pv : PersistentVolume.t) (c : Column) : option string :=
  let spec := PersistentVolume.Spec pv in
  match c with
  | ColName => Some (ObjectMeta.Name (PersistentVolume.ObjectMeta pv))
  | ColStatus => Some (PersistentVolumeStatus.Phase (PersistentVolume.Status pv))
  | ColStorageClassName => Some (PersistentVolumeSpec.StorageClassName spec)
  | ColCapacity => Quantity.String <$> PersistentVolumeSpec.Capacity spec !! "storage"
  | ColPath => LocalVolumeSource.Path <$> PersistentVolumeSpec.Local spec
  | ColNodeAffinity =>
      PersistentVolumesTable.affinity_text <$> PersistentVolumeSpec.NodeAffinity spec
  end.

Definition spec_row (pv : PersistentVolume.t) : gmap Column string := tabulate (cell pv).

Definition generate (r : ListResult PersistentVolumeList.t)
    : option (error + list (gmap Column string)) :=
  spec_generate PersistentVolumeList.Items cell r.

Lemma volumes_column_names_enum {C} (c : C) :
  column_names
    (PersistentVolumesTable.Columns (PersistentVolumesTable.NewPersistentVolumesTable c))
  = col_name <$> enum Column.
Proof. done. Qed.

Lemma row_cell pv c : PersistentVolumesTable.row pv !! col_name c = cell pv c.
Proof.
  unfold PersistentVolumesTable.row, PersistentVolumesTable.row_of_view.
  destruct c; simpl; row_lookup.
Qed.

Lemma row_keys pv k : is_Some (PersistentVolumesTable.row pv !! k) → ∃ c, k = col_name c.
Proof.
  intros [v Hv].
  eapply row_in_schema_lookup in Hv; [|apply (PersistentVolumesTable.row_in_schema_columns ())].
  rewrite volumes_column_names_enum in Hv. apply list_elem_of_fmap in Hv as (c & -> & _). eauto.
Qed.

(** C20: building the row of a volume returns the concrete form of the
    abstract row of the specification: for every column, the cell that
    the specification prescribes, under the column's name, and no
    other key. *)
Theorem pv_currRow_refines {C} (t : PersistentVolumesTable.t C) pv :
  ∃ r, returns (PersistentVolumesTable.currRow t pv) r ∧
       r = conc_row col_name (spec_row pv) ∧ abs_row col_name r = spec_row pv.
Proof.
  exists (PersistentVolumesTable.row pv).
  split; [apply PersistentVolumesTable.currRow_returns|].
  assert (abs_row col_name (PersistentVolumesTable.row pv) = spec_row pv) as Habs.
  { apply (abs_row_cell col_name cell), row_cell. }
  split; [|done]. rewrite <-Habs. symmetry.
  apply (conc_abs_row col_name). intros k. apply row_keys.
Qed.

Section generate.
Context `{Interface C}.

(** C18: Generate of the volumes table implements the specification:
    when the lister keeps its contract, the run ends normally and its
    result, read as abstract rows, is the error of the lister or one
    abstract row per volume, as the specification prescribes. *)
Theorem pv_Generate_refines (t : PersistentVolumesTable.t C) ctx q log :
  well_formed (PersistentVolumesTable.listing t) →
  ∃ res log',
    PersistentVolumesTable.Generate t ctx q log = (Done res, log') ∧
    abs_result col_name res = generate (PersistentVolumesTable.listing t) ∧
    is_Some (generate (PersistentVolumesTable.listing t)).
Proof.
  intros Hwf.
  destruct (project_all_implements col_name PersistentVolumeList.Items cell
              PersistentVolumesTable.row PersistentVolumesTable.list_failed
              row_cell _ log Hwf) as (res & log' & Hrun & Habs & Hsome).
  exists res, log'. by rewrite PersistentVolumesTable.volumes_Generate_project.
Qed.

End generate.

End with_encoder.

Lemma pv_Generate_refines_witness :
  let t := PersistentVolumesTable.NewPersistentVolumesTable PersistentVolumesTable.cluster in
  ∃ res log',
    PersistentVolumesTable.Generate t Context.Background QueryContext.empty []
      = (Done res, log') ∧
    abs_result col_name res = generate (PersistentVolumesTable.listing t) ∧
    is_Some (generate (PersistentVolumesTable.listing t)).
Proof. apply pv_Generate_refines. intros _. by eexists. Defined.

End VolumesSpec.
