(* ===== verification/TableContract.v ===== *)
(** * TableContract: the two adapters behind the engine's table interface

    The engine sees a table through three methods ([Table.t] of
    OsqueryTable).  This file gives the instance of that interface for
    each adapter, proves the laws that the engine relies on
    ([TableLaws]) for the tables that the constructors return, and
    proves against the laws alone what a client of the interface gets:
    a series of queries against one table ([serve]) gives the same
    result every time, whatever the predicates, and only ever adds
    lines to the log.  The statements for the two adapters are
    corollaries. *)

From S2P Require Import Prelude Quantity CoreV1 Json KubeClient OsqueryTable Projection.
From S2P Require Import PersistentVolumeClaims PersistentVolumes.

(** ** A client of the interface *)

Section client.
Context {T : Type} `{Table.t T}.

(** The engine asking one table a series of queries, one after the
    other, each with its own context and predicates. *)
Fixpoint serve (tbl : T) (queries : list (Context.t * QueryContext.t))
    : Go (list GenerateResult) :=
  match queries with
  | [] => mret []
  | (ctx, q) :: queries =>
      r ← Table.Generate tbl ctx q;
      rs ← serve tbl queries;
      mret (r :: rs)
  end.

Context (built : T → Prop) `{!TableLaws T built}.

(** A second call returns what the first returned. *)
Lemma generate_again tbl ctx q ctx' q' log :
  (Table.Generate tbl ctx' q' (Table.Generate tbl ctx q log).2).1
  = (Table.Generate tbl ctx q log).1.
Proof.
  rewrite (generate_full_scan tbl ctx' ctx q' q). apply generate_stateless.
Qed.

(** A call that ends normally ends normally from any log, with the
    same result. *)
Lemma generate_done_any tbl ctx q log r log1 ctx' q' log' :
  Table.Generate tbl ctx q log = (Done r, log1) →
  ∃ log2, Table.Generate tbl ctx' q' log' = (Done r, log2).
Proof.
  intros Hrun.
  pose proof (generate_stateless tbl ctx q log log') as Heq.
  rewrite Hrun, (generate_full_scan tbl ctx ctx' q q') in Heq.
  destruct (Table.Generate tbl ctx' q' log') as [o log2]; simpl in *; subst. eauto.
Qed.

(** A series of queries returns the same result every time. *)
Lemma serve_constant tbl ctx q log r log1 queries log' :
  Table.Generate tbl ctx q log = (Done r, log1) →
  ∃ log2, serve tbl queries log' = (Done (replicate (length queries) r), log2).
Proof.
  intros Hrun. revert log'.
  induction queries as [|[ctx' q'] queries IH]; intros log'; simpl; [by eexists|].
  destruct (generate_done_any _ _ _ _ _ _ ctx' q' log' Hrun) as [log2 Hgen].
  destruct (IH log2) as [log3 Hrest].
  exists log3. go_unfold. by rewrite Hgen, Hrest.
Qed.

(** A series of queries only adds lines to the log. *)
Lemma serve_log_extends tbl queries : log_extends (serve tbl queries).
Proof.
  induction queries as [|[ctx q] queries IH]; intros log; simpl.
  - exists []. by rewrite app_nil_r.
  - go_unfold. destruct (generate_log_extends tbl ctx q log) as [l1 Hl1].
    destruct (Table.Generate tbl ctx q log) as [[r|reason] log1]; simpl in *; [|eauto].
    destruct (IH log1) as [l2 Hl2].
    destruct (serve tbl queries log1) as [[rs|reason] log2]; simpl in *;
      exists (l1 ++ l2); by rewrite Hl2, Hl1, app_assoc.
Qed.

End client.

(** ** The claims table *)

Module ClaimsContract.
Import PersistentVolumeClaimsTable.

Section with_client.
Context `{Interface C}.

#[global] Instance table : Table.t (PersistentVolumeClaimsTable.t C) := {|
  Table.Name := Name;
  Table.Columns := Columns;
  Table.Generate := Generate;
|}.

(** The tables that the constructor returns. *)
Definition built (t : PersistentVolumeClaimsTable.t C) : Prop :=
  ∃ c, t = NewPersistentVolumeClaimsTable c.

#[global] Instance laws : TableLaws (PersistentVolumeClaimsTable.t C) built.
Proof.
  split.
  - intros ? [c ->]. apply claims_column_list_NoDup.
  - intros ? [c ->]. apply (TextColumn_all_text column_list).
  - done.
  - intros t ctx q log log'. simpl. rewrite !claims_Generate_project. apply project_all_outcome.
  - intros ? ctx q log r log' [c ->]. simpl. rewrite claims_Generate_project.
    apply project_all_result_ok. intros pvc. apply (currRow_in_schema c).
  - intros t ctx q. apply claims_Generate_log_extends.
Qed.

(** C36: a series of queries against the claims table, each with its
    own context and predicates, returns every time the result of a
    single call, and the log afterwards is the log before with lines
    added. *)
Theorem pvc_serve_constant (t : PersistentVolumeClaimsTable.t C) ctx q log r log1
    queries log' :
  Generate t ctx q log = (Done r, log1) →
  ∃ lines, serve t queries log' = (Done (replicate (length queries) r), log' ++ lines).
Proof.
  intros Hrun. change (Table.Generate t ctx q log = (Done r, log1)) in Hrun.
  destruct (serve_constant built t ctx q log r log1 queries log' Hrun) as [log2 Hserve].
  destruct (serve_log_extends built t queries log') as [lines Hlines].
  exists lines. by rewrite Hserve in Hlines |- *; simpl in *; subst.
Qed.

End with_client.

Lemma pvc_serve_constant_witness :
  ∃ lines,
    serve (NewPersistentVolumeClaimsTable cluster)
      [(Context.Background, QueryContext.empty); (Context.Background, QueryContext.empty)]
      ["started"]
    = (Done (replicate 2 (Some (rows_of [data_1; pending_claim]), None)),
       ["started"] ++ lines).
Proof.
  exact (pvc_serve_constant (NewPersistentVolumeClaimsTable cluster) Context.Background
           QueryContext.empty [] _ _
           [(Context.Background, QueryContext.empty); (Context.Background, QueryContext.empty)]
           ["started"] eq_refl).
Defined.

End ClaimsContract.

(** ** The volumes table *)

Module VolumesContract.
Import PersistentVolumesTable.

Section with_client.
Context {enc : Encoder} `{Interface C}.

#[global] Instance table : Table.t (PersistentVolumesTable.t C) := {|
  Table.Name := Name;
  Table.Columns := Columns;
  Table.Generate := Generate;
|}.

(** The tables that the constructor returns. *)
Definition built (t : PersistentVolumesTable.t C) : Prop :=
  ∃ c, t = NewPersistentVolumesTable c.

#[global] Instance laws : TableLaws (PersistentVolumesTable.t C) built.
Proof.
  split.
  - intros ? [c ->]. apply volumes_column_list_NoDup.
  - intros ? [c ->]. apply (TextColumn_all_text column_list).
  - done.
  - intros t ctx q log log'. simpl. rewrite !volumes_Generate_project. apply project_all_outcome.
  - intros ? ctx q log r log' [c ->]. simpl. rewrite volumes_Generate_project.
    apply project_all_result_ok. intros pv. apply (row_in_schema_columns c).
  - intros t ctx q. apply volumes_Generate_log_extends.
Qed.

(** A series of queries against the volumes table, each with its
    own context and predicates, returns every time the result of a
    single call, and the log afterwards is the log before with lines
    added. *)
Theorem pv_serve_constant (t : PersistentVolumesTable.t C) ctx q log r log1
    queries log' :
  Generate t ctx q log = (Done r, log1) →
  ∃ lines, serve t queries log' = (Done (replicate (length queries) r), log' ++ lines).
Proof.
  intros Hrun. change (Table.Generate t ctx q log = (Done r, log1)) in Hrun.
  destruct (serve_constant built t ctx q log r log1 queries log' Hrun) as [log2 Hserve].
  destruct (serve_log_extends built t queries log') as [lines Hlines].
  exists lines. by rewrite Hserve in Hlines |- *; simpl in *; subst.
Qed.

End with_client.

Lemma pv_serve_constant_witness :
  ∃ lines,
    serve (NewPersistentVolumesTable unreachable)
      [(Context.Background, QueryContext.empty); (Context.Background, QueryContext.empty)]
      []
    = (Done (replicate 2 (None, Some (errors_New "connection refused"))), [] ++ lines).
Proof.
  exact (pv_serve_constant (NewPersistentVolumesTable unreachable) Context.Background
           QueryContext.empty [] _ _
           [(Context.Background, QueryContext.empty); (Context.Background, QueryContext.empty)]
           [] eq_refl).
Defined.

End VolumesContract.

(** ** The two tables side by side *)

(** The two constructors name their tables differently, so the
    engine can register both. *)
Lemma table_names_distinct {C D} (c : C) (d : D) :
  PersistentVolumeClaimsTable.Name
    (PersistentVolumeClaimsTable.NewPersistentVolumeClaimsTable c)
  ≠ PersistentVolumesTable.Name (PersistentVolumesTable.NewPersistentVolumesTable d).
Proof. done. Qed.
