(* ===== verification/Interleaving.v ===== *)
(** * Interleaving: several calls of [Generate] at once

    The engine may ask a table again while an earlier query is still
    running.  This file runs [Generate] one statement at a time: a call
    is a [Thread] that is at one of the program points of [Generate]
    (before the call of the lister, after it, in the loop at index [i]
    with the slice [rows] as filled so far, returned, or stopped by a
    panic), [thread_step] executes the statement at that point, and a
    [Config] holds the calls in flight and the one thing they share, the
    log.  [step] lets any unfinished call take its next step.

    Run alone, a thread computes what [Generate] computes
    ([run_called]).  Run together, in any order, the calls cannot
    disturb each other: every reachable configuration satisfies
    [thread_inv] (the slice of a call in the loop holds exactly the rows
    of the objects before its index) and [log_inv] (the log holds one
    line per call that returned the lister's error); the index of a
    call in the loop is within its slice ([loop_in_bounds]); every
    execution is finite, and an unfinished call can always take a
    step. *)

From stdpp Require Import relations.
From S2P Require Import Prelude CoreV1 Json KubeClient OsqueryTable Projection.
From S2P Require Import PersistentVolumeClaims PersistentVolumes.

(** ** One call, statement by statement *)

(** The program points of [Generate], with the local variables that
    are live there. *)
Inductive Thread (L O : Type) : Type :=
| Called
| Listed (r : ListResult L)
| Looping (objs : list O) (i : nat) (rows : list (option Row))
| Returned (res : GenerateResult)
| Crashed (reason : string).
Arguments Called {L O}.
Arguments Listed {L O} r.
Arguments Looping {L O} objs i rows.
Arguments Returned {L O} res.
Arguments Crashed {L O} reason.

(** The calls in flight and the log they share. *)
Record Config (L O : Type) : Type := mkConfig {
  cfg_log : Log;
  cfg_threads : list (Thread L O);
}.
Arguments mkConfig {L O}.
Arguments cfg_log {L O}.
Arguments cfg_threads {L O}.

Section machine.
Context {L O : Type}.
Context (items : L → list O).
Context (body : nat → O → list (option Row) → Go (list (option Row))).
Context (line : string) (answer : ListResult L).
Implicit Types (th : Thread L O) (c : Config L O) (log : Log).

Definition final th : bool :=
  match th with
  | Returned _ | Crashed _ => true
  | _ => false
  end.

(** How a computation that ends moves a thread to its last point. *)
Definition finish (r : Outcome GenerateResult * Log) : Thread L O * Log :=
  (match r.1 with Done res => Returned res | Panicked reason => Crashed reason end, r.2).

(** The statement at the program point of [th]: the call of the
    lister; the test of [err], with the log line and the return, or the
    dereference of the list and [make]; one iteration of the loop, or
    the return after the last one. *)
Definition thread_step th log : Thread L O * Log :=
  match th with
  | Called => (Listed answer, log)
  | Listed (_, Some e) => finish ((log_Println line;; mret (None, Some e)) log)
  | Listed (pvcs, None) =>
      match deref pvcs log with
      | (Done l, log') =>
          (Looping (items l) 0 (make_slice None (length (items l))), log')
      | (Panicked reason, log') => (Crashed reason, log')
      end
  | Looping objs i rows =>
      match objs !! i with
      | Some o =>
          match body i o rows log with
          | (Done rows', log') => (Looping objs (S i) rows', log')
          | (Panicked reason, log') => (Crashed reason, log')
          end
      | None => (Returned (Some rows, None), log)
      end
  | Returned _ | Crashed _ => (th, log)
  end.

(** [Generate] in one piece, over the same parameters. *)
Definition generate : Go GenerateResult :=
  let '(pvcs, err) := answer in
  match err with
  | Some e =>
      log_Println line;;
      mret (None, Some e)
  | None =>
      l ← deref pvcs;
      rows ← range (items l) body (make_slice None (length (items l)));
      mret (Some rows, None)
  end.

(** [fuel] steps of one thread. *)
Fixpoint run (fuel : nat) th log : Thread L O * Log :=
  match fuel with
  | 0 => (th, log)
  | S fuel => let '(th', log') := thread_step th log in run fuel th' log'
  end.

(** The number of objects that the lister returned in [r]. *)
Definition listed (r : ListResult L) : nat :=
  match r with
  | (Some l, None) => length (items l)
  | _ => 0
  end.

(** An upper bound on the steps that a thread has left. *)
Definition remaining th : nat :=
  match th with
  | Called => 3 + listed answer
  | Listed r => 2 + listed r
  | Looping objs i rows => 1 + (length objs - i)
  | Returned _ | Crashed _ => 0
  end.

(** ** Several calls *)

(** Thread [i] takes its next step. *)
Definition advance (i : nat) c : Config L O :=
  match cfg_threads c !! i with
  | Some th =>
      let '(th', log') := thread_step th (cfg_log c) in
      {| cfg_log := log'; cfg_threads := <[i:=th']> (cfg_threads c) |}
  | None => c
  end.

Inductive step : Config L O → Config L O → Prop :=
| step_thread c i th :
    cfg_threads c !! i = Some th → final th = false → step c (advance i c).

(** The threads of a schedule take their steps in turn. *)
Definition exec (schedule : list nat) c : Config L O :=
  foldl (λ c i, advance i c) c schedule.

(** [n] calls that have just been made. *)
Definition init (n : nat) log : Config L O :=
  {| cfg_log := log; cfg_threads := replicate n Called |}.

Definition config_remaining c : nat := sum_list (remaining <$> cfg_threads c).

End machine.

(** ** One call run alone *)

Section alone.
Context {L O : Type}.
Context (items : L → list O).
Context (body : nat → O → list (option Row) → Go (list (option Row))).
Context (line : string) (answer : ListResult L).
Implicit Types (th : Thread L O) (log : Log) (objs : list O) (rows : list (option Row)).

#[local] Abbreviation thread_step := (thread_step items body line answer).
#[local] Abbreviation run := (run items body line answer).
#[local] Abbreviation remaining := (remaining items answer).

Lemma thread_step_final th log : final th = true → thread_step th log = (th, log).
Proof. by destruct th. Qed.

Lemma run_final fuel th log : final th = true → run fuel th log = (th, log).
Proof.
  intros Hth. induction fuel as [|fuel IH]; [done|].
  simpl. by rewrite thread_step_final.
Qed.

(** A thread in the loop runs the rest of the [range] loop. *)
Lemma run_looping fuel objs i rows log :
  length objs - i < fuel →
  run fuel (Looping objs i rows) log
  = finish ((rows' ← range_from i (drop i objs) body rows; mret (Some rows', None)) log).
Proof.
  revert i rows log. induction fuel as [|fuel IH]; intros i rows log Hfuel; [lia|].
  simpl. destruct (objs !! i) as [o|] eqn:Hi.
  - apply lookup_lt_Some in Hi as Hlt.
    rewrite (drop_S _ _ _ Hi). simpl. go_unfold.
    destruct (body i o rows log) as [[rows'|reason] log']; [|by rewrite run_final].
    rewrite IH by lia. done.
  - apply lookup_ge_None in Hi. rewrite drop_ge by done. by rewrite run_final.
Qed.

(** A thread that holds the answer [r] of the lister ends where
    [Generate] in one piece ends on that answer. *)
Lemma run_listed fuel r log :
  remaining (Listed r) ≤ fuel →
  run fuel (Listed r) log = finish (generate items body line r log).
Proof.
  intros Hfuel. destruct fuel as [|fuel]; [simpl in Hfuel; lia|].
  destruct r as [[l|] [e|]]; simpl in *; try by rewrite run_final.
  rewrite run_looping by lia. done.
Qed.

(** Run alone and given enough steps, a call ends where [Generate] in
    one piece ends, with the same log. *)
Lemma run_called fuel log :
  remaining Called ≤ fuel →
  run fuel Called log = finish (generate items body line answer log).
Proof.
  intros Hfuel. destruct fuel as [|fuel]; [simpl in Hfuel; lia|].
  simpl. apply run_listed. simpl in *. lia.
Qed.

(** Every step of an unfinished thread uses up the bound. *)
Lemma thread_step_remaining th log :
  final th = false → remaining (thread_step th log).1 < remaining th.
Proof.
  destruct th as [|[[l|] [e|]]|objs i rows| |]; simpl; try done; try lia.
  intros _. destruct (objs !! i) as [o|] eqn:Hi; [|simpl; lia].
  apply lookup_lt_Some in Hi.
  destruct (body i o rows log) as [[rows'|reason] log']; simpl; lia.
Qed.

End alone.

(** ** Several calls run together *)

Section together.
Context {L O : Type}.
Context (items : L → list O).
Context (body : nat → O → list (option Row) → Go (list (option Row))).
Context (line : string) (answer : ListResult L).
Context (row : O → Row).
Implicit Types (th : Thread L O) (c : Config L O) (log : Log).

#[local] Abbreviation thread_step := (thread_step items body line answer).
#[local] Abbreviation advance := (advance items body line answer).
#[local] Abbreviation step := (step items body line answer).
#[local] Abbreviation remaining := (remaining items answer).
#[local] Abbreviation config_remaining := (config_remaining items answer).

(** How [Generate] ends on the answer of the lister, by the reference
    definition of Projection. *)
Definition expected : Outcome GenerateResult := (project_all items row line answer []).1.

(** What holds of a call at each program point: it holds the lister's
    answer; in the loop at index [i] the slice has its final length,
    the rows of the first [i] objects and nil elsewhere; it has ended
    the way [Generate] ends. *)
Definition thread_inv th : Prop :=
  match th with
  | Called => True
  | Listed r => r = answer
  | Looping objs i rows =>
      ∃ l, answer = (Some l, None) ∧ objs = items l ∧ i ≤ length objs ∧
           rows = take i (project items row l) ++ make_slice None (length objs - i)
  | Returned res => expected = Done res
  | Crashed reason => expected = Panicked reason
  end.

(** The lines that a call has written when it is at [th]. *)
Definition errors th : nat :=
  match th with
  | Returned (_, Some _) => 1
  | _ => 0
  end.

(** The log holds the lines of the calls and nothing else. *)
Definition log_inv (log0 : Log) c : Prop :=
  cfg_log c = log0 ++ replicate (sum_list (errors <$> cfg_threads c)) line.

Definition config_inv (n : nat) (log0 : Log) c : Prop :=
  length (cfg_threads c) = n ∧ Forall thread_inv (cfg_threads c) ∧ log_inv log0 c.

(** The loop body of both adapters: it stores the row of the object
    in slot [i]. *)
Hypothesis body_stores :
  ∀ i o rows log, body i o rows log = (rows.[i] ::= Some (row o))%go log.

(** One iteration moves the border between the rows and the nil slots
    by one. *)
Lemma looping_store l i o :
  items l !! i = Some o →
  returns ((take i (project items row l) ++ make_slice None (length (items l) - i)).[i]
           ::= Some (row o))%go
    (take (S i) (project items row l) ++ make_slice None (length (items l) - S i)).
Proof.
  intros Hi. apply lookup_lt_Some in Hi as Hlt.
  assert (project items row l !! i = Some (Some (row o))) as Hrow.
  { by rewrite project_lookup, Hi. }
  replace (length (items l) - i) with (S (length (items l) - S i)) by lia.
  rewrite make_slice_S, (take_S_r _ _ _ Hrow), <-(assoc (++)).
  pose proof (slice_set_middle (take i (project items row l))
                (make_slice None (length (items l) - S i)) None (Some (row o))) as Hset.
  by rewrite length_take_le in Hset by (rewrite length_project; lia).
Qed.

Lemma thread_step_looping_inv objs i rows log :
  thread_inv (Looping objs i rows) → thread_inv (thread_step (Looping objs i rows) log).1.
Proof.
  intros (l & Hl & -> & Hi & ->). simpl.
  destruct (items l !! i) as [o|] eqn:Ho.
  - rewrite body_stores, (looping_store l i o Ho). simpl.
    apply lookup_lt_Some in Ho. exists l. split_and!; [done..|lia|done].
  - apply lookup_ge_None in Ho. assert (i = length (items l)) as -> by lia.
    simpl. unfold expected. rewrite Hl. simpl. rewrite Nat.sub_diag, app_nil_r.
    by rewrite <-(length_project items row), firstn_all.
Qed.

(** A step keeps what holds of a call. *)
Lemma thread_step_inv th log : thread_inv th → thread_inv (thread_step th log).1.
Proof.
  destruct th as [|r|objs i rows|res|reason]; [done| |apply thread_step_looping_inv|done..].
  simpl. intros ->.
  destruct answer as [[l|] [e|]] eqn:Ha; simpl; unfold expected; rewrite ?Ha; try done.
  exists l. rewrite Nat.sub_0_r. split_and!; [done..|lia|done].
Qed.

Lemma errors_unfinished th : final th = false → errors th = 0.
Proof. by destruct th. Qed.

(** A step appends the line of the call exactly when the call returns
    the lister's error. *)
Lemma thread_step_log th log :
  final th = false →
  (thread_step th log).2 = log ++ replicate (errors (thread_step th log).1) line.
Proof.
  destruct th as [|[[l|] [e|]]|objs i rows| |]; intros ?; simplify_eq/=;
    rewrite ?app_nil_r; try done.
  destruct (objs !! i) as [o|]; simpl; [|by rewrite app_nil_r].
  rewrite body_stores. unfold slice_set. case_decide; simpl; by rewrite app_nil_r.
Qed.

(** *** Configurations *)

Lemma init_inv n log0 : config_inv n log0 (init n log0).
Proof.
  split_and!; simpl.
  - apply length_replicate.
  - by apply Forall_replicate.
  - unfold log_inv. simpl. rewrite fmap_replicate, sum_list_replicate. simpl.
    by rewrite Nat.mul_0_r, app_nil_r.
Qed.

(** A step keeps the number of calls and what holds of each. *)
Lemma step_threads c c' :
  step c c' → Forall thread_inv (cfg_threads c) →
  length (cfg_threads c') = length (cfg_threads c) ∧ Forall thread_inv (cfg_threads c').
Proof.
  intros [c0 i th Hi Hth] Hths. unfold advance. rewrite Hi.
  pose proof (thread_step_inv th (cfg_log c0) (Forall_lookup_1 _ _ _ _ Hths Hi)) as Hinv.
  destruct (thread_step th (cfg_log c0)) as [th' log']. simpl in *.
  split; [by rewrite length_insert|by apply Forall_insert].
Qed.

(** A step appends to the log the lines of the calls that it has made
    return the lister's error: one line, or none. *)
Lemma step_log c c' :
  step c c' →
  ∃ k, cfg_log c' = cfg_log c ++ replicate k line ∧
       sum_list (errors <$> cfg_threads c') = sum_list (errors <$> cfg_threads c) + k.
Proof.
  intros [c0 i th Hi Hth]. unfold advance. rewrite Hi.
  pose proof (thread_step_log th (cfg_log c0) Hth) as Hlog.
  destruct (thread_step th (cfg_log c0)) as [th' log']. simpl in *.
  exists (errors th'). split; [done|].
  pose proof (sum_list_fmap_insert errors (cfg_threads c0) i th th' Hi) as Hsum.
  rewrite (errors_unfinished th Hth) in Hsum. lia.
Qed.

(** A step of any call keeps the invariant of the configuration. *)
Lemma step_inv n log0 c c' : step c c' → config_inv n log0 c → config_inv n log0 c'.
Proof.
  intros Hstep (Hlen & Hths & Hlog).
  destruct (step_threads _ _ Hstep Hths) as [Hlen' Hths'].
  destruct (step_log _ _ Hstep) as (k & Hlog' & Hsum).
  split_and!; [congruence|done|]. unfold log_inv in *.
  by rewrite Hlog', Hlog, Hsum, replicate_add, (assoc (++)).
Qed.

(** The invariant holds in every configuration that [n] calls can
    reach, in whatever order they take their steps. *)
Lemma reachable_inv n log0 c : rtc step (init n log0) c → config_inv n log0 c.
Proof.
  revert c. apply rtc_ind_r; [apply init_inv|].
  intros c1 c2 _ Hstep Hinv. by eapply step_inv.
Qed.

(** Every step uses up the bound of the configuration. *)
Lemma step_remaining c c' : step c c' → config_remaining c' < config_remaining c.
Proof.
  intros [c0 i th Hi Hth]. unfold advance, Interleaving.config_remaining. rewrite Hi.
  pose proof (thread_step_remaining items body line answer th (cfg_log c0) Hth) as Hlt.
  destruct (thread_step th (cfg_log c0)) as [th' log'] eqn:Hstep. simpl in *.
  pose proof (sum_list_fmap_insert remaining (cfg_threads c0) i th th' Hi). lia.
Qed.

(** An execution of [k] steps fits in the bound. *)
Lemma nsteps_remaining k c c' :
  nsteps step k c c' → k + config_remaining c' ≤ config_remaining c.
Proof.
  induction 1 as [|k c c1 c' Hstep _ IH]; [lia|].
  apply step_remaining in Hstep. lia.
Qed.

(** A call that has not ended can take a step. *)
Lemma step_progress c i th :
  cfg_threads c !! i = Some th → final th = false → step c (advance i c).
Proof. apply step_thread. Qed.

(** A configuration in which every call has ended cannot step. *)
Lemma step_finished c c' :
  step c c' → ¬ Forall (λ th, final th = true) (cfg_threads c).
Proof.
  intros [c0 i th Hi Hth] Hall.
  pose proof (Forall_lookup_1 _ _ _ _ Hall Hi). congruence.
Qed.

(** From every configuration the calls can run to their ends. *)
Lemma can_finish c :
  ∃ c', rtc step c c' ∧ Forall (λ th, final th = true) (cfg_threads c').
Proof.
  remember (config_remaining c) as m eqn:Hm. revert c Hm.
  induction m as [m IH] using lt_wf_ind. intros c ->.
  destruct (decide (Forall (λ th, final th = true) (cfg_threads c))) as [|Hnot];
    [by exists c|].
  apply not_Forall_Exists in Hnot; [|apply _].
  apply Exists_exists in Hnot as (th & Hin & Hth).
  apply list_elem_of_lookup in Hin as [i Hi].
  assert (step c (advance i c)) as Hstep.
  { eapply step_thread; [done|]. simpl in Hth. by destruct (final th). }
  destruct (IH _ (step_remaining _ _ Hstep) _ eq_refl) as (c' & Hrtc & Hfin).
  exists c'. split; [by eapply rtc_l|done].
Qed.

(** *** Schedules *)

(** Scheduling a call that has ended, or that does not exist, changes
    nothing. *)
Lemma advance_idle c i :
  (∀ th, cfg_threads c !! i = Some th → final th = true) → advance i c = c.
Proof.
  intros Hi. unfold advance. destruct (cfg_threads c !! i) as [th|] eqn:Hth; [|done].
  rewrite thread_step_final by auto. rewrite list_insert_id by done. by destruct c.
Qed.

(** A turn of the schedule is a step, or changes nothing. *)
Lemma advance_cases c i : advance i c = c ∨ step c (advance i c).
Proof.
  destruct (cfg_threads c !! i) as [th|] eqn:Hth.
  - destruct (final th) eqn:Hfin; [left|right; by eapply step_thread].
    apply advance_idle. intros ? ?; by simplify_eq.
  - left. apply advance_idle. intros ? ?; by simplify_eq.
Qed.

(** Running a schedule is an execution. *)
Lemma exec_steps schedule c : rtc step c (exec items body line answer schedule c).
Proof.
  revert c. induction schedule as [|i schedule IH]; intros c; [done|]. simpl.
  destruct (advance_cases c i) as [->|Hstep]; [apply IH|].
  eapply rtc_l; [done|apply IH].
Qed.

(** *** What the calls return *)

(** [Generate] in one piece is the reference projection. *)
Lemma generate_project_all log :
  generate items body line answer log = project_all items row line answer log.
Proof.
  unfold generate, project_all. destruct answer as [[l|] [e|]]; simpl; try done.
  rewrite go_bind_ret_l. unfold range.
  rewrite (go_bind_done _ _ _ (project items row l) log); [done|].
  rewrite (range_from_ext _ (λ i o rows, rows.[i] ::= Some (row o))%go) by apply body_stores.
  apply (fill_returns_project row).
Qed.

(** A call of which [thread_inv] holds and that has ended has ended
    the way [Generate] in one piece ends, from any log. *)
Lemma thread_inv_final th log :
  thread_inv th → final th = true → th = (finish (generate items body line answer log)).1.
Proof.
  intros Hinv Hfin. rewrite generate_project_all. unfold finish.
  rewrite (project_all_outcome _ _ _ _ log []).
  destruct th; simplify_eq/=; unfold expected in Hinv; by rewrite Hinv.
Qed.

(** Under the contract of the lister such a call has not panicked. *)
Lemma thread_inv_safe reason : well_formed answer → ¬ thread_inv (Crashed reason).
Proof.
  intros Hwf Hinv. simpl in Hinv.
  destruct (project_all_never_panics items row line answer Hwf []) as (res & log' & Hrun).
  unfold expected in Hinv. by rewrite Hrun in Hinv.
Qed.

(** A call that has ended, in any configuration that [n] calls can
    reach, has ended the way [Generate] in one piece ends, from any
    log. *)
Lemma reachable_final n log0 c th log :
  rtc step (init n log0) c → th ∈ cfg_threads c → final th = true →
  th = (finish (generate items body line answer log)).1.
Proof.
  intros Hsteps Hth Hfin. apply reachable_inv in Hsteps as (_ & Hinv & _).
  rewrite Forall_forall in Hinv. apply thread_inv_final; auto.
Qed.

(** Under the contract of the lister no call panics. *)
Lemma reachable_safe n log0 c reason :
  rtc step (init n log0) c → well_formed answer → Crashed reason ∉ cfg_threads c.
Proof.
  intros Hsteps Hwf Hth. apply reachable_inv in Hsteps as (_ & Hinv & _).
  rewrite Forall_forall in Hinv. apply (thread_inv_safe reason Hwf). auto.
Qed.

(** C31: every index that the loop of Generate writes is within the
    slice.  In every configuration that [n] calls can reach, in
    whatever order they take their steps, a call in the loop at index
    [i] holds a slice that is as long as the list, [i] is at most that
    length, and when there is an object at [i] there is a slot at [i]
    for its row. *)
Theorem loop_in_bounds n log0 c objs i rows :
  rtc step (init n log0) c → Looping objs i rows ∈ cfg_threads c →
  length rows = length objs ∧ i ≤ length objs ∧ (is_Some (objs !! i) → i < length rows).
Proof.
  intros Hsteps Hth. apply reachable_inv in Hsteps as (_ & Hinv & _).
  rewrite Forall_forall in Hinv. destruct (Hinv _ Hth) as (l & _ & -> & Hi & ->).
  assert (length (take i (project items row l) ++ make_slice None (length (items l) - i))
          = length (items l)) as Hlen.
  { rewrite length_app, length_take_le, length_make_slice by (rewrite length_project; lia).
    lia. }
  split_and!; [done..|]. intros Ho%lookup_lt_is_Some. lia.
Qed.

End together.

(** ** Facts that do not depend on the row builder *)

Section bounds.
Context {L O : Type}.
Context (items : L → list O).
Context (body : nat → O → list (option Row) → Go (list (option Row))).
Context (line : string) (answer : ListResult L).

Lemma config_remaining_init n log0 :
  config_remaining items answer (init n log0) = n * (3 + listed items answer).
Proof. unfold config_remaining. simpl. by rewrite fmap_replicate, sum_list_replicate. Qed.

(** C16: calls of Generate that run together always come to an end: an
    execution of [n] calls, in whatever order they take their steps,
    has at most three steps per call plus one per object listed, and
    from wherever it stands every call can still run to its end. *)
Theorem calls_terminate n log0 k c :
  nsteps (step items body line answer) k (init n log0) c →
  k ≤ n * (3 + listed items answer) ∧
  ∃ c', rtc (step items body line answer) c c' ∧
        Forall (λ th, final th = true) (cfg_threads c').
Proof.
  intros Hsteps. split; [|apply can_finish].
  apply nsteps_remaining in Hsteps. rewrite config_remaining_init in Hsteps. lia.
Qed.

End bounds.

(** ** The claims table *)

Module ClaimsCalls.
Import PersistentVolumeClaimsTable.

(** The body of the loop of [Generate]. *)
Definition body (i : nat) (pvc : PersistentVolumeClaim.t) (rows : list (option Row))
    : Go (list (option Row)) :=
  (rows.[i] ::= Some (currRow pvc))%go.

Section with_client.
Context `{Interface C}.
Implicit Types (t : PersistentVolumeClaimsTable.t C) (c : Config PersistentVolumeClaimList.t PersistentVolumeClaim.t).

#[local] Abbreviation run t := (run PersistentVolumeClaimList.Items body list_failed (listing t)).
#[local] Abbreviation step t := (step PersistentVolumeClaimList.Items body list_failed (listing t)).
#[local] Abbreviation remaining t := (remaining PersistentVolumeClaimList.Items (listing t)).

(** C14: Generate on the claims table, run one statement at a time from
    the call to the return, ends as Generate in one piece ends: with
    the same result or the same panic, and the same log. *)
Theorem pvc_Generate_stepwise t ctx q fuel log :
  remaining t Called ≤ fuel →
  run t fuel Called log = finish (Generate t ctx q log).
Proof. apply run_called. Qed.

(** C12: calls of Generate on the claims table that run together do
    not disturb each other.  In every configuration that [n] calls can
    reach, in whatever order they take their steps, there are still [n]
    calls; each call that has ended has ended as a call run alone ends,
    with the same rows or the same error; no call has panicked when the
    lister keeps its contract; and the log holds, after what it held
    before, one line per call that returned the lister's error. *)
Theorem pvc_concurrent_calls t n log0 c :
  rtc (step t) (init n log0) c →
  length (cfg_threads c) = n ∧
  (∀ th ctx q log, th ∈ cfg_threads c → final th = true →
     th = (finish (Generate t ctx q log)).1) ∧
  (well_formed (listing t) → ∀ reason, Crashed reason ∉ cfg_threads c) ∧
  cfg_log c = log0 ++ replicate (sum_list (errors <$> cfg_threads c)) list_failed.
Proof.
  intros Hsteps.
  assert (∀ i o rows log, body i o rows log = (rows.[i] ::= Some (currRow o))%go log)
    as Hbody by done.
  pose proof (reachable_inv _ _ _ _ currRow Hbody _ _ _ Hsteps) as (Hlen & Hinv & Hlog).
  split_and!; [done| | |done].
  - intros th ctx q log. by apply (reachable_final _ _ _ _ currRow Hbody n log0).
  - intros Hwf reason.
    exact (reachable_safe _ _ list_failed _ currRow Hbody n log0 c reason Hsteps Hwf).
Qed.

End with_client.

Lemma pvc_Generate_stepwise_witness :
  let t := NewPersistentVolumeClaimsTable cluster in
  run PersistentVolumeClaimList.Items body list_failed (listing t) 5 Called []
  = finish (Generate t Context.Background QueryContext.empty []).
Proof. intros t. apply pvc_Generate_stepwise. vm_compute. lia. Defined.

Lemma pvc_concurrent_calls_witness :
  let t := NewPersistentVolumeClaimsTable unreachable in
  let c := exec PersistentVolumeClaimList.Items body list_failed (listing t) [0; 1; 1; 0]
             (init 2 ["started"]) in
  length (cfg_threads c) = 2 ∧
  (∀ th ctx q log, th ∈ cfg_threads c → final th = true →
     th = (finish (Generate t ctx q log)).1) ∧
  (well_formed (listing t) → ∀ reason, Crashed reason ∉ cfg_threads c) ∧
  cfg_log c = ["started"] ++ replicate (sum_list (errors <$> cfg_threads c)) list_failed.
Proof. intros t c. apply pvc_concurrent_calls, exec_steps. Defined.

Lemma calls_terminate_witness :
  let t := NewPersistentVolumeClaimsTable cluster in
  let step := step PersistentVolumeClaimList.Items body list_failed (listing t) in
  let c := advance PersistentVolumeClaimList.Items body list_failed (listing t) 0
             (init 2 []) in
  1 ≤ 2 * (3 + listed PersistentVolumeClaimList.Items (listing t)) ∧
  ∃ c', rtc step c c' ∧ Forall (λ th, final th = true) (cfg_threads c').
Proof.
  intros t step c. apply (calls_terminate _ _ _ _ 2 []), nsteps_once.
  by apply (step_thread _ _ _ _ (init 2 []) 0 Called).
Defined.

Lemma loop_in_bounds_witness :
  let t := NewPersistentVolumeClaimsTable cluster in
  let c := exec PersistentVolumeClaimList.Items body list_failed (listing t) [0; 1; 0; 0]
             (init 2 []) in
  ∃ (objs : list PersistentVolumeClaim.t) (rows : list (option Row)),
    length rows = length objs ∧ 1 ≤ length objs ∧ (is_Some (objs !! 1) → 1 < length rows).
Proof.
  intros t c.
  assert (∃ objs rows, Looping objs 1 rows ∈ cfg_threads c) as (objs & rows & Hth).
  { eexists _, _. vm_compute. left. }
  exists objs, rows.
  apply (loop_in_bounds PersistentVolumeClaimList.Items body list_failed (listing t) currRow
           (λ _ _ _ _, eq_refl) 2 [] c); [apply exec_steps|exact Hth].
Defined.

End ClaimsCalls.

(** ** The volumes table *)

Module VolumesCalls.
Import PersistentVolumesTable.

Section with_client.
Context {enc : Encoder} `{Interface C}.
Implicit Types (t : PersistentVolumesTable.t C)
  (c : Config PersistentVolumeList.t PersistentVolume.t).

(** The body of the loop of [Generate]. *)
Definition body t (i : nat) (pv : PersistentVolume.t) (rows : list (option Row))
    : Go (list (option Row)) :=
  row ← currRow t pv; (rows.[i] ::= Some row)%go.

#[local] Abbreviation run t := (run PersistentVolumeList.Items (body t) list_failed (listing t)).
#[local] Abbreviation step t := (step PersistentVolumeList.Items (body t) list_failed (listing t)).
#[local] Abbreviation remaining t := (remaining PersistentVolumeList.Items (listing t)).

Lemma body_stores t i pv rows log :
  body t i pv rows log = (rows.[i] ::= Some (row pv))%go log.
Proof. unfold body. by rewrite (go_bind_returns _ _ _ _ (currRow_returns t pv)). Qed.

(** C15: Generate on the volumes table, run one statement at a time
    from the call to the return, ends as Generate in one piece ends:
    with the same result or the same panic, and the same log. *)
Theorem pv_Generate_stepwise t ctx q fuel log :
  remaining t Called ≤ fuel →
  run t fuel Called log = finish (Generate t ctx q log).
Proof. apply run_called. Qed.

(** C13: calls of Generate on the volumes table that run together do
    not disturb each other.  In every configuration that [n] calls can
    reach, in whatever order they take their steps, there are still [n]
    calls; each call that has ended has ended as a call run alone ends,
    with the same rows or the same error; no call has panicked when the
    lister keeps its contract; and the log holds, after what it held
    before, one line per call that returned the lister's error. *)
Theorem pv_concurrent_calls t n log0 c :
  rtc (step t) (init n log0) c →
  length (cfg_threads c) = n ∧
  (∀ th ctx q log, th ∈ cfg_threads c → final th = true →
     th = (finish (Generate t ctx q log)).1) ∧
  (well_formed (listing t) → ∀ reason, Crashed reason ∉ cfg_threads c) ∧
  cfg_log c = log0 ++ replicate (sum_list (errors <$> cfg_threads c)) list_failed.
Proof.
  intros Hsteps.
  pose proof (reachable_inv _ _ _ _ row (body_stores t) _ _ _ Hsteps) as (Hlen & Hinv & Hlog).
  split_and!; [done| | |done].
  - intros th ctx q log. by apply (reachable_final _ _ _ _ row (body_stores t) n log0).
  - intros Hwf reason.
    exact (reachable_safe _ _ list_failed _ row (body_stores t) n log0 c reason Hsteps Hwf).
Qed.

End with_client.

Lemma pv_Generate_stepwise_witness :
  let t := NewPersistentVolumesTable cluster in
  run PersistentVolumeList.Items (body t) list_failed (listing t) 5 Called []
  = finish (Generate t Context.Background QueryContext.empty []).
Proof. intros t. apply pv_Generate_stepwise. vm_compute. lia. Defined.

Lemma pv_concurrent_calls_witness :
  let t := NewPersistentVolumesTable cluster in
  let c := exec PersistentVolumeList.Items (body t) list_failed (listing t)
             [0; 1; 1; 0; 0; 1; 1; 1; 0; 0] (init 2 []) in
  length (cfg_threads c) = 2 ∧
  (∀ th ctx q log, th ∈ cfg_threads c → final th = true →
     th = (finish (Generate t ctx q log)).1) ∧
  (well_formed (listing t) → ∀ reason, Crashed reason ∉ cfg_threads c) ∧
  cfg_log c = [] ++ replicate (sum_list (errors <$> cfg_threads c)) list_failed.
Proof. intros t c. apply pv_concurrent_calls, exec_steps. Defined.

End VolumesCalls.
