(* ===== verification/Fairness.v ===== *)
(** * Fairness: every call of [Generate] returns

    Interleaving shows that calls which run together cannot disturb
    each other and that no execution is infinite.  This file shows that
    every call does return: under a schedule that gives each call the
    turns it needs ([fair]), however the turns of the calls are mixed
    and whatever else is scheduled in between, every call has ended
    after the schedule ([fair_final]), with the result of [Generate]
    run alone ([fair_returns]).  The number of turns is that of
    [remaining]: three, and one per object listed. *)

From stdpp Require Import relations.
From S2P Require Import Prelude CoreV1 Json KubeClient OsqueryTable Projection.
From S2P Require Import PersistentVolumeClaims PersistentVolumes Interleaving.

(** ** Schedules *)

(** The turns of call [i] in a schedule; a call is named by its index,
    or by its table and its index when calls of both tables run. *)
Fixpoint turns `{EqDecision A} (i : A) (schedule : list A) : nat :=
  match schedule with
  | [] => 0
  | j :: schedule => (if decide (j = i) then 1 else 0) + turns i schedule
  end.

Section fair.
Context {L O : Type}.
Context (items : L → list O).
Context (body : nat → O → list (option Row) → Go (list (option Row))).
Context (line : string) (answer : ListResult L).
Implicit Types (th : Thread L O) (c : Config L O) (log : Log) (schedule : list nat).

#[local] Abbreviation thread_step := (thread_step items body line answer).
#[local] Abbreviation advance := (advance items body line answer).
#[local] Abbreviation exec := (exec items body line answer).
#[local] Abbreviation remaining := (remaining items answer).

(** A schedule is fair to [n] calls when each of them has the turns
    that a call can take. *)
Definition fair (n : nat) schedule : bool :=
  forallb (λ i, remaining Called <=? turns i schedule) (seq 0 n).

Lemma fair_turns n schedule i :
  fair n schedule = true → i < n → remaining Called ≤ turns i schedule.
Proof.
  unfold fair. rewrite forallb_forall. intros Hfair Hi.
  apply Nat.leb_le, Hfair, in_seq. lia.
Qed.

(** ** One call among the others *)

Lemma remaining_final th : remaining th = 0 → final th = true.
Proof. by destruct th. Qed.

(** A turn of a call uses up its bound, also when the call has
    ended. *)
Lemma thread_step_turn th log : remaining (thread_step th log).1 ≤ remaining th - 1.
Proof.
  destruct (final th) eqn:Hth; [destruct th; simplify_eq/=; lia|].
  pose proof (thread_step_remaining items body line answer th log Hth). lia.
Qed.

Lemma advance_turn c i th :
  cfg_threads c !! i = Some th →
  cfg_threads (advance i c) !! i = Some (thread_step th (cfg_log c)).1.
Proof.
  intros Hi. unfold advance, Interleaving.advance. rewrite Hi.
  destruct (thread_step th (cfg_log c)) as [th' log'].
  apply list_lookup_insert_eq. by eapply lookup_lt_Some.
Qed.

(** The turn of another call leaves a call where it is. *)
Lemma advance_other c i j :
  j ≠ i → cfg_threads (advance j c) !! i = cfg_threads c !! i.
Proof.
  intros Hij. unfold advance, Interleaving.advance.
  destruct (cfg_threads c !! j) as [th|]; [|done].
  destruct (thread_step th (cfg_log c)) as [th' log'].
  by apply list_lookup_insert_ne.
Qed.

(** A schedule leaves of the bound of a call at most what its turns
    have not used up. *)
Lemma exec_remaining schedule c i th :
  cfg_threads c !! i = Some th →
  ∃ th', cfg_threads (exec schedule c) !! i = Some th' ∧
         remaining th' ≤ remaining th - turns i schedule.
Proof.
  revert c th. induction schedule as [|j schedule IH]; intros c th Hi; simpl.
  { exists th. split; [done|lia]. }
  destruct (decide (j = i)) as [->|Hj].
  - destruct (IH _ _ (advance_turn _ _ _ Hi)) as (th' & Hth' & Hle).
    exists th'. split; [done|]. pose proof (thread_step_turn th (cfg_log c)). lia.
  - rewrite <-(advance_other c i j Hj) in Hi.
    destruct (IH _ _ Hi) as (th' & Hth' & Hle). by exists th'.
Qed.

Lemma advance_length c i : length (cfg_threads (advance i c)) = length (cfg_threads c).
Proof.
  unfold advance, Interleaving.advance. destruct (cfg_threads c !! i) as [th|]; [|done].
  destruct (thread_step th (cfg_log c)). apply length_insert.
Qed.

Lemma exec_length schedule c :
  length (cfg_threads (exec schedule c)) = length (cfg_threads c).
Proof.
  revert c. induction schedule as [|i schedule IH]; intros c; [done|].
  simpl. by rewrite IH, advance_length.
Qed.

(** ** All calls *)

(** After a fair schedule every call has ended. *)
Lemma fair_final n log0 schedule :
  fair n schedule = true →
  Forall (λ th, final th = true) (cfg_threads (exec schedule (init n log0))).
Proof.
  intros Hfair. apply Forall_lookup_2. intros i th Hi.
  assert (i < n) as Hlt.
  { apply lookup_lt_Some in Hi. rewrite exec_length in Hi. simpl in Hi.
    by rewrite length_replicate in Hi. }
  destruct (exec_remaining schedule (init n log0) i Called) as (th' & Hth' & Hle).
  { by apply lookup_replicate_2. }
  pose proof (fair_turns _ _ _ Hfair Hlt). simplify_eq.
  apply remaining_final. lia.
Qed.

(** After a fair schedule every call has ended the way [Generate] run
    alone ends. *)
Lemma fair_returns (row : O → Row) n log0 schedule log :
  (∀ i o rows log, body i o rows log = (rows.[i] ::= Some (row o))%go log) →
  fair n schedule = true →
  cfg_threads (exec schedule (init n log0))
  = replicate n (finish (generate items body line answer log)).1.
Proof.
  intros Hbody Hfair. symmetry. apply replicate_as_Forall.
  split; [rewrite exec_length; apply length_replicate|].
  pose proof (fair_final n log0 schedule Hfair) as Hfinal.
  rewrite Forall_forall in Hfinal. apply Forall_forall. intros th Hth. symmetry.
  eapply (reachable_final _ _ _ _ row Hbody n log0); [apply exec_steps|done|auto].
Qed.

End fair.

(** ** The claims table *)

Module ClaimsFair.
Import PersistentVolumeClaimsTable ClaimsCalls.

(** C37: every call of Generate on the claims table returns.  Under a
    schedule that gives each of [n] calls three turns and one per
    claim listed, however the turns are mixed, every call has ended
    after the schedule, and it has ended as Generate run alone ends:
    with the rows of all claims, or with the lister's error. *)
Theorem pvc_calls_return `{Interface C} (t : PersistentVolumeClaimsTable.t C)
    n log0 schedule ctx q log :
  fair PersistentVolumeClaimList.Items (listing t) n schedule = true →
  cfg_threads (exec PersistentVolumeClaimList.Items body list_failed (listing t)
                 schedule (init n log0))
  = replicate n (finish (Generate t ctx q log)).1.
Proof. by apply (fair_returns _ _ _ _ currRow). Qed.

Lemma pvc_calls_return_witness :
  let t := NewPersistentVolumeClaimsTable cluster in
  cfg_threads (exec PersistentVolumeClaimList.Items body list_failed (listing t)
                 [0; 1; 1; 0; 1; 0; 0; 1; 7; 1; 0] (init 2 []))
  = replicate 2 (finish (Generate t Context.Background QueryContext.empty [])).1.
Proof. intros t. by apply pvc_calls_return. Defined.

End ClaimsFair.

(** ** The volumes table *)

Module VolumesFair.
Import PersistentVolumesTable VolumesCalls.

(** C30: every call of Generate on the volumes table returns.  Under a
    schedule that gives each of [n] calls three turns and one per
    volume listed, however the turns are mixed, every call has ended
    after the schedule, and it has ended as Generate run alone ends:
    with the rows of all volumes, or with the lister's error. *)
Theorem pv_calls_return {enc : Encoder} `{Interface C} (t : PersistentVolumesTable.t C)
    n log0 schedule ctx q log :
  fair PersistentVolumeList.Items (listing t) n schedule = true →
  cfg_threads (exec PersistentVolumeList.Items (body t) list_failed (listing t)
                 schedule (init n log0))
  = replicate n (finish (Generate t ctx q log)).1.
Proof. apply (fair_returns _ _ _ _ row), body_stores. Qed.

Lemma pv_calls_return_witness :
  let t := NewPersistentVolumesTable cluster in
  cfg_threads (exec PersistentVolumeList.Items (body t) list_failed (listing t)
                 [1; 0; 1; 0; 1; 0; 0; 1; 1; 0] (init 2 ["started"]))
  = replicate 2 (finish (Generate t Context.Background QueryContext.empty [])).1.
Proof. intros t. by apply pv_calls_return. Defined.

End VolumesFair.
