(* ===== verification/BothTables.v ===== *)
(** * BothTables: calls of both tables at once

    The engine holds both tables and may query them at the same time.
    The calls of the two tables run different code on different
    objects and share one thing, the log.  This file composes the two
    machines of Interleaving freely: a state [Both] holds the log and
    the calls in flight of either table, and a step [both_step] is a
    step of one call of one table.

    What holds of the calls of one table alone holds in the
    composition ([both_reachable]); the log holds the lines of the
    failed calls of both tables, in the order in which the calls
    failed, so it is stated up to permutation.  An execution of the
    calls of one table is an execution of the composition in which
    the other calls stand still ([lift_claims], [lift_volumes]), so
    from every state all calls can run to their ends
    ([both_can_finish]).  Every execution is finite
    ([both_steps_bound]), and under a schedule that is fair to every
    call of either table all calls return ([both_fair_returns]). *)

From stdpp Require Import relations.
From S2P Require Import Prelude CoreV1 Json KubeClient OsqueryTable Projection.
From S2P Require Import PersistentVolumeClaims PersistentVolumes Interleaving Fairness.

(** ** The composition *)

(** The table that a call is made on. *)
Inductive Side : Type := Claims | Volumes.

#[global] Instance Side_eq_dec : EqDecision Side.
Proof. solve_decision. Defined.

(** The calls in flight on either table and the log they share. *)
Record Both (LA OA LB OB : Type) : Type := mkBoth {
  both_log : Log;
  both_claims : list (Thread LA OA);
  both_volumes : list (Thread LB OB);
}.
Arguments mkBoth {LA OA LB OB}.
Arguments both_log {LA OA LB OB}.
Arguments both_claims {LA OA LB OB}.
Arguments both_volumes {LA OA LB OB}.

Section composition.
Context {LA OA LB OB : Type}.
Context (itemsA : LA → list OA) (itemsB : LB → list OB).
Context (bodyA : nat → OA → list (option Row) → Go (list (option Row))).
Context (bodyB : nat → OB → list (option Row) → Go (list (option Row))).
Context (lineA lineB : string).
Context (answerA : ListResult LA) (answerB : ListResult LB).
Implicit Types (s : Both LA OA LB OB) (log : Log) (schedule : list (Side * nat)).

#[local] Abbreviation stepA := (step itemsA bodyA lineA answerA).
#[local] Abbreviation stepB := (step itemsB bodyB lineB answerB).
#[local] Abbreviation advanceA := (advance itemsA bodyA lineA answerA).
#[local] Abbreviation advanceB := (advance itemsB bodyB lineB answerB).

(** The state as the calls of one table see it. *)
Definition claims_side s : Config LA OA := mkConfig (both_log s) (both_claims s).
Definition volumes_side s : Config LB OB := mkConfig (both_log s) (both_volumes s).

(** The state after the calls of one table have moved to [c]. *)
Definition with_claims s (c : Config LA OA) : Both LA OA LB OB :=
  mkBoth (cfg_log c) (cfg_threads c) (both_volumes s).
Definition with_volumes s (c : Config LB OB) : Both LA OA LB OB :=
  mkBoth (cfg_log c) (both_claims s) (cfg_threads c).

(** A step of the composition is a step of a call of one table. *)
Inductive both_step : Both LA OA LB OB → Both LA OA LB OB → Prop :=
| step_claims s c : stepA (claims_side s) c → both_step s (with_claims s c)
| step_volumes s c : stepB (volumes_side s) c → both_step s (with_volumes s c).

(** Call [i] of table [side] takes its next step. *)
Definition both_advance (turn : Side * nat) s : Both LA OA LB OB :=
  match turn.1 with
  | Claims => with_claims s (advanceA turn.2 (claims_side s))
  | Volumes => with_volumes s (advanceB turn.2 (volumes_side s))
  end.

Definition both_exec schedule s : Both LA OA LB OB :=
  foldl (λ s turn, both_advance turn s) s schedule.

(** [n] calls on the claims table and [m] on the volumes table, just
    made. *)
Definition both_init (n m : nat) log : Both LA OA LB OB :=
  mkBoth log (replicate n Called) (replicate m Called).

Definition both_remaining s : nat :=
  config_remaining itemsA answerA (claims_side s)
  + config_remaining itemsB answerB (volumes_side s).

(** A schedule is fair when it is fair to the calls of each table. *)
Definition both_fair (n m : nat) schedule : bool :=
  forallb (λ i, remaining itemsA answerA Called <=? turns (Claims, i) schedule) (seq 0 n) &&
  forallb (λ i, remaining itemsB answerB Called <=? turns (Volumes, i) schedule) (seq 0 m).

(** ** Executions are finite *)

Lemma with_claims_side s : with_claims s (claims_side s) = s.
Proof. by destruct s. Qed.

Lemma with_volumes_side s : with_volumes s (volumes_side s) = s.
Proof. by destruct s. Qed.

Lemma both_step_remaining s s' : both_step s s' → both_remaining s' < both_remaining s.
Proof.
  intros [s0 c Hstep|s0 c Hstep]; apply step_remaining in Hstep;
    unfold both_remaining, config_remaining in *; simpl in *; lia.
Qed.

Lemma both_nsteps_remaining k s s' :
  nsteps both_step k s s' → k + both_remaining s' ≤ both_remaining s.
Proof.
  induction 1 as [|k s s1 s' Hstep _ IH]; [lia|].
  apply both_step_remaining in Hstep. lia.
Qed.

Lemma both_remaining_init n m log :
  both_remaining (both_init n m log)
  = n * (3 + listed itemsA answerA) + m * (3 + listed itemsB answerB).
Proof.
  unfold both_remaining.
  by rewrite <-(config_remaining_init itemsA answerA n log),
             <-(config_remaining_init itemsB answerB m log).
Qed.

(** An execution of [n] and [m] calls has at most three steps per
    call and one per object that the call lists. *)
Lemma both_steps_bound n m log k s :
  nsteps both_step k (both_init n m log) s →
  k ≤ n * (3 + listed itemsA answerA) + m * (3 + listed itemsB answerB).
Proof. intros Hsteps%both_nsteps_remaining. rewrite both_remaining_init in Hsteps. lia. Qed.

(** ** The calls of one table within the composition *)

Lemma claims_side_with_claims s c : claims_side (with_claims s c) = c.
Proof. by destruct c. Qed.

Lemma volumes_side_with_volumes s c : volumes_side (with_volumes s c) = c.
Proof. by destruct c. Qed.

(** An execution of the calls of one table alone is an execution of
    the composition, in which the calls of the other table stand
    still. *)
Lemma lift_claims s c : rtc stepA (claims_side s) c → rtc both_step s (with_claims s c).
Proof.
  intros Hsteps. remember (claims_side s) as c0 eqn:Hc0. revert s Hc0.
  induction Hsteps as [c|c0 c1 c Hstep _ IH]; intros s ->; [by rewrite with_claims_side|].
  eapply rtc_l; [by apply step_claims|].
  apply (IH (with_claims s c1)). by rewrite claims_side_with_claims.
Qed.

Lemma lift_volumes s c : rtc stepB (volumes_side s) c → rtc both_step s (with_volumes s c).
Proof.
  intros Hsteps. remember (volumes_side s) as c0 eqn:Hc0. revert s Hc0.
  induction Hsteps as [c|c0 c1 c Hstep _ IH]; intros s ->; [by rewrite with_volumes_side|].
  eapply rtc_l; [by apply step_volumes|].
  apply (IH (with_volumes s c1)). by rewrite volumes_side_with_volumes.
Qed.

(** From every state the calls of both tables can run to their ends. *)
Lemma both_can_finish s :
  ∃ s', rtc both_step s s' ∧
        Forall (λ th, final th = true) (both_claims s') ∧
        Forall (λ th, final th = true) (both_volumes s').
Proof.
  destruct (can_finish itemsA bodyA lineA answerA (claims_side s)) as (c & Hc & HfinA).
  destruct (can_finish itemsB bodyB lineB answerB (volumes_side (with_claims s c)))
    as (d & Hd & HfinB).
  exists (with_volumes (with_claims s c) d). split; [|done].
  etrans; [by apply lift_claims|by apply lift_volumes].
Qed.

(** A turn of the schedule is a step, or changes nothing. *)
Lemma both_advance_cases turn s : both_advance turn s = s ∨ both_step s (both_advance turn s).
Proof.
  destruct turn as [[] i]; unfold both_advance; simpl.
  - destruct (advance_cases itemsA bodyA lineA answerA (claims_side s) i) as [->|Hstep];
      [left; apply with_claims_side|right; by constructor].
  - destruct (advance_cases itemsB bodyB lineB answerB (volumes_side s) i) as [->|Hstep];
      [left; apply with_volumes_side|right; by constructor].
Qed.

(** Running a schedule is an execution. *)
Lemma both_exec_steps schedule s : rtc both_step s (both_exec schedule s).
Proof.
  revert s. induction schedule as [|turn schedule IH]; intros s; [done|]. simpl.
  destruct (both_advance_cases turn s) as [->|Hstep]; [apply IH|].
  eapply rtc_l; [done|apply IH].
Qed.

(** ** Fair schedules *)

(** A turn leaves of the bound of a call what the call had, less one
    when the turn is its own. *)
Lemma both_advance_claims turn s i th :
  both_claims s !! i = Some th →
  ∃ th', both_claims (both_advance turn s) !! i = Some th' ∧
         remaining itemsA answerA th'
         ≤ remaining itemsA answerA th - (if decide (turn = (Claims, i)) then 1 else 0).
Proof.
  intros Hi. destruct turn as [[] j]; unfold both_advance, with_claims, with_volumes;
    cbn [fst snd both_claims both_volumes];
    [destruct (decide (j = i)) as [->|Hne]|].
  - rewrite decide_True by done. eexists. split; [by apply advance_turn|].
    apply thread_step_turn.
  - rewrite decide_False by congruence. exists th. split; [by rewrite advance_other|lia].
  - rewrite decide_False by done. exists th. split; [done|lia].
Qed.

Lemma both_advance_volumes turn s i th :
  both_volumes s !! i = Some th →
  ∃ th', both_volumes (both_advance turn s) !! i = Some th' ∧
         remaining itemsB answerB th'
         ≤ remaining itemsB answerB th - (if decide (turn = (Volumes, i)) then 1 else 0).
Proof.
  intros Hi. destruct turn as [[] j]; unfold both_advance, with_claims, with_volumes;
    cbn [fst snd both_claims both_volumes];
    [|destruct (decide (j = i)) as [->|Hne]].
  - rewrite decide_False by done. exists th. split; [done|lia].
  - rewrite decide_True by done. eexists. split; [by apply advance_turn|].
    apply thread_step_turn.
  - rewrite decide_False by congruence. exists th. split; [by rewrite advance_other|lia].
Qed.

(** A schedule leaves of the bound of a call at most what its turns
    have not used up, whatever the other calls of either table do. *)
Lemma both_exec_claims schedule s i th :
  both_claims s !! i = Some th →
  ∃ th', both_claims (both_exec schedule s) !! i = Some th' ∧
         remaining itemsA answerA th'
         ≤ remaining itemsA answerA th - turns (Claims, i) schedule.
Proof.
  revert s th. induction schedule as [|turn schedule IH]; intros s th Hi; simpl.
  { exists th. split; [done|lia]. }
  destruct (both_advance_claims turn s i th Hi) as (th1 & Hth1 & Hle1).
  destruct (IH _ _ Hth1) as (th' & Hth' & Hle). exists th'. split; [done|lia].
Qed.

Lemma both_exec_volumes schedule s i th :
  both_volumes s !! i = Some th →
  ∃ th', both_volumes (both_exec schedule s) !! i = Some th' ∧
         remaining itemsB answerB th'
         ≤ remaining itemsB answerB th - turns (Volumes, i) schedule.
Proof.
  revert s th. induction schedule as [|turn schedule IH]; intros s th Hi; simpl.
  { exists th. split; [done|lia]. }
  destruct (both_advance_volumes turn s i th Hi) as (th1 & Hth1 & Hle1).
  destruct (IH _ _ Hth1) as (th' & Hth' & Hle). exists th'. split; [done|lia].
Qed.

Lemma both_fair_turns n m schedule :
  both_fair n m schedule = true →
  (∀ i, i < n → remaining itemsA answerA Called ≤ turns (Claims, i) schedule) ∧
  (∀ i, i < m → remaining itemsB answerB Called ≤ turns (Volumes, i) schedule).
Proof.
  unfold both_fair. rewrite andb_true_iff, !forallb_forall. intros [HA HB].
  split; intros i Hi; apply Nat.leb_le; [apply HA|apply HB]; apply in_seq; lia.
Qed.

(** After a fair schedule every call of either table has ended. *)
Lemma both_fair_final n m log0 schedule :
  both_fair n m schedule = true →
  (∀ i th, i < n → both_claims (both_exec schedule (both_init n m log0)) !! i = Some th →
           final th = true) ∧
  (∀ i th, i < m → both_volumes (both_exec schedule (both_init n m log0)) !! i = Some th →
           final th = true).
Proof.
  intros [HA HB]%both_fair_turns. split; intros i th Hi Hth.
  - destruct (both_exec_claims schedule (both_init n m log0) i Called) as (th' & Hth' & Hle);
      [by apply lookup_replicate_2|].
    specialize (HA i Hi). simplify_eq. apply (remaining_final itemsA answerA). lia.
  - destruct (both_exec_volumes schedule (both_init n m log0) i Called) as (th' & Hth' & Hle);
      [by apply lookup_replicate_2|].
    specialize (HB i Hi). simplify_eq. apply (remaining_final itemsB answerB). lia.
Qed.

End composition.

(** ** The calls do not disturb each other *)

Section invariant.
Context {LA OA LB OB : Type}.
Context (itemsA : LA → list OA) (itemsB : LB → list OB).
Context (bodyA : nat → OA → list (option Row) → Go (list (option Row))).
Context (bodyB : nat → OB → list (option Row) → Go (list (option Row))).
Context (lineA lineB : string).
Context (answerA : ListResult LA) (answerB : ListResult LB).
Context (rowA : OA → Row) (rowB : OB → Row).
Implicit Types (s : Both LA OA LB OB) (log : Log) (schedule : list (Side * nat)).

#[local] Abbreviation both_step := (both_step itemsA itemsB bodyA bodyB lineA lineB answerA answerB).
#[local] Abbreviation both_exec := (both_exec itemsA itemsB bodyA bodyB lineA lineB answerA answerB).
#[local] Abbreviation invA := (thread_inv itemsA lineA answerA rowA).
#[local] Abbreviation invB := (thread_inv itemsB lineB answerB rowB).

(** The lines that the calls of both tables have written. *)
Definition both_lines s : list string :=
  replicate (sum_list (errors <$> both_claims s)) lineA ++
  replicate (sum_list (errors <$> both_volumes s)) lineB.

(** What holds of every state that [n] and [m] calls can reach: the
    calls are still there, of each call holds what holds of it when
    only its table is queried, and the log holds, after what it held
    before, the lines of the calls in some order. *)
Definition both_inv (n m : nat) (log0 : Log) s : Prop :=
  length (both_claims s) = n ∧ length (both_volumes s) = m ∧
  Forall invA (both_claims s) ∧ Forall invB (both_volumes s) ∧
  ∃ lines, both_log s = log0 ++ lines ∧ lines ≡ₚ both_lines s.

Hypothesis bodyA_stores :
  ∀ i o rows log, bodyA i o rows log = (rows.[i] ::= Some (rowA o))%go log.
Hypothesis bodyB_stores :
  ∀ i o rows log, bodyB i o rows log = (rows.[i] ::= Some (rowB o))%go log.

Lemma both_init_inv n m log0 : both_inv n m log0 (both_init n m log0).
Proof.
  split_and!; simpl; try apply length_replicate; try by apply Forall_replicate.
  exists []. split; [by rewrite app_nil_r|].
  unfold both_lines. simpl. by rewrite !fmap_replicate, !sum_list_replicate, !Nat.mul_0_r.
Qed.

Lemma both_step_inv n m log0 s s' : both_step s s' → both_inv n m log0 s → both_inv n m log0 s'.
Proof.
  intros Hstep (Hn & Hm & HA & HB & lines & Hlog & Hlines).
  destruct Hstep as [s c Hstep|s c Hstep].
  - destruct (step_threads _ _ _ _ rowA bodyA_stores _ _ Hstep HA) as [Hlen HA'].
    destruct (step_log _ _ _ _ rowA bodyA_stores _ _ Hstep) as (k & Hlog' & Hsum).
    split_and!; simpl in *; [congruence|done..|].
    exists (lines ++ replicate k lineA). split; [by rewrite Hlog', Hlog, (assoc (++))|].
    unfold both_lines in *. simpl. rewrite Hsum, replicate_add, Hlines.
    rewrite <-!(assoc (++)). f_equiv. apply (comm (++)).
  - destruct (step_threads _ _ _ _ rowB bodyB_stores _ _ Hstep HB) as [Hlen HB'].
    destruct (step_log _ _ _ _ rowB bodyB_stores _ _ Hstep) as (k & Hlog' & Hsum).
    split_and!; simpl in *; [done|congruence|done..|].
    exists (lines ++ replicate k lineB). split; [by rewrite Hlog', Hlog, (assoc (++))|].
    unfold both_lines in *. simpl. by rewrite Hsum, replicate_add, Hlines, (assoc (++)).
Qed.

(** The invariant holds in every state that the calls can reach, in
    whatever order the calls of the two tables take their steps. *)
Lemma both_reachable n m log0 s : rtc both_step (both_init n m log0) s → both_inv n m log0 s.
Proof.
  revert s. apply rtc_ind_r; [apply both_init_inv|].
  intros s1 s2 _ Hstep Hinv. by eapply both_step_inv.
Qed.

(** The lines of one table in the log are the lines of the failed
    calls of that table, when the two tables log different lines. *)
Lemma both_lines_filter s lines :
  lineA ≠ lineB → lines ≡ₚ both_lines s →
  filter (lineA =.) lines ≡ₚ replicate (sum_list (errors <$> both_claims s)) lineA ∧
  filter (lineB =.) lines ≡ₚ replicate (sum_list (errors <$> both_volumes s)) lineB.
Proof.
  intros Hne ->. unfold both_lines. rewrite !filter_app.
  rewrite !filter_replicate. repeat case_decide; by rewrite ?app_nil_r.
Qed.

(** After a schedule that is fair to every call of either table,
    every call has ended the way [Generate] run alone ends. *)
Lemma both_fair_returns n m log0 schedule logA logB :
  both_fair itemsA itemsB answerA answerB n m schedule = true →
  both_claims (both_exec schedule (both_init n m log0))
  = replicate n (finish (generate itemsA bodyA lineA answerA logA)).1 ∧
  both_volumes (both_exec schedule (both_init n m log0))
  = replicate m (finish (generate itemsB bodyB lineB answerB logB)).1.
Proof.
  intros Hfair.
  destruct (both_reachable n m log0 _ (both_exec_steps _ _ _ _ _ _ _ _ schedule _))
    as (Hn & Hm & HA & HB & _).
  destruct (both_fair_final itemsA itemsB bodyA bodyB lineA lineB answerA answerB
              n m log0 schedule Hfair) as [HfA HfB].
  split; symmetry; apply replicate_as_Forall; (split; [done|]);
    apply Forall_lookup_2; intros i th Hi; pose proof (lookup_lt_Some _ _ _ Hi); symmetry.
  - rewrite Forall_lookup in HA.
    eapply (thread_inv_final _ _ _ _ rowA bodyA_stores); [by eapply HA|].
    eapply HfA; [|done]. lia.
  - rewrite Forall_lookup in HB.
    eapply (thread_inv_final _ _ _ _ rowB bodyB_stores); [by eapply HB|].
    eapply HfB; [|done]. lia.
Qed.

End invariant.

(** ** The two tables of the extension *)

Module BothCalls.

Section with_client.
Context {enc : Encoder} `{Interface C}.
Context (tc : PersistentVolumeClaimsTable.t C) (tv : PersistentVolumesTable.t C).
Implicit Types
  (s : Both PersistentVolumeClaimList.t PersistentVolumeClaim.t
            PersistentVolumeList.t PersistentVolume.t).

(** A step of a call of [Generate] on one of the two tables. *)
Definition tables_step :=
  both_step PersistentVolumeClaimList.Items PersistentVolumeList.Items
    ClaimsCalls.body (VolumesCalls.body tv)
    PersistentVolumeClaimsTable.list_failed PersistentVolumesTable.list_failed
    (PersistentVolumeClaimsTable.listing tc) (PersistentVolumesTable.listing tv).

(** The calls after a schedule of turns. *)
Definition tables_exec :=
  both_exec PersistentVolumeClaimList.Items PersistentVolumeList.Items
    ClaimsCalls.body (VolumesCalls.body tv)
    PersistentVolumeClaimsTable.list_failed PersistentVolumesTable.list_failed
    (PersistentVolumeClaimsTable.listing tc) (PersistentVolumesTable.listing tv).

(** A schedule with the turns that every call of either table needs. *)
Definition tables_fair :=
  both_fair PersistentVolumeClaimList.Items PersistentVolumeList.Items
    (PersistentVolumeClaimsTable.listing tc) (PersistentVolumesTable.listing tv).

(** The lines that failed calls have written. *)
Definition tables_lines s : list string :=
  replicate (sum_list (errors <$> both_claims s)) PersistentVolumeClaimsTable.list_failed ++
  replicate (sum_list (errors <$> both_volumes s)) PersistentVolumesTable.list_failed.

Lemma tables_reachable n m log0 s :
  rtc tables_step (both_init n m log0) s →
  both_inv PersistentVolumeClaimList.Items PersistentVolumeList.Items
    PersistentVolumeClaimsTable.list_failed PersistentVolumesTable.list_failed
    (PersistentVolumeClaimsTable.listing tc) (PersistentVolumesTable.listing tv)
    PersistentVolumeClaimsTable.currRow PersistentVolumesTable.row n m log0 s.
Proof. apply both_reachable; [done|apply VolumesCalls.body_stores]. Qed.

(** C33: calls of Generate on the two tables that run together do not
    disturb each other.  In every state that [n] calls on the claims
    table and [m] calls on the volumes table can reach, in whatever
    order the calls take their steps, the calls are still there; each
    call that has ended has ended as a call on its table run alone
    ends; no call has panicked when the listers keep their contract;
    and the log holds, after what it held before, one line per failed
    call, the lines of the two tables in some order. *)
Theorem both_concurrent_calls n m log0 s :
  rtc tables_step (both_init n m log0) s →
  (length (both_claims s) = n ∧ length (both_volumes s) = m) ∧
  (∀ th ctx q log, th ∈ both_claims s → final th = true →
     th = (finish (PersistentVolumeClaimsTable.Generate tc ctx q log)).1) ∧
  (∀ th ctx q log, th ∈ both_volumes s → final th = true →
     th = (finish (PersistentVolumesTable.Generate tv ctx q log)).1) ∧
  (well_formed (PersistentVolumeClaimsTable.listing tc) →
     ∀ reason, Crashed reason ∉ both_claims s) ∧
  (well_formed (PersistentVolumesTable.listing tv) →
     ∀ reason, Crashed reason ∉ both_volumes s) ∧
  ∃ lines, both_log s = log0 ++ lines ∧ lines ≡ₚ tables_lines s.
Proof.
  intros (Hn & Hm & HA & HB & Hlog)%tables_reachable.
  rewrite Forall_forall in HA. rewrite Forall_forall in HB. split_and!; [done..| | | | |done].
  - intros th ctx q log Hth.
    by apply (thread_inv_final _ _ _ _ PersistentVolumeClaimsTable.currRow), HA.
  - intros th ctx q log Hth.
    by apply (thread_inv_final _ _ _ _ PersistentVolumesTable.row (VolumesCalls.body_stores tv)), HB.
  - intros Hwf reason Hin. by eapply thread_inv_safe, HA.
  - intros Hwf reason Hin. by eapply thread_inv_safe, HB.
Qed.

(** The two tables log different lines, so the log tells the failed
    calls of one table from those of the other: it holds as many lines
    of a table as calls on that table have failed. *)
Lemma both_log_counts n m log0 s :
  rtc tables_step (both_init n m log0) s →
  ∃ lines, both_log s = log0 ++ lines ∧
    filter (PersistentVolumeClaimsTable.list_failed =.) lines
    = replicate (sum_list (errors <$> both_claims s)) PersistentVolumeClaimsTable.list_failed ∧
    filter (PersistentVolumesTable.list_failed =.) lines
    = replicate (sum_list (errors <$> both_volumes s)) PersistentVolumesTable.list_failed.
Proof.
  intros (_ & _ & _ & _ & lines & Hlog & Hlines)%tables_reachable.
  exists lines. split; [done|].
  assert (PersistentVolumeClaimsTable.list_failed ≠ PersistentVolumesTable.list_failed)
    as Hne by done.
  destruct (both_lines_filter _ _ s lines Hne Hlines) as [HA HB].
  split; symmetry; by apply replicate_Permutation.
Qed.

(** C34: every call of Generate returns when both tables are queried
    at once.  Under a schedule that gives each call of either table
    three turns and one per object that it lists, however the turns of
    the calls of the two tables are mixed, every call has ended after
    the schedule as Generate on its table run alone ends. *)
Theorem both_calls_return n m log0 schedule ctx q log :
  tables_fair n m schedule = true →
  both_claims (tables_exec schedule (both_init n m log0))
  = replicate n (finish (PersistentVolumeClaimsTable.Generate tc ctx q log)).1 ∧
  both_volumes (tables_exec schedule (both_init n m log0))
  = replicate m (finish (PersistentVolumesTable.Generate tv ctx q log)).1.
Proof.
  apply (both_fair_returns _ _ _ _ _ _ _ _
           PersistentVolumeClaimsTable.currRow PersistentVolumesTable.row);
    [done|apply VolumesCalls.body_stores].
Qed.

(** C38: calls of Generate on the two tables that run together always
    come to an end.  An execution of [n] calls on the claims table and
    [m] on the volumes table, in whatever order the calls take their
    steps, has at most three steps per call and one step per object
    that the call lists, and from wherever it stands every call of
    either table can still run to its end. *)
Theorem both_calls_terminate n m log0 k s :
  nsteps tables_step k (both_init n m log0) s →
  k ≤ n * (3 + listed PersistentVolumeClaimList.Items (PersistentVolumeClaimsTable.listing tc))
    + m * (3 + listed PersistentVolumeList.Items (PersistentVolumesTable.listing tv)) ∧
  ∃ s', rtc tables_step s s' ∧
        Forall (λ th, final th = true) (both_claims s') ∧
        Forall (λ th, final th = true) (both_volumes s').
Proof. intros Hsteps. split; [by eapply both_steps_bound|apply both_can_finish]. Qed.

End with_client.

(** The claims lister fails and the volumes lister answers. *)
Definition failing_claims := PersistentVolumeClaimsTable.NewPersistentVolumeClaimsTable
  PersistentVolumeClaimsTable.unreachable.
Definition failing_volumes := PersistentVolumesTable.NewPersistentVolumesTable
  PersistentVolumesTable.unreachable.
Definition answering_volumes := PersistentVolumesTable.NewPersistentVolumesTable
  PersistentVolumesTable.cluster.

(** The order of the lines in the log is the order in which the calls
    fail: the same two calls leave the two lines in either order. *)
Example both_log_order :
  both_log (tables_exec failing_claims failing_volumes
              [(Claims, 0); (Claims, 0); (Volumes, 0); (Volumes, 0)] (both_init 1 1 []))
  = [PersistentVolumeClaimsTable.list_failed; PersistentVolumesTable.list_failed] ∧
  both_log (tables_exec failing_claims failing_volumes
              [(Volumes, 0); (Claims, 0); (Volumes, 0); (Claims, 0)] (both_init 1 1 []))
  = [PersistentVolumesTable.list_failed; PersistentVolumeClaimsTable.list_failed].
Proof. by vm_compute. Qed.

Lemma both_concurrent_calls_witness :
  let tc := failing_claims in
  let tv := answering_volumes in
  let s := tables_exec tc tv [(Claims, 0); (Volumes, 1); (Volumes, 0); (Claims, 0); (Volumes, 1)]
             (both_init 1 2 ["started"]) in
  (length (both_claims s) = 1 ∧ length (both_volumes s) = 2) ∧
  (∀ th ctx q log, th ∈ both_claims s → final th = true →
     th = (finish (PersistentVolumeClaimsTable.Generate tc ctx q log)).1) ∧
  (∀ th ctx q log, th ∈ both_volumes s → final th = true →
     th = (finish (PersistentVolumesTable.Generate tv ctx q log)).1) ∧
  (well_formed (PersistentVolumeClaimsTable.listing tc) →
     ∀ reason, Crashed reason ∉ both_claims s) ∧
  (well_formed (PersistentVolumesTable.listing tv) →
     ∀ reason, Crashed reason ∉ both_volumes s) ∧
  ∃ lines, both_log s = ["started"] ++ lines ∧ lines ≡ₚ tables_lines s.
Proof. intros tc tv s. apply both_concurrent_calls, both_exec_steps. Defined.

Lemma both_calls_return_witness :
  let tc := failing_claims in
  let tv := answering_volumes in
  let s := tables_exec tc tv
             [(Claims, 0); (Volumes, 1); (Volumes, 0); (Volumes, 0); (Claims, 0); (Volumes, 1);
              (Claims, 0); (Volumes, 1); (Volumes, 0); (Volumes, 1); (Volumes, 0); (Volumes, 0);
              (Volumes, 1)] (both_init 1 2 []) in
  both_claims s
  = replicate 1 (finish (PersistentVolumeClaimsTable.Generate tc Context.Background
                           QueryContext.empty [])).1 ∧
  both_volumes s
  = replicate 2 (finish (PersistentVolumesTable.Generate tv Context.Background
                           QueryContext.empty [])).1.
Proof. intros tc tv s. by apply both_calls_return. Defined.

Lemma both_calls_terminate_witness :
  let tc := failing_claims in
  let tv := answering_volumes in
  let s := tables_exec tc tv [(Volumes, 1)] (both_init 1 2 []) in
  1 ≤ 1 * (3 + listed PersistentVolumeClaimList.Items (PersistentVolumeClaimsTable.listing tc))
    + 2 * (3 + listed PersistentVolumeList.Items (PersistentVolumesTable.listing tv)) ∧
  ∃ s', rtc (tables_step tc tv) s s' ∧
        Forall (λ th, final th = true) (both_claims s') ∧
        Forall (λ th, final th = true) (both_volumes s').
Proof.
  intros tc tv s.
  apply (both_calls_terminate tc tv 1 2 [] 1 (tables_exec tc tv [(Volumes, 1)] (both_init 1 2 []))).
  apply nsteps_once, (step_volumes _ _ _ _ _ _ _ _ (both_init 1 2 [])).
  by apply (step_thread _ _ _ _ (init 2 []) 1 Called).
Defined.

End BothCalls.
